(** * get_compiler_ir.cc: the compiler-introspection driver

    A shallow embedding of [tensorflow/compiler/jit/get_compiler_ir.cc] and
    the properties its specification states about it.

    - [BuildExecutable], [BuildHLOString],
      [BuildXlaCompilerArgumentFromFuncBody] and [GetCompilerIr] follow the
      source statement by statement.
    - C++ objects are records whose fields are what the source observes of
      them: a method that is called becomes a field holding the method's
      answer.
    - Calls of collaborators and the unchecked indexed accesses of the source
      are recorded as events, in program order. *)

From Stdlib Require Import ZArith String List Bool Lia Sorted.
From stdpp Require Import base list sorting.
From Equations Require Import Equations.
Import ListNotations.

Open Scope string_scope.
Open Scope list_scope.
Open Scope nat_scope.

(** ** Status values *)

(** The canonical error codes of [tsl::error] (OK left out: a [Status] below
    is always an error). *)
Inductive Code :=
| CANCELLED | UNKNOWN | INVALID_ARGUMENT | DEADLINE_EXCEEDED | NOT_FOUND
| ALREADY_EXISTS | PERMISSION_DENIED | RESOURCE_EXHAUSTED
| FAILED_PRECONDITION | ABORTED | OUT_OF_RANGE | UNIMPLEMENTED | INTERNAL
| UNAVAILABLE | DATA_LOSS | UNAUTHENTICATED.

Record Status := { code : Code; error_message : string }.

(** [StatusOr<T>]: a value or an error status. *)
Inductive StatusOr (A : Type) :=
| OkValue (a : A)
| NotOk (s : Status).
Arguments OkValue {A} a.
Arguments NotOk {A} s.

Definition errors_InvalidArgument (msg : string) : Status :=
  {| code := INVALID_ARGUMENT; error_message := msg |}.

Definition errors_Internal (msg : string) : Status :=
  {| code := INTERNAL; error_message := msg |}.

(** ** Data of the function library *)

Inductive DataType :=
| DT_INVALID | DT_FLOAT | DT_DOUBLE | DT_INT32 | DT_INT64 | DT_BOOL
| DT_STRING | DT_RESOURCE | DT_VARIANT.

(** [TensorShapeProto]: the dimension sizes as written in the proto (a size
    of -1 is an unknown dimension) and the unknown-rank bit. *)
Record TensorShapeProto := { dim : list Z; unknown_rank : bool }.

(** [TensorShape]: a fully defined shape. *)
Record TensorShape := { dim_sizes : list Z }.

(** [AttrValue], as far as the source looks into it: [list().shape()] is the
    repeated shape field of the list alternative, and the empty sequence when
    another alternative is set. *)
Inductive AttrValue :=
| AttrList (shapes : list TensorShapeProto)
| AttrOther.

Definition list_shape (v : AttrValue) : list TensorShapeProto :=
  match v with
  | AttrList shapes => shapes
  | AttrOther => []
  end.

(** [FunctionDef.ArgAttrs]: [attr()] is a proto map from attribute name to
    value, kept in the order in which the range-for visits it. *)
Record ArgAttrs := { attr : list (string * AttrValue) }.

(** [OpDef.ArgDef] *)
Record ArgDef := { arg_name : string; arg_type : DataType }.

(** [FunctionDef]: [signature().input_arg()] and [arg_attr()], a proto map
    from argument index (uint32) to [ArgAttrs], in iteration order. *)
Record FunctionDef := {
  input_arg : list ArgDef;
  arg_attr : list (nat * ArgAttrs)
}.

Record FunctionBody := { fdef : FunctionDef }.

(** A proto map holds each key once. *)
Definition unique_keys {K V : Type} (m : list (K * V)) : Prop :=
  NoDup (map fst m).

Definition well_formed_fdef (f : FunctionDef) : Prop :=
  unique_keys (arg_attr f) /\
  forall idx a, In (idx, a) (arg_attr f) -> unique_keys (attr a).

(** ** Compiler arguments *)

Inductive ArgumentKind :=
| kInvalid | kConstant | kResource | kParameter.

(** [XlaCompiler::Argument], the four fields the source assigns. *)
Record Argument := {
  kind : ArgumentKind;
  type : DataType;
  shape : TensorShape;
  name : string
}.

(** A value-initialised [Argument], as [args.resize] creates it. *)
Definition default_Argument : Argument :=
  {| kind := kInvalid; type := DT_INVALID;
     shape := {| dim_sizes := [] |}; name := EmptyString |}.

(** ** Devices *)

(** The device types the source compares with, [DEVICE_CPU] and
    [DEVICE_TPU], and one more accelerator type. *)
Inductive DeviceType := DEVICE_CPU | DEVICE_GPU | DEVICE_TPU.

Definition DeviceType_eqb (a b : DeviceType) : bool :=
  match a, b with
  | DEVICE_CPU, DEVICE_CPU | DEVICE_GPU, DEVICE_GPU
  | DEVICE_TPU, DEVICE_TPU => true
  | _, _ => false
  end.

(** [se::Stream*]: [None] is the null pointer. *)
Record Stream := { stream_id : nat }.

(** [DeviceBase::AcceleratorDeviceInfo] *)
Record AcceleratorDeviceInfo := { stream : option Stream }.

(** ** Tensors and handles *)

Inductive Residency := HostMemory | DeviceMemory.

Record Tensor := {
  dtype : DataType;
  tensor_shape : TensorShape;
  residency : Residency;
  contents : list Z
}.

(** [Tensor(dtype, shape)]: a fresh tensor from the default (host)
    allocator. *)
Definition new_Tensor (d : DataType) (s : TensorShape) : Tensor :=
  {| dtype := d; tensor_shape := s; residency := HostMemory; contents := [] |}.

Record EagerContext := { context_id : nat }.

(** [TensorHandle]: [Tensor(&t)] answers with the tensor the handle owns;
    [CopyToDevice(ctx, d, dst)] answers with what [*dst] holds afterwards. *)
Record TensorHandle := {
  th_Tensor : StatusOr Tensor;
  th_CopyToDevice : EagerContext -> option DeviceType -> Tensor -> StatusOr Tensor
}.

(** ** Resource variables *)

(** A resource variable: [mu_lock] is the answer of an attempt to acquire
    its lock ([None]: acquired). *)
Record Var := { var_id : nat; mu_lock : option Status }.

(** [VariableInfo]: the input index of a resource-backed argument, the
    variable it resolved to, and whether this call holds the lock. *)
Record VariableInfo := {
  vi_index : Z;
  vi_var : Var;
  lock_held : bool
}.

(** ** The compiler and its products *)

(** [xla::Shape] *)
Record XlaShape := { xla_dimensions : list Z }.

Record ProgramShape := {
  parameters : list XlaShape;
  program_result : XlaShape
}.

Record HloModuleProto := { HloModuleProto_SerializeAsString : string }.

Record HloModuleConfig := { entry_computation_layout : ProgramShape }.

Record HloPrintOptions := { print_metadata : bool }.

(** A default-constructed [HloPrintOptions] prints metadata. *)
Definition default_HloPrintOptions : HloPrintOptions :=
  {| print_metadata := true |}.

Definition set_print_metadata (value : bool) (o : HloPrintOptions)
  : HloPrintOptions := {| print_metadata := value |}.

Record HloComputation := { computation_name : string }.

Record HloModule := {
  HloModule_ToString : HloPrintOptions -> string;
  HloModule_ToProto : HloModuleProto;
  entry_computation : HloComputation
}.

(** [xla::HloProto]: the HLO module together with the buffer assignment. *)
Record HloProto := {
  hlo_module : HloModuleProto;
  buffer_assignment : string;
  HloProto_SerializeAsString : string
}.

(** [xla::Executable]; [hlo_proto()] is dereferenced as it is by the source. *)
Record Executable := {
  executable_module : HloModule;
  hlo_proto : HloProto
}.

Record LocalExecutable := { executable : Executable }.

Record XlaComputation := {
  proto : HloModuleProto;
  GetProgramShape : StatusOr ProgramShape
}.

Record CollectiveInfo := { group_size : Z }.

(** [XlaCompiler::CompilationResult] *)
Record CompilationResult := {
  xla_input_shapes : list XlaShape;
  xla_output_shape : XlaShape;
  computation : XlaComputation;
  collective_info : option CollectiveInfo
}.

Record Allocator := { allocator_id : nat }.

(** [XlaCompiler::Options], the fields the source reads. *)
Record Options := {
  device_ordinal : Z;
  device_allocator : option Allocator;
  alias_passthrough_params : bool;
  detailed_logging : bool
}.

(** [XlaCompiler::CompileOptions] *)
Record CompileOptions := {
  always_return_tuple : bool;
  alias_resource_update : bool
}.

(** [xla::ExecutableBuildOptions] with the two debug options the source sets.
    A field the source may leave alone is [None] until it is set. *)
Record ExecutableBuildOptions := {
  num_replicas : option Z;
  build_device_ordinal : option Z;
  result_layout : option XlaShape;
  build_device_allocator : option (option Allocator);
  build_alias_passthrough_params : option bool;
  xla_detailed_logging_and_dumping : option bool;
  xla_embed_ir_in_executable : option bool
}.

Definition default_ExecutableBuildOptions : ExecutableBuildOptions :=
  {| num_replicas := None; build_device_ordinal := None;
     result_layout := None; build_device_allocator := None;
     build_alias_passthrough_params := None;
     xla_detailed_logging_and_dumping := None;
     xla_embed_ir_in_executable := None |}.

(** [xla::LocalClient] *)
Record LocalClient := {
  default_device_ordinal : Z;
  Compile : XlaComputation -> list (option XlaShape) ->
            ExecutableBuildOptions -> StatusOr (list LocalExecutable)
}.

(** [DeviceCompiler<xla::LocalExecutable, xla::LocalClient>] *)
Record XlaDeviceCompiler := { client : LocalClient }.

Record XlaPlatformInfo := { platform_device_type : DeviceType }.

(** [ResourceMgr]: the compiler instance it holds under the name
    "xla_device_compiler", if any, and how it resolves a resource tensor to
    its variable. *)
Record ResourceMgr := {
  cached_xla_device_compiler : option XlaDeviceCompiler;
  resolve_variable : Tensor -> StatusOr Var
}.

Record Device := {
  device_type : DeviceType;
  device_name : string;
  tensorflow_accelerator_device_info : option AcceleratorDeviceInfo;
  resource_manager : ResourceMgr
}.

Record FunctionLibraryRuntime := { flr_device : string }.

Record ProcessFunctionLibraryRuntime := {
  GetFLR : string -> FunctionLibraryRuntime
}.

(** [IrExportStage]: the seven cases of the switch of [BuildHLOString]. *)
Inductive IrExportStage :=
| HLO | HLO_NO_METADATA | HLO_SERIALIZED
| OPTIMIZED_HLO | OPTIMIZED_HLO_SERIALIZED
| OPTIMIZED_HLO_PROTO_SERIALIZED | OPTIMIZED_HLO_DOT.

Definition stage_eqb (a b : IrExportStage) : bool :=
  match a, b with
  | HLO, HLO | HLO_NO_METADATA, HLO_NO_METADATA
  | HLO_SERIALIZED, HLO_SERIALIZED | OPTIMIZED_HLO, OPTIMIZED_HLO
  | OPTIMIZED_HLO_SERIALIZED, OPTIMIZED_HLO_SERIALIZED
  | OPTIMIZED_HLO_PROTO_SERIALIZED, OPTIMIZED_HLO_PROTO_SERIALIZED
  | OPTIMIZED_HLO_DOT, OPTIMIZED_HLO_DOT => true
  | _, _ => false
  end.

Inductive RenderedGraphFormat := kDot | kHtml | kUrl.

(** ** Events *)

(** An evaluation of [operator[]] in the spec-mode builder on a container
    whose index no loop bound or preceding check relates to its size: the
    index, and the container's [size()] at that moment. *)
Inductive Container :=
| shapes_vector      (* the local [std::vector<TensorShape> shapes] *)
| shape_list.        (* [attr_value.second.list().shape()] *)

Record Access := {
  container : Container;
  index : nat;
  size_then : nat
}.

Definition in_bounds (a : Access) : bool := index a <? size_then a.

(** Calls of collaborators, and what the destructors of the locals of
    [GetCompilerIr] do when the call returns. *)
Inductive Event :=
| EvAccess (a : Access)
| EvGetBodyAndConstantsAndResources (function : string)
| EvTensor (i : nat)
| EvCopyToDevice (i : nat)
| EvGetVariableInfosFromInputs
| EvLock (idx : Z)
| EvUnlock (idx : Z)
| EvLookupOrCreate
| EvBuildXlaDeviceCompiler
| EvUnref
| EvGenerateTfrtTpuCompilerOptions
| EvGenerateCompilerOptions (s : option Stream) (has_ref_vars : bool)
| EvBuildXlaCompilerArguments
| EvCompileFunction (args : list Argument)
| EvGetProgramShape
| EvCreateFromProto
| EvCompile (build_options : ExecutableBuildOptions)
| EvRenderGraph (label : string) (format : RenderedGraphFormat).

Definition Trace := list Event.

(** ** Runs *)

(** What a C++ run can end in besides an error status: behaviour the language
    leaves undefined. *)
Inductive Fault :=
| NullDereference       (* [->] on a null pointer *)
| OutsideAllocation     (* an element address outside the storage of a vector *)
| UninitializedRead     (* a reserved slot read before anything was stored *)
| EmptyRepeatedField.   (* [operator[]] on an empty repeated field *)

Inductive Outcome (A : Type) :=
| Ok (a : A)
| Err (s : Status)
| Undefined (f : Fault).
Arguments Ok {A} a.
Arguments Err {A} s.
Arguments Undefined {A} f.

(** A run: the events in program order, and how it ended. *)
Definition T (A : Type) : Type := Trace * Outcome A.

Definition ret {A} (a : A) : T A := ([], Ok a).
Definition fail {A} (s : Status) : T A := ([], Err s).
Definition fault {A} (f : Fault) : T A := ([], Undefined f).
Definition emit (e : Event) : T unit := ([e], Ok tt).

Definition bind {A B} (m : T A) (k : A -> T B) : T B :=
  match m with
  | (t, Ok a) => let '(t', r) := k a in (t ++ t', r)
  | (t, Err s) => (t, Err s)
  | (t, Undefined f) => (t, Undefined f)
  end.

Notation "'let*' x ':=' c 'in' k" := (bind c (fun x => k))
  (at level 10, x pattern, c at level 100, k at level 200).
Notation "c ';;' k" := (bind c (fun _ => k))
  (at level 100, k at level 200, right associativity).

Definition events {A} (m : T A) : Trace := fst m.
Definition outcome {A} (m : T A) : Outcome A := snd m.

(** [TF_ASSIGN_OR_RETURN] / [TF_RETURN_IF_ERROR]: an error of the callee is
    returned as it is. *)
Definition or_return {A} (r : StatusOr A) : T A :=
  match r with
  | OkValue a => ret a
  | NotOk s => fail s
  end.

(** Modelled from the spec: the error kind of a failed [TF_RET_CHECK], a macro
    of xla/status_macros.h, which is not among the sources. The spec (4.8 and
    7) says of the executable-count check, which the source writes
    [TF_RET_CHECK(executables.size() == 1)], that it fails with Internal. *)
Definition TF_RET_CHECK (condition : bool) (text : string) : T unit :=
  if condition then ret tt else fail (errors_Internal text).

(** ** std::vector with reserved storage *)

(** A vector is its [size()] and its storage; the length of the storage is
    [capacity()]. A slot that no element was constructed or stored in is
    [None]. *)
Record vector (A : Type) := { v_size : nat; v_slots : list (option A) }.
Arguments v_size {A} v.
Arguments v_slots {A} v.

Definition capacity {A} (v : vector A) : nat := length (v_slots v).

Definition empty_vector {A} : vector A := {| v_size := 0; v_slots := [] |}.

(** [v.reserve(n)]: storage for [n] elements, [size()] unchanged. *)
Definition reserve {A} (n : nat) (v : vector A) : vector A :=
  {| v_size := v_size v;
     v_slots := v_slots v ++ replicate (n - capacity v) None |}.

(** [&v[idx]]: no check against [size()]. The access is recorded; an address
    within the storage is usable, one outside it is not. *)
Definition element_address {A} (c : Container) (v : vector A) (idx : nat)
  : T unit :=
  emit (EvAccess {| container := c; index := idx; size_then := v_size v |});;
  if idx <? capacity v then ret tt else fault OutsideAllocation.

(** Storing through an element address. *)
Definition store {A} (v : vector A) (idx : nat) (x : A) : vector A :=
  {| v_size := v_size v; v_slots := <[idx := Some x]> (v_slots v) |}.

(** [v[idx]] read as a value. *)
Definition element {A} (c : Container) (v : vector A) (idx : nat) : T A :=
  element_address c v idx;;
  match v_slots v !! idx with
  | Some (Some x) => ret x
  | Some None => fault UninitializedRead
  | None => fault OutsideAllocation
  end.

(** [field[idx]] on a repeated proto field: no check in an optimised build. *)
Definition repeated_element {A} (c : Container) (field : list A) (idx : nat)
  : T A :=
  emit (EvAccess {| container := c; index := idx; size_then := length field |});;
  match field !! idx with
  | Some x => ret x
  | None => fault EmptyRepeatedField
  end.

(** ** BuildXlaCompilerArgumentFromFuncBody (lines 136-176) *)

Section SpecMode.

(** [TensorShape::BuildTensorShape], of tensor_shape.cc: not among the
    sources, taken as it comes. *)
Variable BuildTensorShape : TensorShapeProto -> StatusOr TensorShape.

(** Lines 155-161: the inner loop over [attr.second.attr()]. *)
Fixpoint scan_attr_values (idx : nat) (attr_values : list (string * AttrValue))
    (shapes : vector TensorShape) (has_function_input_shape : bool)
  : T (vector TensorShape * bool) :=
  match attr_values with
  | [] => ret (shapes, has_function_input_shape)
  | (first, second) :: rest =>
      if String.eqb first "_output_shapes" then
        let* proto := repeated_element shape_list (list_shape second) 0 in
        element_address shapes_vector shapes idx;;
        let* s := or_return (BuildTensorShape proto) in
        scan_attr_values idx rest (store shapes idx s) true
      else
        scan_attr_values idx rest shapes has_function_input_shape
  end.

(** Lines 152-163: the loop over [arg_attrs]. *)
Fixpoint scan_arg_attrs (arg_attrs : list (nat * ArgAttrs))
    (shapes : vector TensorShape) : T (vector TensorShape) :=
  match arg_attrs with
  | [] => ret shapes
  | (idx, a) :: rest =>
      let* (shapes', has_function_input_shape) :=
        scan_attr_values idx (attr a) shapes false in
      TF_RET_CHECK has_function_input_shape "has_function_input_shape";;
      scan_arg_attrs rest shapes'
  end.

(** Lines 168-174: one round of the loop that fills [args]. *)
Definition fill_arg (input_args : list ArgDef) (shapes : vector TensorShape)
    (args : list Argument) (input_num : nat) : T (list Argument) :=
  match input_args !! input_num with
  | None => fault EmptyRepeatedField
  | Some input =>
      let* s := element shapes_vector shapes input_num in
      ret (<[input_num := {| kind := kParameter;
                             type := arg_type input;
                             shape := s;
                             name := arg_name input |}]> args)
  end.

Fixpoint fill_args (input_args : list ArgDef) (shapes : vector TensorShape)
    (rounds : list nat) (args : list Argument) : T (list Argument) :=
  match rounds with
  | [] => ret args
  | input_num :: later =>
      let* args' := fill_arg input_args shapes args input_num in
      fill_args input_args shapes later args'
  end.

Definition using_variable_message : string :=
  ("The function to be lowered uses some tf.Variable defined outside_" ++
   "_the_function body.  This is not supported with using_tensor_spec." ++
   "Please modify the function with pure functional style.")%string.

Definition BuildXlaCompilerArgumentFromFuncBody (fbody : option FunctionBody)
  : T (list Argument) :=
  match fbody with
  | None => TF_RET_CHECK false "fbody != nullptr";; ret []
  | Some body =>
      let input_args := input_arg (fdef body) in
      let input_arg_size := length input_args in
      let arg_attrs := arg_attr (fdef body) in
      if negb (length arg_attrs =? input_arg_size) then
        fail (errors_InvalidArgument using_variable_message)
      else
        let shapes := reserve input_arg_size empty_vector in
        let* shapes := scan_arg_attrs arg_attrs shapes in
        let args := replicate input_arg_size default_Argument in
        fill_args input_args shapes (seq 0 input_arg_size) args
  end.

End SpecMode.

(** ** BuildExecutable (lines 46-78) *)

Definition set_num_replicas (n : Z) (o : ExecutableBuildOptions) :=
  {| num_replicas := Some n;
     build_device_ordinal := build_device_ordinal o;
     result_layout := result_layout o;
     build_device_allocator := build_device_allocator o;
     build_alias_passthrough_params := build_alias_passthrough_params o;
     xla_detailed_logging_and_dumping := xla_detailed_logging_and_dumping o;
     xla_embed_ir_in_executable := xla_embed_ir_in_executable o |}.

Definition set_device_ordinal (n : Z) (o : ExecutableBuildOptions) :=
  {| num_replicas := num_replicas o;
     build_device_ordinal := Some n;
     result_layout := result_layout o;
     build_device_allocator := build_device_allocator o;
     build_alias_passthrough_params := build_alias_passthrough_params o;
     xla_detailed_logging_and_dumping := xla_detailed_logging_and_dumping o;
     xla_embed_ir_in_executable := xla_embed_ir_in_executable o |}.

Definition set_result_layout (s : XlaShape) (o : ExecutableBuildOptions) :=
  {| num_replicas := num_replicas o;
     build_device_ordinal := build_device_ordinal o;
     result_layout := Some s;
     build_device_allocator := build_device_allocator o;
     build_alias_passthrough_params := build_alias_passthrough_params o;
     xla_detailed_logging_and_dumping := xla_detailed_logging_and_dumping o;
     xla_embed_ir_in_executable := xla_embed_ir_in_executable o |}.

Definition set_device_allocator (a : option Allocator)
    (o : ExecutableBuildOptions) :=
  {| num_replicas := num_replicas o;
     build_device_ordinal := build_device_ordinal o;
     result_layout := result_layout o;
     build_device_allocator := Some a;
     build_alias_passthrough_params := build_alias_passthrough_params o;
     xla_detailed_logging_and_dumping := xla_detailed_logging_and_dumping o;
     xla_embed_ir_in_executable := xla_embed_ir_in_executable o |}.

Definition set_alias_passthrough_params (b : bool)
    (o : ExecutableBuildOptions) :=
  {| num_replicas := num_replicas o;
     build_device_ordinal := build_device_ordinal o;
     result_layout := result_layout o;
     build_device_allocator := build_device_allocator o;
     build_alias_passthrough_params := Some b;
     xla_detailed_logging_and_dumping := xla_detailed_logging_and_dumping o;
     xla_embed_ir_in_executable := xla_embed_ir_in_executable o |}.

Definition set_xla_detailed_logging_and_dumping (b : bool)
    (o : ExecutableBuildOptions) :=
  {| num_replicas := num_replicas o;
     build_device_ordinal := build_device_ordinal o;
     result_layout := result_layout o;
     build_device_allocator := build_device_allocator o;
     build_alias_passthrough_params := build_alias_passthrough_params o;
     xla_detailed_logging_and_dumping := Some b;
     xla_embed_ir_in_executable := xla_embed_ir_in_executable o |}.

Definition set_xla_embed_ir_in_executable (b : bool)
    (o : ExecutableBuildOptions) :=
  {| num_replicas := num_replicas o;
     build_device_ordinal := build_device_ordinal o;
     result_layout := result_layout o;
     build_device_allocator := build_device_allocator o;
     build_alias_passthrough_params := build_alias_passthrough_params o;
     xla_detailed_logging_and_dumping := xla_detailed_logging_and_dumping o;
     xla_embed_ir_in_executable := Some b |}.

(** Lines 51-55: a vector of [size()] pointers, then one store per index. *)
Definition argument_layouts_of (result : CompilationResult)
  : list (option XlaShape) :=
  let n := length (xla_input_shapes result) in
  fold_left (fun layouts i => <[i := xla_input_shapes result !! i]> layouts)
            (seq 0 n) (replicate n None).

(** The default argument of the last parameter of [BuildExecutable]
    (line 50). *)
Definition default_xla_embed_ir_in_executable : bool := false.

Definition BuildExecutable (local_client : LocalClient)
    (result : CompilationResult) (options : Options)
    (embed_ir_in_executable : bool) : T LocalExecutable :=
  let argument_layouts := argument_layouts_of result in
  let build_options := default_ExecutableBuildOptions in
  let build_options :=
    match collective_info result with
    | Some info => set_num_replicas (group_size info) build_options
    | None => build_options
    end in
  let build_options :=
    set_device_ordinal
      (if negb (device_ordinal options =? -1)%Z then device_ordinal options
       else default_device_ordinal local_client) build_options in
  let build_options :=
    set_result_layout (xla_output_shape result) build_options in
  let build_options :=
    set_device_allocator (device_allocator options) build_options in
  let build_options :=
    set_alias_passthrough_params (alias_passthrough_params options)
                                 build_options in
  let build_options :=
    set_xla_detailed_logging_and_dumping (detailed_logging options)
                                         build_options in
  let build_options :=
    set_xla_embed_ir_in_executable embed_ir_in_executable build_options in
  emit (EvCompile build_options);;
  let* executables :=
    or_return (Compile local_client (computation result) argument_layouts
                       build_options) in
  TF_RET_CHECK (length executables =? 1) "executables.size() == 1";;
  match executables with
  | first :: _ => ret first
  | [] => fault OutsideAllocation
  end.

(** ** BuildHLOString (lines 80-134) *)

Section Exporter.

(** [xla::HloModule::CreateFromProto] and [xla::RenderGraph], of the XLA
    service: not among the sources, taken as they come. *)
Variable CreateFromProto :
  HloModuleProto -> HloModuleConfig -> StatusOr HloModule.
Variable RenderGraph :
  HloComputation -> string -> RenderedGraphFormat -> StatusOr string.

Definition BuildHLOString (stage : IrExportStage) (result : CompilationResult)
    (local_client : LocalClient) (options : Options) : T string :=
  match stage with
  | HLO | HLO_NO_METADATA | HLO_SERIALIZED =>
      emit EvGetProgramShape;;
      let* program_shape := or_return (GetProgramShape (computation result)) in
      let config := {| entry_computation_layout := program_shape |} in
      emit EvCreateFromProto;;
      let* new_module :=
        or_return (CreateFromProto (proto (computation result)) config) in
      let opts := default_HloPrintOptions in
      let opts :=
        if stage_eqb stage HLO_NO_METADATA
        then set_print_metadata false opts else opts in
      if stage_eqb stage HLO_SERIALIZED
      then ret (HloModuleProto_SerializeAsString (HloModule_ToProto new_module))
      else ret (HloModule_ToString new_module opts)
  | OPTIMIZED_HLO | OPTIMIZED_HLO_SERIALIZED =>
      let* executable_ :=
        BuildExecutable local_client result options
                        default_xla_embed_ir_in_executable in
      let new_executable := executable executable_ in
      if stage_eqb stage OPTIMIZED_HLO_SERIALIZED
      then ret (HloModuleProto_SerializeAsString
                  (HloModule_ToProto (executable_module new_executable)))
      else ret (HloModule_ToString (executable_module new_executable)
                                   default_HloPrintOptions)
  | OPTIMIZED_HLO_PROTO_SERIALIZED =>
      let* executable_ :=
        BuildExecutable local_client result options true in
      ret (HloProto_SerializeAsString (hlo_proto (executable executable_)))
  | OPTIMIZED_HLO_DOT =>
      let* executable_ :=
        BuildExecutable local_client result options
                        default_xla_embed_ir_in_executable in
      emit (EvRenderGraph "Visualization" kDot);;
      let graph :=
        RenderGraph (entry_computation
                       (executable_module (executable executable_)))
                    "Visualization" kDot in
      or_return graph
  end.

End Exporter.

(** ** absl::c_binary_search on a vector of int *)

(** [std::lower_bound]: the halving loop over the range of [len] elements
    that starts at position [first]. *)
Equations? lower_bound (l : list Z) (val : Z) (first len : nat) : nat
  by wf len lt :=
  lower_bound l val first 0 := first;
  lower_bound l val first (S n) with l !! (first + S n / 2) := {
    | Some middle with (middle <? val)%Z := {
        | true =>
            lower_bound l val (first + S n / 2 + 1) (S n - S n / 2 - 1)
        | false =>
            lower_bound l val first (S n / 2) };
    | None => first }.
Proof.
  all: pose proof (Nat.divmod_spec n 1 0 0 (Nat.le_0_l 1)) as Hd;
    destruct (Nat.divmod n 1 0 0) as [q r]; simpl in *; lia.
Qed.

(** [std::binary_search]: [first != last && !(val < *first)] for the
    position [lower_bound] returns. *)
Definition c_binary_search (l : list Z) (val : Z) : bool :=
  let first := lower_bound l val 0 (length l) in
  match l !! first with
  | Some x => negb (val <? x)%Z
  | None => false
  end.

(** ** Runs of GetCompilerIr: the locals with a destructor *)

(** The two locals of [GetCompilerIr] whose destructor does something
    observable: [variable_infos] (line 215) and [xla_device_compiler_ref]
    (line 250). *)
Record Locals := {
  variable_infos : list VariableInfo;
  xla_device_compiler_ref : option XlaDeviceCompiler
}.

Definition no_locals : Locals :=
  {| variable_infos := []; xla_device_compiler_ref := None |}.

Definition M (A : Type) : Type := Locals -> Trace * Locals * Outcome A.

Definition retM {A} (a : A) : M A := fun st => ([], st, Ok a).

Definition failM {A} (s : Status) : M A := fun st => ([], st, Err s).

(** A run continued after the events [t]. *)
Definition after {A} (t : Trace) (x : Trace * Locals * Outcome A)
  : Trace * Locals * Outcome A :=
  let '(t', st, r) := x in (t ++ t', st, r).

Definition bindM {A B} (m : M A) (k : A -> M B) : M B :=
  fun st =>
    match m st with
    | (t, st', Ok a) => after t (k a st')
    | (t, st', Err s) => (t, st', Err s)
    | (t, st', Undefined f) => (t, st', Undefined f)
    end.

(** A run that touches no local. *)
Definition lift {A} (m : T A) : M A := fun st => (fst m, st, snd m).

Definition get_variable_infos : M (list VariableInfo) :=
  fun st => ([], st, Ok (variable_infos st)).

Definition put_variable_infos (infos : list VariableInfo) : M unit :=
  fun st => ([], {| variable_infos := infos;
                    xla_device_compiler_ref := xla_device_compiler_ref st |},
             Ok tt).

Definition put_xla_device_compiler_ref (c : XlaDeviceCompiler) : M unit :=
  fun st => ([], {| variable_infos := variable_infos st;
                    xla_device_compiler_ref := Some c |}, Ok tt).

Notation "'let!' x ':=' c 'in' k" := (bindM c (fun x => k))
  (at level 10, x pattern, c at level 100, k at level 200).
Notation "c ';;;' k" := (bindM c (fun _ => k))
  (at level 100, k at level 200, right associativity).

(** ** The Variable Locker *)

(** [inputs[idx]] for an int index. *)
Definition at_index {A} (l : list A) (idx : Z) : option A :=
  if (idx <? 0)%Z then None else l !! Z.to_nat idx.

(** Modelled from the spec: [GetVariableInfosFromInputs], of
    xla_launch_util.cc, which is not among the sources. Spec 4.4: given the
    resource-backed indices and their runtime values, each is resolved to its
    variable. The result is one [VariableInfo] per index, in the order of the
    indices, with no lock held. *)
Fixpoint resolve_variables (rmgr : ResourceMgr) (inputs : list Tensor)
    (variable_indices : list Z) : T (list VariableInfo) :=
  match variable_indices with
  | [] => ret []
  | idx :: rest =>
      match at_index inputs idx with
      | None => fault OutsideAllocation
      | Some handle =>
          let* var := or_return (resolve_variable rmgr handle) in
          let* infos := resolve_variables rmgr inputs rest in
          ret ({| vi_index := idx; vi_var := var; lock_held := false |}
               :: infos)
      end
  end.

Definition GetVariableInfosFromInputs (rmgr : ResourceMgr)
    (inputs : list Tensor) (variable_indices : list Z) : M unit :=
  let! _ := lift (emit EvGetVariableInfosFromInputs) in
  let! infos := lift (resolve_variables rmgr inputs variable_indices) in
  put_variable_infos infos.

(** The order in which locks are taken: ascending input index. *)
Fixpoint insert_by_index (v : VariableInfo) (sorted : list VariableInfo)
  : list VariableInfo :=
  match sorted with
  | [] => [v]
  | w :: rest =>
      if (vi_index v <=? vi_index w)%Z then v :: w :: rest
      else w :: insert_by_index v rest
  end.

Definition lock_order (infos : list VariableInfo) : list VariableInfo :=
  fold_right insert_by_index [] infos.

(** Acquisition in the given order; [acquired] are the indices locked so
    far in this call, latest first. On a failure they are released before the
    error is returned. *)
Fixpoint acquire_all (order : list VariableInfo) (acquired : list Z)
  : T unit :=
  match order with
  | [] => ret tt
  | v :: rest =>
      match mu_lock (vi_var v) with
      | None => emit (EvLock (vi_index v));;
                acquire_all rest (vi_index v :: acquired)
      | Some s =>
          fold_right (fun idx k => emit (EvUnlock idx);; k) (fail s) acquired
      end
  end.

Definition hold (v : VariableInfo) : VariableInfo :=
  {| vi_index := vi_index v; vi_var := vi_var v; lock_held := true |}.

(** Modelled from the spec: [LockVariables], of xla_launch_util.cc, which is
    not among the sources. Spec 4.4: the locks are acquired in ascending index
    order, all together or none; on an acquisition failure the locks already
    acquired in this call are released before the error is surfaced. *)
Definition LockVariables : M unit :=
  let! infos := get_variable_infos in
  let! _ := lift (acquire_all (lock_order infos) []) in
  put_variable_infos (map hold infos).

(** Modelled from the spec: the destructor of [VariableInfo], of
    xla_launch_util.cc, which is not among the sources. Spec 4.4: a lock that
    is held is released when the call returns, on success and on failure. *)
Definition destroy_VariableInfo (v : VariableInfo) : Trace :=
  if lock_held v then [EvUnlock (vi_index v)] else [].

(** ** The Device Compiler Cache *)

(** Modelled from the spec: [ResourceMgr::LookupOrCreate], of resource_mgr.h,
    which is not among the sources. Spec 4.5: an existing entry is returned;
    otherwise one is constructed with the factory and returned. *)
Definition LookupOrCreate (rmgr : ResourceMgr)
    (creator : unit -> StatusOr XlaDeviceCompiler) : T XlaDeviceCompiler :=
  emit EvLookupOrCreate;;
  match cached_xla_device_compiler rmgr with
  | Some c => ret c
  | None => emit EvBuildXlaDeviceCompiler;; or_return (creator tt)
  end.

(** Modelled from the spec: the destructor of [core::ScopedUnref], of
    refcount.h, which is not among the sources. Spec 3: the reference is
    released at the end of each call that used it. *)
Definition destroy_ScopedUnref (r : option XlaDeviceCompiler) : Trace :=
  match r with
  | Some _ => [EvUnref]
  | None => []
  end.

(** The locals are destroyed in the reverse order of their declarations. *)
Definition destroy_locals (st : Locals) : Trace :=
  destroy_ScopedUnref (xla_device_compiler_ref st) ++
  flat_map destroy_VariableInfo (variable_infos st).

(** Leaving the function: the destructors of the locals run, whichever
    [return] the body left through. After undefined behaviour nothing more
    is known. *)
Definition at_return {A} (x : Trace * Locals * Outcome A) : T A :=
  let '(t, st, r) := x in
  match r with
  | Undefined f => (t, Undefined f)
  | _ => (t ++ destroy_locals st, r)
  end.

(** ** Value mode: the compiler arguments *)

Definition is_resource_index (variable_args : list VariableInfo) (i : Z)
  : bool :=
  existsb (fun v => (vi_index v =? i)%Z) variable_args.

Definition is_constant_index (must_be_constant_idxs : list Z) (i : Z)
  : bool :=
  existsb (fun c => (c =? i)%Z) must_be_constant_idxs.

(** Modelled from the spec:
    [XlaComputationLaunchContext::BuildXlaCompilerArguments], of
    xla_launch_util.cc, which is not among the sources. Spec 4.3: one
    descriptor per input, its kind Parameter, Constant or Resource as the
    classification sets say, its shape and type those of the runtime
    value. *)
Definition BuildXlaCompilerArguments (must_be_constant_idxs : list Z)
    (inputs : list Tensor) (variable_args : list VariableInfo) (dev : Device)
  : StatusOr (list Argument) :=
  OkValue
    (imap (fun input_num input =>
             {| kind :=
                  if is_resource_index variable_args (Z.of_nat input_num)
                  then kResource
                  else if is_constant_index must_be_constant_idxs
                                            (Z.of_nat input_num)
                  then kConstant
                  else kParameter;
                type := dtype input;
                shape := tensor_shape input;
                name := EmptyString |})
          inputs).

(** ** GetCompilerIr (lines 178-288) *)

(** The free functions and static methods [GetCompilerIr] and its helpers
    call that are not among the sources. Each is taken as it comes. *)
Record Collaborators := {
  BuildTensorShape : TensorShapeProto -> StatusOr TensorShape;
  CreateFromProto : HloModuleProto -> HloModuleConfig -> StatusOr HloModule;
  RenderGraph :
    HloComputation -> string -> RenderedGraphFormat -> StatusOr string;
  GetBodyAndConstantsAndResources :
    FunctionLibraryRuntime -> string ->
    StatusOr (option FunctionBody * list Z * list Z);
  XlaPlatformInfoFromDevice : Device -> XlaPlatformInfo;
  BuildXlaDeviceCompiler :
    Device -> FunctionLibraryRuntime -> XlaPlatformInfo ->
    StatusOr XlaDeviceCompiler;
  GenerateTfrtTpuCompilerOptions :
    XlaDeviceCompiler -> FunctionLibraryRuntime -> Options;
  GenerateCompilerOptions :
    XlaDeviceCompiler -> FunctionLibraryRuntime -> Device -> option Stream ->
    XlaPlatformInfo -> bool -> Options;
  CompileFunction :
    Options -> CompileOptions -> string -> list Argument ->
    StatusOr CompilationResult
}.

(** Lines 187-191. *)
Definition is_tfrt_tpu_supported_stage (stage : IrExportStage) : bool :=
  stage_eqb stage HLO || stage_eqb stage HLO_NO_METADATA ||
  stage_eqb stage HLO_SERIALIZED.

(** [p->field] on a pointer that may be null. *)
Definition deref {A} (p : option A) : T A :=
  match p with
  | Some a => ret a
  | None => fault NullDereference
  end.

Definition is_null {A} (p : option A) : bool :=
  match p with
  | Some _ => false
  | None => true
  end.

(** Lines 194-196, the condition of the [if]: the operands of [&&] are
    evaluated left to right, the second only when the first holds. *)
Definition stage_unsupported (stage : IrExportStage) (dev : Device) : T bool :=
  if negb (DeviceType_eqb (device_type dev) DEVICE_CPU) then
    let* info := deref (tensorflow_accelerator_device_info dev) in
    ret (is_null (stream info) && negb (is_tfrt_tpu_supported_stage stage))
  else ret false.

Definition unsupported_stage_message : string :=
  "GetCompilerIr with requested stage is not supported on this device.".

(** Lines 220-234: the loop over [inputs_handles]. [inputs] holds pointers;
    the elements of the deque [inputs_storage] do not move, so a pointer into
    it is modelled by the value stored there. *)
Fixpoint gather_inputs (context : EagerContext) (constant_arg_indices : list Z)
    (inputs_handles : list TensorHandle) (i : nat)
    (inputs inputs_storage : list Tensor) : T (list Tensor * list Tensor) :=
  match inputs_handles with
  | [] => ret (inputs, inputs_storage)
  | th :: rest =>
      emit (EvTensor i);;
      let* t := or_return (th_Tensor th) in
      if c_binary_search constant_arg_indices (Z.of_nat i) then
        let slot := new_Tensor (dtype t) (tensor_shape t) in
        emit (EvCopyToDevice i);;
        let* copy := or_return (th_CopyToDevice th context None slot) in
        gather_inputs context constant_arg_indices rest (S i)
                      (inputs ++ [copy]) (inputs_storage ++ [copy])
      else
        gather_inputs context constant_arg_indices rest (S i)
                      (inputs ++ [t]) inputs_storage
  end.

(** Lines 252-256: the guarded read of the stream. *)
Definition stream_of (dev : Device) : option Stream :=
  match tensorflow_accelerator_device_info dev with
  | Some accelerator_device_info => stream accelerator_device_info
  | None => None
  end.

Section Driver.

Variable E : Collaborators.

(** Lines 258-265: the choice between the two option generators. *)
Definition generate_options (platform_info : XlaPlatformInfo)
    (stream_ : option Stream) (xla_device_compiler : XlaDeviceCompiler)
    (flr : FunctionLibraryRuntime) (dev : Device) : T Options :=
  if DeviceType_eqb (platform_device_type platform_info) DEVICE_TPU
     && is_null stream_
  then
    emit EvGenerateTfrtTpuCompilerOptions;;
    ret (GenerateTfrtTpuCompilerOptions E xla_device_compiler flr)
  else
    emit (EvGenerateCompilerOptions stream_ false);;
    ret (GenerateCompilerOptions E xla_device_compiler flr dev stream_
                                 platform_info false).

(** Lines 216-239, the branch taken when inputs were given: the inputs are
    gathered, the resource variables among them are resolved and locked. The
    memory types computed at lines 217-219 are not used by anything that
    follows and are left out. *)
Definition read_and_lock_inputs (context : EagerContext) (rmgr : ResourceMgr)
    (constant_arg_indices resource_arg_indices : list Z)
    (inputs_handles : list TensorHandle) : M (list Tensor) :=
  let! (inputs, inputs_storage) :=
    lift (gather_inputs context constant_arg_indices inputs_handles 0 [] []) in
  GetVariableInfosFromInputs rmgr inputs resource_arg_indices;;;
  LockVariables;;;
  retM inputs.

(** Lines 241-287: the compiler instance, the options, the arguments, the
    compilation and the export. *)
Definition compile_and_export (stage : IrExportStage) (function : string)
    (dev : Device) (flr : FunctionLibraryRuntime) (rmgr : ResourceMgr)
    (using_tensor_spec : bool) (fbody : option FunctionBody)
    (constant_arg_indices : list Z) (inputs : list Tensor) : M string :=
  let platform_info := XlaPlatformInfoFromDevice E dev in
  let! xla_device_compiler :=
    lift (LookupOrCreate rmgr
            (fun _ => BuildXlaDeviceCompiler E dev flr platform_info)) in
  put_xla_device_compiler_ref xla_device_compiler;;;
  let stream_ := stream_of dev in
  let! options :=
    lift (generate_options platform_info stream_ xla_device_compiler flr dev) in
  let compile_options :=
    {| always_return_tuple := false; alias_resource_update := true |} in
  let! variable_infos_ := get_variable_infos in
  let! args :=
    lift (if using_tensor_spec then
            BuildXlaCompilerArgumentFromFuncBody (BuildTensorShape E) fbody
          else
            emit EvBuildXlaCompilerArguments;;
            or_return (BuildXlaCompilerArguments constant_arg_indices inputs
                                                 variable_infos_ dev)) in
  let local_client := client xla_device_compiler in
  let! result :=
    lift (emit (EvCompileFunction args);;
          or_return (CompileFunction E options compile_options function
                                     args)) in
  lift (BuildHLOString (CreateFromProto E) (RenderGraph E) stage result
                       local_client options).

(** The body of [GetCompilerIr]. *)
Definition GetCompilerIr_body (stage : IrExportStage)
    (pflr : ProcessFunctionLibraryRuntime) (func_name : string)
    (dev : Device) (context : EagerContext)
    (inputs_handles : list TensorHandle) : M string :=
  let using_tensor_spec := match inputs_handles with [] => true | _ => false end in
  let! unsupported := lift (stage_unsupported stage dev) in
  if (unsupported : bool) then failM (errors_Internal unsupported_stage_message)
  else
  let function := func_name in
  let flr := GetFLR pflr (device_name dev) in
  let rmgr := resource_manager dev in
  let! (fbody_constants, resource_arg_indices) :=
    lift (emit (EvGetBodyAndConstantsAndResources function);;
          or_return (GetBodyAndConstantsAndResources E flr function)) in
  let '(fbody, constant_arg_indices) := fbody_constants in
  let! inputs :=
    (if negb using_tensor_spec then
       read_and_lock_inputs context rmgr constant_arg_indices
                            resource_arg_indices inputs_handles
     else retM []) in
  compile_and_export stage function dev flr rmgr using_tensor_spec fbody
                     constant_arg_indices inputs.

(** A call: the body, then the destructors of the locals. *)
Definition GetCompilerIr (stage : IrExportStage)
    (pflr : ProcessFunctionLibraryRuntime) (func_name : string)
    (dev : Device) (context : EagerContext)
    (inputs_handles : list TensorHandle) : T string :=
  at_return (GetCompilerIr_body stage pflr func_name dev context
                                inputs_handles no_locals).

End Driver.

(** ** Concrete inputs *)

Module Sample.

(** A shape parser that accepts fully defined shapes only. *)
Definition parse_shape (p : TensorShapeProto) : StatusOr TensorShape :=
  if unknown_rank p then
    NotOk (errors_InvalidArgument "Shape has unknown rank")
  else if forallb (fun d => (0 <=? d)%Z) (dim p) then
    OkValue {| dim_sizes := dim p |}
  else NotOk (errors_InvalidArgument "Shape has a negative dimension").

Definition shape_2x2 : TensorShapeProto :=
  {| dim := [2; 2]%Z; unknown_rank := false |}.

Definition annotated (p : TensorShapeProto) : ArgAttrs :=
  {| attr := [("_user_specified_name", AttrOther);
              ("_output_shapes", AttrList [p])] |}.

Definition float_arg (n : string) : ArgDef :=
  {| arg_name := n; arg_type := DT_FLOAT |}.

(** Two float parameters of shape (2,2); the map is visited in the order
    1, 0. *)
Definition two_floats : FunctionBody :=
  {| fdef := {| input_arg := [float_arg "x"; float_arg "y"];
                arg_attr := [(1, annotated shape_2x2);
                             (0, annotated shape_2x2)] |} |}.

(** One float parameter whose entry carries no "_output_shapes". *)
Definition unannotated : FunctionBody :=
  {| fdef := {| input_arg := [float_arg "x"];
                arg_attr := [(0, {| attr := [("_user_specified_name",
                                              AttrOther)] |})] |} |}.

(** One float parameter of shape (2,2). *)
Definition one_float : FunctionBody :=
  {| fdef := {| input_arg := [float_arg "x"];
                arg_attr := [(0, annotated shape_2x2)] |} |}.

Definition text_module (text : string) : HloModule :=
  {| HloModule_ToString :=
       fun o => if print_metadata o then (text ++ " metadata")%string else text;
     HloModule_ToProto := {| HloModuleProto_SerializeAsString := text |};
     entry_computation := {| computation_name := "main" |} |}.

Definition built (embed : bool) : LocalExecutable :=
  {| executable :=
       {| executable_module := text_module "optimized";
          hlo_proto :=
            {| hlo_module := {| HloModuleProto_SerializeAsString := "optimized" |};
               buffer_assignment := if embed then "buffers" else EmptyString;
               HloProto_SerializeAsString :=
                 if embed then "optimized+buffers" else EmptyString |} |} |}.

Definition local_client : LocalClient :=
  {| default_device_ordinal := 0;
     Compile := fun _ _ o =>
       OkValue [built (match xla_embed_ir_in_executable o with
                       | Some b => b
                       | None => false
                       end)] |}.

Definition compilation_result : CompilationResult :=
  {| xla_input_shapes := [{| xla_dimensions := [2; 2]%Z |}];
     xla_output_shape := {| xla_dimensions := [2; 2]%Z |};
     computation :=
       {| proto := {| HloModuleProto_SerializeAsString := "unoptimized" |};
          GetProgramShape :=
            OkValue {| parameters := [{| xla_dimensions := [2; 2]%Z |}];
                       program_result := {| xla_dimensions := [2; 2]%Z |} |} |};
     collective_info := None |}.

Definition options : Options :=
  {| device_ordinal := (-1)%Z; device_allocator := None;
     alias_passthrough_params := false; detailed_logging := false |}.

Definition variable (n : nat) : Var := {| var_id := n; mu_lock := None |}.

Definition manager : ResourceMgr :=
  {| cached_xla_device_compiler := Some {| client := local_client |};
     resolve_variable := fun t => OkValue (variable (length (contents t))) |}.

Definition cpu : Device :=
  {| device_type := DEVICE_CPU; device_name := "/device:CPU:0";
     tensorflow_accelerator_device_info := None;
     resource_manager := manager |}.

(** An accelerator whose runtime binds no stream. *)
Definition tpu_without_stream : Device :=
  {| device_type := DEVICE_TPU; device_name := "/device:TPU:0";
     tensorflow_accelerator_device_info := Some {| stream := None |};
     resource_manager := manager |}.

(** A device that is not a CPU and carries no accelerator device info. *)
Definition tpu_without_info : Device :=
  {| device_type := DEVICE_TPU; device_name := "/device:TPU:0";
     tensorflow_accelerator_device_info := None;
     resource_manager := manager |}.

Definition pflr : ProcessFunctionLibraryRuntime :=
  {| GetFLR := fun n => {| flr_device := n |} |}.

Definition context : EagerContext := {| context_id := 0 |}.

(** The function library: "f" is [two_floats] with no constant and no
    resource argument; "g" takes four inputs, of which 1 is constant-foldable
    and 0 and 3 are resource-backed. *)
Definition resolver (flr : FunctionLibraryRuntime) (function : string)
  : StatusOr (option FunctionBody * list Z * list Z) :=
  if String.eqb function "f" then OkValue (Some two_floats, [], [])
  else if String.eqb function "g" then
    OkValue (Some two_floats, [1%Z], [0%Z; 3%Z])
  else NotOk {| code := NOT_FOUND; error_message := function |}.

Definition collaborators : Collaborators :=
  {| BuildTensorShape := parse_shape;
     CreateFromProto := fun p _ =>
       OkValue (text_module (HloModuleProto_SerializeAsString p));
     RenderGraph := fun c label _ =>
       OkValue ("digraph " ++ computation_name c)%string;
     GetBodyAndConstantsAndResources := resolver;
     XlaPlatformInfoFromDevice := fun dev =>
       {| platform_device_type := device_type dev |};
     BuildXlaDeviceCompiler := fun _ _ _ =>
       OkValue {| client := local_client |};
     GenerateTfrtTpuCompilerOptions := fun _ _ => options;
     GenerateCompilerOptions := fun _ _ _ _ _ _ => options;
     CompileFunction := fun _ _ _ _ => OkValue compilation_result |}.

Definition device_tensor (d : DataType) (data : list Z) : Tensor :=
  {| dtype := d; tensor_shape := {| dim_sizes := [Z.of_nat (length data)] |};
     residency := DeviceMemory; contents := data |}.

(** A handle whose tensor lives on the device and copies to the host. *)
Definition handle (d : DataType) (data : list Z) : TensorHandle :=
  {| th_Tensor := OkValue (device_tensor d data);
     th_CopyToDevice := fun _ _ slot =>
       OkValue {| dtype := dtype slot; tensor_shape := tensor_shape slot;
                  residency := residency slot; contents := data |} |}.

Definition four_inputs : list TensorHandle :=
  [handle DT_RESOURCE [7]%Z; handle DT_INT32 [1; 2]%Z;
   handle DT_FLOAT [3]%Z; handle DT_RESOURCE [8; 9; 10]%Z].

(** The descriptors of [four_inputs] for the function "g". *)
Definition four_descriptors : list Argument :=
  [{| kind := kResource; type := DT_RESOURCE;
      shape := {| dim_sizes := [1]%Z |}; name := EmptyString |};
   {| kind := kConstant; type := DT_INT32;
      shape := {| dim_sizes := [2]%Z |}; name := EmptyString |};
   {| kind := kParameter; type := DT_FLOAT;
      shape := {| dim_sizes := [1]%Z |}; name := EmptyString |};
   {| kind := kResource; type := DT_RESOURCE;
      shape := {| dim_sizes := [3]%Z |}; name := EmptyString |}].

End Sample.

(** ** What the claims speak of *)

(** Argument [i] of [f] is annotated with the shape [p]: the entry of
    [arg_attr] under [i] has an "_output_shapes" attribute whose shape list
    starts with [p]. *)
Definition annotated_with (f : FunctionDef) (i : nat) (p : TensorShapeProto)
  : Prop :=
  exists a v, In (i, a) (arg_attr f) /\ In ("_output_shapes", v) (attr a) /\
              list_shape v !! 0 = Some p.

(** An entry of [arg_attr] carries no shape annotation. *)
Definition lacks_annotation (a : ArgAttrs) : Prop :=
  forall v, ~ In ("_output_shapes", v) (attr a).

(** The descriptor the spec-mode builder makes of a signature argument and a
    shape. *)
Definition parameter_of (input : ArgDef) (s : TensorShape) : Argument :=
  {| kind := kParameter; type := arg_type input; shape := s;
     name := arg_name input |}.

(** An entry of [arg_attr] that the loop of lines 152-163 gets past, for
    storage of [n] slots: its index is below [n] and it is annotated with a
    shape that converts. *)
Definition passes (parse : TensorShapeProto -> StatusOr TensorShape)
    (n : nat) (e : nat * ArgAttrs) : Prop :=
  fst e < n /\ unique_keys (attr (snd e)) /\
  exists v p s, In ("_output_shapes", v) (attr (snd e)) /\
                list_shape v !! 0 = Some p /\ parse p = OkValue s.

(** The two ways in which the shape metadata of [f] is found incomplete, and
    the error code the builder answers each with. *)
Inductive incomplete (parse : TensorShapeProto -> StatusOr TensorShape)
    (f : FunctionDef) : Code -> Prop :=
| count_differs :
    length (arg_attr f) <> length (input_arg f) ->
    incomplete parse f INVALID_ARGUMENT
| entry_unannotated before idx a after :
    length (arg_attr f) = length (input_arg f) ->
    arg_attr f = before ++ (idx, a) :: after ->
    Forall (passes parse (length (input_arg f))) before ->
    lacks_annotation a ->
    incomplete parse f INTERNAL.

(** An event that is not an access to [shapes] within its [size()]. *)
Definition beyond_size (e : Event) : Prop :=
  match e with
  | EvAccess a => container a = shapes_vector -> in_bounds a = false
  | _ => True
  end.

(** The stages whose output is taken from a built executable. *)
Definition from_executable (stage : IrExportStage) : bool :=
  match stage with
  | OPTIMIZED_HLO | OPTIMIZED_HLO_SERIALIZED
  | OPTIMIZED_HLO_PROTO_SERIALIZED | OPTIMIZED_HLO_DOT => true
  | HLO | HLO_NO_METADATA | HLO_SERIALIZED => false
  end.

(** The number of times the Executable Builder went to the compiler client
    in a run. *)
Definition is_build (e : Event) : bool :=
  match e with
  | EvCompile _ => true
  | _ => false
  end.

Definition executable_builds (t : Trace) : nat := length (filter is_build t).

(** The events of the from-program producer. *)
Definition is_from_program (e : Event) : bool :=
  match e with
  | EvGetProgramShape | EvCreateFromProto => true
  | _ => false
  end.

(** The part of a call an event belongs to. *)
Inductive Phase :=
| InBuilder | InResolver | InInputs | InVariables | InLocks | InCache
| InOptions | InArguments | InCompilation | InExport.

Definition phase (e : Event) : Phase :=
  match e with
  | EvAccess _ => InBuilder
  | EvGetBodyAndConstantsAndResources _ => InResolver
  | EvTensor _ | EvCopyToDevice _ => InInputs
  | EvGetVariableInfosFromInputs => InVariables
  | EvLock _ | EvUnlock _ => InLocks
  | EvLookupOrCreate | EvBuildXlaDeviceCompiler | EvUnref => InCache
  | EvGenerateTfrtTpuCompilerOptions | EvGenerateCompilerOptions _ _ =>
      InOptions
  | EvBuildXlaCompilerArguments => InArguments
  | EvCompileFunction _ => InCompilation
  | EvGetProgramShape | EvCreateFromProto | EvCompile _ | EvRenderGraph _ _ =>
      InExport
  end.

(** Compilation work: the Compilation Driver and the Executable Builder. *)
Definition is_compilation (e : Event) : bool :=
  match e with
  | EvCompileFunction _ | EvCompile _ => true
  | _ => false
  end.

(** The indices locked in a run, in the order of acquisition. *)
Fixpoint lock_indices (t : Trace) : list Z :=
  match t with
  | [] => []
  | EvLock idx :: later => idx :: lock_indices later
  | _ :: later => lock_indices later
  end.

(** The indices released in a run, in the order of release. *)
Fixpoint unlock_indices (t : Trace) : list Z :=
  match t with
  | [] => []
  | EvUnlock idx :: later => idx :: unlock_indices later
  | _ :: later => unlock_indices later
  end.

(** One occurrence of [idx] leaves the locks held. *)
Fixpoint release (idx : Z) (held : list Z) : list Z :=
  match held with
  | [] => []
  | k :: rest => if (k =? idx)%Z then rest else k :: release idx rest
  end.

(** The locks held once an event has happened. *)
Definition step_held (held : list Z) (e : Event) : list Z :=
  match e with
  | EvLock idx => held ++ [idx]
  | EvUnlock idx => release idx held
  | _ => held
  end.

(** The locks held when the run is over. *)
Definition held_at_return (t : Trace) : list Z := fold_left step_held t [].

(** The locks held at each piece of compilation work of a run that starts
    with the locks [held]. *)
Fixpoint held_at_compilations (held : list Z) (t : Trace) : list (list Z) :=
  match t with
  | [] => []
  | e :: later =>
      (if is_compilation e then [held] else []) ++
      held_at_compilations (step_held held e) later
  end.

(** The phases of a value-mode call that come before the locks are taken,
    and those that come after. *)
Definition before_locks (p : Phase) : bool :=
  match p with
  | InResolver | InInputs | InVariables => true
  | _ => false
  end.

Definition after_locks (p : Phase) : bool :=
  match p with
  | InCache | InOptions | InArguments | InCompilation | InExport => true
  | _ => false
  end.

(** What the destructors of the locals do. *)
Definition is_release (e : Event) : bool :=
  match e with
  | EvUnlock _ | EvUnref => true
  | _ => false
  end.

(** ** Function bodies at the edges of the spec-mode builder *)

Module Edge.

(** One float parameter whose one entry is keyed by 5, beyond the arity. *)
Definition key_beyond_arity : FunctionBody :=
  {| fdef := {| input_arg := [Sample.float_arg "x"];
                arg_attr := [(5, Sample.annotated Sample.shape_2x2)] |} |}.

(** One float parameter whose "_output_shapes" attribute lists no shape. *)
Definition no_shape_listed : FunctionBody :=
  {| fdef := {| input_arg := [Sample.float_arg "x"];
                arg_attr := [(0, {| attr := [("_output_shapes",
                                              AttrList [])] |})] |} |}.

(** One float parameter annotated with a shape of unknown rank. *)
Definition unknown_rank_shape : FunctionBody :=
  {| fdef := {| input_arg := [Sample.float_arg "x"];
                arg_attr :=
                  [(0, Sample.annotated
                         {| dim := []; unknown_rank := true |})] |} |}.

(** [Sample.two_floats] with its map visited in the order 0, 1. *)
Definition two_floats_reordered : FunctionBody :=
  {| fdef := {| input_arg := [Sample.float_arg "x"; Sample.float_arg "y"];
                arg_attr := [(0, Sample.annotated Sample.shape_2x2);
                             (1, Sample.annotated Sample.shape_2x2)] |} |}.

End Edge.

(** ** A library that resolves every name to one function body *)

Definition library_of (body : FunctionBody) : Collaborators :=
  {| BuildTensorShape := BuildTensorShape Sample.collaborators;
     CreateFromProto := CreateFromProto Sample.collaborators;
     RenderGraph := RenderGraph Sample.collaborators;
     GetBodyAndConstantsAndResources := fun _ _ => OkValue (Some body, [], []);
     XlaPlatformInfoFromDevice :=
       XlaPlatformInfoFromDevice Sample.collaborators;
     BuildXlaDeviceCompiler := BuildXlaDeviceCompiler Sample.collaborators;
     GenerateTfrtTpuCompilerOptions :=
       GenerateTfrtTpuCompilerOptions Sample.collaborators;
     GenerateCompilerOptions := GenerateCompilerOptions Sample.collaborators;
     CompileFunction := CompileFunction Sample.collaborators |}.


(** A compiler client that is not available. *)
Definition unavailable_client : LocalClient :=
  {| default_device_ordinal := 0;
     Compile := fun _ _ _ =>
       NotOk {| code := UNAVAILABLE; error_message := "no client" |} |}.

(** ** The two modes of a call *)

(** The parts of a call that belong to value mode alone: reading the input
    handles, resolving and locking the variables, classifying the inputs. *)
Definition reads_inputs (p : Phase) : bool :=
  match p with
  | InInputs | InVariables | InLocks | InArguments => true
  | _ => false
  end.

(** The part of a call that belongs to spec mode alone. *)
Definition in_builder (p : Phase) : bool :=
  match p with
  | InBuilder => true
  | _ => false
  end.

(** An event of the other mode than the one the call runs in. *)
Definition of_other_mode (using_tensor_spec : bool) (e : Event) : bool :=
  if using_tensor_spec then reads_inputs (phase e) else in_builder (phase e).

(** [inputs_handles.empty()]. *)
Definition handles_empty {A} (l : list A) : bool :=
  match l with
  | [] => true
  | _ => false
  end.

(** * Properties *)

(** ** The spec-mode builder *)

Section SpecModeFacts.

Variable parse : TensorShapeProto -> StatusOr TensorShape.

Lemma element_address_inside {A} c (v : vector A) idx :
  idx < capacity v ->
  element_address c v idx =
    ([EvAccess {| container := c; index := idx; size_then := v_size v |}],
     Ok tt).
Proof.
  intros H. unfold element_address, emit. simpl.
  apply Nat.ltb_lt in H. now rewrite H.
Qed.

Lemma scan_attr_values_skip idx attr_values shapes has :
  (forall v, ~ In ("_output_shapes", v) attr_values) ->
  scan_attr_values parse idx attr_values shapes has = ([], Ok (shapes, has)).
Proof.
  induction attr_values as [| [first second] rest IH]; intros Hno; simpl.
  - reflexivity.
  - destruct (String.eqb first "_output_shapes") eqn:Heq.
    + apply String.eqb_eq in Heq. subst first.
      exfalso. apply (Hno second). now left.
    + apply IH. intros v Hv. apply (Hno v). now right.
Qed.

Lemma unique_keys_tail {K V} (e : K * V) (m : list (K * V)) :
  unique_keys (e :: m) -> unique_keys m.
Proof. unfold unique_keys. simpl. intros H. now inversion H. Qed.

Lemma unique_keys_head {K V} (k : K) (v w : V) (m : list (K * V)) :
  unique_keys ((k, v) :: m) -> ~ In (k, w) m.
Proof.
  unfold unique_keys. simpl. intros H Hin. inversion H as [| ? ? Hk _]. subst.
  apply Hk. apply list_elem_of_In. change k with (fst (k, w)).
  now apply in_map.
Qed.

Lemma unique_keys_In {K V} (k : K) (v w : V) (m : list (K * V)) :
  unique_keys m -> In (k, v) m -> In (k, w) m -> v = w.
Proof.
  induction m as [| [k' v'] m IH]; simpl; intros Hu Hv Hw; [contradiction |].
  destruct Hv as [Hv | Hv], Hw as [Hw | Hw].
  - congruence.
  - inversion Hv; subst. now apply unique_keys_head with (w := w) in Hu.
  - inversion Hw; subst. now apply unique_keys_head with (w := v) in Hu.
  - apply IH; auto. eapply unique_keys_tail; eauto.
Qed.

Lemma scan_attr_values_hit idx attr_values shapes has v p s :
  unique_keys attr_values ->
  In ("_output_shapes", v) attr_values ->
  list_shape v !! 0 = Some p ->
  parse p = OkValue s ->
  idx < capacity shapes ->
  scan_attr_values parse idx attr_values shapes has =
    ([EvAccess {| container := shape_list; index := 0;
                  size_then := length (list_shape v) |};
      EvAccess {| container := shapes_vector; index := idx;
                  size_then := v_size shapes |}],
     Ok (store shapes idx s, true)).
Proof.
  intros Hu Hin Hp Hs Hidx.
  induction attr_values as [| [first second] rest IH]; simpl in *;
    [contradiction |].
  destruct (String.eqb first "_output_shapes") eqn:Heq.
  - apply String.eqb_eq in Heq. subst first.
    assert (second = v) as ->.
    { eapply unique_keys_In; eauto; simpl; auto. }
    unfold repeated_element. rewrite Hp.
    rewrite (element_address_inside _ _ _ Hidx). simpl.
    rewrite Hs. simpl.
    rewrite scan_attr_values_skip; [reflexivity |].
    intros w Hw. now apply unique_keys_head with (w := w) in Hu.
  - destruct Hin as [Hin | Hin].
    + inversion Hin; subst. now rewrite String.eqb_refl in Heq.
    + apply IH; auto. eapply unique_keys_tail; eauto.
Qed.

Lemma store_capacity {A} (v : vector A) idx x :
  capacity (store v idx x) = capacity v.
Proof. unfold capacity, store. simpl. apply length_insert. Qed.

Lemma scan_arg_attrs_passes entries : forall shapes,
  Forall (passes parse (capacity shapes)) entries ->
  exists t shapes',
    scan_arg_attrs parse entries shapes = (t, Ok shapes') /\
    v_size shapes' = v_size shapes /\
    capacity shapes' = capacity shapes /\
    (forall j, ~ In j (map fst entries) ->
               v_slots shapes' !! j = v_slots shapes !! j) /\
    (unique_keys entries ->
     forall idx a v p s,
       In (idx, a) entries -> In ("_output_shapes", v) (attr a) ->
       list_shape v !! 0 = Some p -> parse p = OkValue s ->
       v_slots shapes' !! idx = Some (Some s)).
Proof.
  induction entries as [| [idx0 a0] rest IH]; intros shapes Hall; simpl.
  - exists [], shapes. repeat split; auto. intros _ ? ? ? ? ? [].
  - inversion Hall as [| ? ? [Hlt [Hu (v0 & p0 & s0 & Hin0 & Hp0 & Hs0)]] Hrest];
      subst. simpl in *.
    rewrite (scan_attr_values_hit idx0 (attr a0) shapes false v0 p0 s0);
      auto.
    simpl.
    destruct (IH (store shapes idx0 s0)) as (t & shapes' & Hrun & Hsz & Hcap & Hkeep & Hget).
    { now rewrite store_capacity. }
    rewrite Hrun. eexists _, shapes'. split; [reflexivity |].
    rewrite store_capacity in Hcap. simpl in Hsz.
    repeat split; auto.
    + intros j Hj. rewrite Hkeep by tauto. simpl.
      apply list_lookup_insert_ne. tauto.
    + intros Huk idx a v p s [Hhead | Htail] Hv Hp Hs.
      * inversion Hhead; subst idx0 a0.
        assert (v = v0) as -> by (eapply unique_keys_In; eauto).
        assert (p = p0) as -> by congruence.
        assert (s = s0) as -> by congruence.
        rewrite Hkeep.
        -- simpl. apply list_lookup_insert_eq. exact Hlt.
        -- intros Hin. apply in_map_iff in Hin as [[k w] [Hk Hw]].
           simpl in Hk. subst k.
           now apply unique_keys_head with (w := w) in Huk.
      * eapply Hget; eauto. eapply unique_keys_tail; eauto.
Qed.

Lemma element_stored c (v : vector TensorShape) idx s :
  v_slots v !! idx = Some (Some s) ->
  element c v idx =
    ([EvAccess {| container := c; index := idx; size_then := v_size v |}],
     Ok s).
Proof.
  intros H. unfold element.
  rewrite element_address_inside.
  - simpl. now rewrite H.
  - unfold capacity. apply lookup_lt_Some in H. exact H.
Qed.

Lemma fill_args_stored input_args shapes rounds : forall args,
  (forall r, In r rounds ->
     r < length args /\
     exists input s, input_args !! r = Some input /\
                     v_slots shapes !! r = Some (Some s)) ->
  exists t args',
    fill_args input_args shapes rounds args = (t, Ok args') /\
    length args' = length args /\
    (forall j, ~ In j rounds -> args' !! j = args !! j) /\
    (forall r input s, In r rounds -> input_args !! r = Some input ->
       v_slots shapes !! r = Some (Some s) ->
       args' !! r = Some (parameter_of input s)).
Proof.
  induction rounds as [| r0 later IH]; intros args Hall; simpl.
  - exists [], args. repeat split; auto. intros ? ? ? [].
  - destruct (Hall r0 (or_introl eq_refl)) as [Hlt (input0 & s0 & Hi0 & Hs0)].
    unfold fill_arg. rewrite Hi0. rewrite (element_stored _ _ _ _ Hs0).
    simpl.
    destruct (IH (<[r0 := parameter_of input0 s0]> args))
      as (t & args' & Hrun & Hlen & Hkeep & Hget).
    { intros r Hr. rewrite length_insert. apply Hall. now right. }
    unfold parameter_of in Hrun at 1. rewrite Hrun.
    eexists _, args'. split; [reflexivity |].
    rewrite length_insert in Hlen.
    repeat split; auto.
    + intros j Hj. rewrite Hkeep by tauto.
      apply list_lookup_insert_ne. tauto.
    + intros r input s [Hr | Hr] Hi Hs.
      * subst r0.
        assert (input = input0) as -> by congruence.
        assert (s = s0) as -> by congruence.
        destruct (in_dec Nat.eq_dec r later) as [Hin | Hnin].
        -- eapply Hget; eauto.
        -- rewrite Hkeep by exact Hnin.
           now apply list_lookup_insert_eq.
      * eapply Hget; eauto.
Qed.

End SpecModeFacts.

Lemma keys_below_arity (entries : list (nat * ArgAttrs)) n :
  unique_keys entries ->
  length entries = n ->
  (forall i, i < n -> exists a, In (i, a) entries) ->
  forall idx a, In (idx, a) entries -> idx < n.
Proof.
  intros Hu Hlen Hall idx a Hin.
  assert (seq 0 n ≡ₚ map fst entries) as Hperm.
  { apply submseteq_length_Permutation.
    - apply NoDup_submseteq; [apply NoDup_seq |].
      intros i Hi. apply elem_of_seq in Hi.
      destruct (Hall i) as [b Hb]; [lia |].
      apply list_elem_of_In. change i with (fst (i, b)). now apply in_map.
    - rewrite length_map, length_seq. lia. }
  assert (idx ∈ seq 0 n) as Hidx.
  { rewrite Hperm. apply list_elem_of_In.
    change idx with (fst (idx, a)). now apply in_map. }
  apply elem_of_seq in Hidx. lia.
Qed.


(** Uniqueness of the keys of a map written out in full. *)
Ltac solve_unique_keys :=
  unfold unique_keys; simpl; apply NoDup_ListNoDup;
  repeat (constructor; [simpl; intuition (discriminate || lia) |]);
  constructor.

Ltac solve_well_formed :=
  split; [solve_unique_keys |];
  let idx := fresh "idx" in
  let a := fresh "a" in
  let H := fresh "H" in
  intros idx a H; simpl in H;
  repeat (destruct H as [H | H]; [inversion H; subst; solve_unique_keys |]);
  contradiction.



Lemma scan_arg_attrs_stops parse idx a after before : forall shapes,
  Forall (passes parse (capacity shapes)) before ->
  lacks_annotation a ->
  exists t,
    scan_arg_attrs parse (before ++ (idx, a) :: after) shapes =
      (t, Err (errors_Internal "has_function_input_shape")).
Proof.
  induction before as [| [idx0 a0] rest IH]; intros shapes Hall Hlack; simpl.
  - rewrite scan_attr_values_skip by exact Hlack. simpl. now exists [].
  - inversion Hall as [| ? ? [Hlt [Hu (v0 & p0 & s0 & Hin0 & Hp0 & Hs0)]] Hrest];
      subst. simpl in *.
    rewrite (scan_attr_values_hit parse idx0 (attr a0) shapes false v0 p0 s0);
      auto.
    simpl.
    destruct (IH (store shapes idx0 s0)) as [t Ht]; auto.
    { now rewrite store_capacity. }
    rewrite Ht. now eexists.
Qed.

(** C2, as the code has it: when the number of annotation entries differs
    from the arity the builder fails with InvalidArgument; when the numbers
    agree and the loop comes to an entry without a shape annotation, the
    builder fails with Internal. *)
Theorem spec_mode_incomplete_metadata
    (parse : TensorShapeProto -> StatusOr TensorShape) (body : FunctionBody)
    (c : Code) :
  incomplete parse (fdef body) c ->
  exists s,
    outcome (BuildXlaCompilerArgumentFromFuncBody parse (Some body)) = Err s /\
    code s = c.
Proof.
  destruct body as [f]. simpl.
  intros [Hne | before idx a after Hlen Hsplit Hpass Hlack];
    unfold BuildXlaCompilerArgumentFromFuncBody; simpl.
  - apply Nat.eqb_neq in Hne. rewrite Hne. simpl. eexists. split; reflexivity.
  - rewrite Hlen, Nat.eqb_refl. simpl.
    destruct (scan_arg_attrs_stops parse idx a after before
                (reserve (length (input_arg f)) empty_vector)) as [t Ht]; auto.
    { unfold reserve, capacity. simpl. rewrite length_replicate.
      now rewrite Nat.sub_0_r. }
    rewrite Hsplit, Ht. simpl. eexists. split; reflexivity.
Qed.

(** [Sample.unannotated]: one argument, one entry, no shape annotation. *)
Lemma spec_mode_incomplete_metadata_witness :
  exists s,
    outcome (BuildXlaCompilerArgumentFromFuncBody
               Sample.parse_shape (Some Sample.unannotated)) = Err s /\
    code s = INTERNAL.
Proof.
  apply (spec_mode_incomplete_metadata Sample.parse_shape Sample.unannotated).
  apply (entry_unannotated _ _ [] 0
           {| attr := [("_user_specified_name", AttrOther)] |} []).
  - reflexivity.
  - reflexivity.
  - constructor.
  - intros v [H | []]. discriminate H.
Defined.

(** C2 does not hold as stated: the one argument of [Sample.unannotated] has
    no shape annotation, the entry count equals the arity, and the builder
    fails with Internal, not with InvalidArgument. *)
Lemma missing_annotation_not_invalid_argument :
  length (arg_attr (fdef Sample.unannotated)) =
    length (input_arg (fdef Sample.unannotated)) /\
  (forall p, ~ annotated_with (fdef Sample.unannotated) 0 p) /\
  BuildXlaCompilerArgumentFromFuncBody
    Sample.parse_shape (Some Sample.unannotated) =
    ([], Err (errors_Internal "has_function_input_shape")) /\
  ~ (exists s,
       outcome (BuildXlaCompilerArgumentFromFuncBody
                  Sample.parse_shape (Some Sample.unannotated)) = Err s /\
       code s = INVALID_ARGUMENT).
Proof.
  split; [reflexivity |]. split; [| split; [reflexivity |]].
  - intros p (a & v & Ha & Hv & _). simpl in Ha.
    destruct Ha as [Ha | []]. inversion Ha; subst. simpl in Hv.
    destruct Hv as [Hv | []]. discriminate Hv.
  - intros (s & Hs & Hc). vm_compute in Hs. inversion Hs; subst.
    discriminate Hc.
Qed.

(** An annotated shape that does not convert stops the builder with the
    error of the conversion. *)
Lemma spec_mode_conversion_error
    (parse : TensorShapeProto -> StatusOr TensorShape) (body : FunctionBody)
    before idx a after v p s :
  length (arg_attr (fdef body)) = length (input_arg (fdef body)) ->
  arg_attr (fdef body) = before ++ (idx, a) :: after ->
  Forall (passes parse (length (input_arg (fdef body)))) before ->
  unique_keys (attr a) ->
  In ("_output_shapes", v) (attr a) ->
  list_shape v !! 0 = Some p ->
  idx < length (input_arg (fdef body)) ->
  parse p = NotOk s ->
  outcome (BuildXlaCompilerArgumentFromFuncBody parse (Some body)) = Err s.
Proof.
  destruct body as [f]. simpl. intros Hlen Hsplit Hpass Hu Hv Hp Hidx Hs.
  unfold BuildXlaCompilerArgumentFromFuncBody. simpl.
  rewrite Hlen, Nat.eqb_refl, Hsplit. simpl.
  set (shapes0 := reserve (length (input_arg f)) empty_vector).
  assert (Hcap : capacity shapes0 = length (input_arg f)).
  { unfold shapes0, reserve, capacity. simpl. rewrite length_replicate. lia. }
  rewrite <- Hcap in Hpass, Hidx. clearbody shapes0. clear Hcap Hsplit Hlen.
  assert (Hstop : exists t,
            scan_arg_attrs parse (before ++ (idx, a) :: after) shapes0 =
              (t, Err s)).
  { revert shapes0 Hpass Hidx.
    induction before as [| [idx0 a0] rest IH]; intros shapes Hpass Hidx; simpl.
    - assert (Hscan : exists t,
                scan_attr_values parse idx (attr a) shapes false =
                  (t, Err s)).
      { generalize false. revert Hu Hv.
        induction (attr a) as [| [first second] more IHa]; intros Hu Hv has;
          simpl in *; [contradiction |].
        destruct (String.eqb first "_output_shapes") eqn:Heq.
        - apply String.eqb_eq in Heq. subst first.
          assert (second = v) as ->
            by (eapply unique_keys_In; eauto; simpl; auto).
          unfold repeated_element. rewrite Hp.
          rewrite (element_address_inside _ _ _ Hidx). simpl.
          rewrite Hs. simpl. now eexists.
        - destruct Hv as [Hv | Hv].
          + inversion Hv; subst. now rewrite String.eqb_refl in Heq.
          + apply IHa; auto. eapply unique_keys_tail; eauto. }
      destruct Hscan as [t ->]. simpl. now eexists.
    - inversion Hpass as [| ? ? [Hlt [Hu0 (v0 & p0 & s0 & Hin0 & Hp0 & Hs0)]] Hrest];
        subst. simpl in *.
      rewrite (scan_attr_values_hit parse idx0 (attr a0) shapes false v0 p0 s0);
        auto.
      simpl.
      destruct (IH (store shapes idx0 s0)) as [t Ht].
      + now rewrite store_capacity.
      + now rewrite store_capacity.
      + rewrite Ht. now eexists. }
  destruct Hstop as [t ->]. reflexivity.
Qed.

(** ** Accesses to [shapes] *)

Section Accesses.

Variable parse : TensorShapeProto -> StatusOr TensorShape.

Lemma element_address_beyond c (v : vector TensorShape) idx :
  v_size v = 0 -> Forall beyond_size (events (element_address c v idx)).
Proof.
  intros Hz. unfold element_address, emit. simpl.
  destruct (idx <? capacity v); simpl; constructor; try constructor;
    simpl; intros _; unfold in_bounds; simpl; rewrite Hz;
    apply Nat.ltb_ge; lia.
Qed.

Lemma scan_attr_values_beyond idx attr_values : forall shapes has,
  v_size shapes = 0 ->
  Forall beyond_size
         (events (scan_attr_values parse idx attr_values shapes has)) /\
  forall shapes' has',
    outcome (scan_attr_values parse idx attr_values shapes has) =
      Ok (shapes', has') ->
    v_size shapes' = 0.
Proof.
  induction attr_values as [| [first second] rest IH]; intros shapes has Hz;
    simpl.
  - split; [constructor |]. intros ? ? H. now inversion H; subst.
  - destruct (String.eqb first "_output_shapes"); [| now apply IH].
    unfold repeated_element. simpl.
    destruct (list_shape second !! 0) as [p |]; simpl.
    2: { split; [| discriminate]. repeat constructor. simpl. discriminate. }
    pose proof (element_address_beyond shapes_vector shapes idx Hz) as Hacc.
    unfold element_address, emit in *. simpl in *.
    destruct (idx <? capacity shapes); simpl in *.
    2: { split; [| discriminate]. constructor; [simpl; discriminate |].
         exact Hacc. }
    destruct (parse p) as [s | err]; simpl.
    2: { split; [| discriminate]. constructor; [simpl; discriminate |].
         exact Hacc. }
    destruct (IH (store shapes idx s) true Hz) as [Hev Hout].
    destruct (scan_attr_values parse idx rest (store shapes idx s) true)
      as [t r]. simpl in *.
    split.
    + constructor; [simpl; discriminate |].
      inversion Hacc; subst. constructor; auto.
    + exact Hout.
Qed.

Lemma scan_arg_attrs_beyond entries : forall shapes,
  v_size shapes = 0 ->
  Forall beyond_size (events (scan_arg_attrs parse entries shapes)) /\
  forall shapes',
    outcome (scan_arg_attrs parse entries shapes) = Ok shapes' ->
    v_size shapes' = 0.
Proof.
  induction entries as [| [idx a] rest IH]; intros shapes Hz; simpl.
  - split; [constructor |]. intros ? H. now inversion H; subst.
  - destruct (scan_attr_values_beyond idx (attr a) shapes false Hz)
      as [Hev Hout].
    destruct (scan_attr_values parse idx (attr a) shapes false)
      as [t [[shapes1 has] | err | f]]; simpl in *;
      try (split; [exact Hev | discriminate]).
    destruct has; simpl.
    2: { split; [| discriminate]. now rewrite app_nil_r. }
    destruct (IH shapes1 (Hout _ _ eq_refl)) as [Hev' Hout'].
    destruct (scan_arg_attrs parse rest shapes1) as [t' r]. simpl in *.
    split; [| exact Hout']. apply Forall_app. auto.
Qed.

Lemma fill_args_beyond input_args shapes rounds : forall args,
  v_size shapes = 0 ->
  Forall beyond_size (events (fill_args input_args shapes rounds args)).
Proof.
  induction rounds as [| r later IH]; intros args Hz; simpl.
  - constructor.
  - unfold fill_arg. destruct (input_args !! r) as [input |]; simpl;
      [| constructor].
    pose proof (element_address_beyond shapes_vector shapes r Hz) as Hacc.
    unfold element, element_address, emit in *. simpl in *.
    destruct (r <? capacity shapes); simpl in *; [| exact Hacc].
    destruct (v_slots shapes !! r) as [[s |] |]; simpl; try exact Hacc.
    specialize (IH (<[r := {| kind := kParameter; type := arg_type input;
                              shape := s; name := arg_name input |}]> args) Hz).
    destruct (fill_args input_args shapes later _) as [t' r']. simpl in *.
    inversion Hacc; subst. constructor; auto.
Qed.

(** Whatever the function, every evaluation of [shapes[...]] in the builder
    finds [shapes.size()] at 0. *)
Lemma builder_accesses_beyond_size fbody :
  Forall beyond_size
         (events (BuildXlaCompilerArgumentFromFuncBody parse fbody)).
Proof.
  destruct fbody as [[f] |]; simpl; [| constructor].
  destruct (length (arg_attr f) =? length (input_arg f)); simpl;
    [| constructor].
  set (shapes0 := reserve (length (input_arg f)) empty_vector).
  assert (Hz : v_size shapes0 = 0) by reflexivity.
  destruct (scan_arg_attrs_beyond (arg_attr f) shapes0 Hz) as [Hev Hout].
  destruct (scan_arg_attrs parse (arg_attr f) shapes0)
    as [t [shapes | err | flt]]; simpl in *; auto.
  pose proof (fill_args_beyond (input_arg f) shapes
                (seq 0 (length (input_arg f)))
                (replicate (length (input_arg f)) default_Argument)
                (Hout _ eq_refl)) as Hfill.
  destruct (fill_args (input_arg f) shapes _ _) as [t' r]. simpl in *.
  apply Forall_app. auto.
Qed.

End Accesses.

(** C3 does not hold of the code. For the one-argument function
    [Sample.one_float], which passes the arity check, the builder returns its
    descriptor, and both the store through [shapes[0]] and the later read of
    [shapes[0]] happen while [shapes.size()] is 0: [shapes] was reserved, not
    resized. *)
Theorem shapes_indexed_beyond_size :
  BuildXlaCompilerArgumentFromFuncBody
    Sample.parse_shape (Some Sample.one_float) =
    ([EvAccess {| container := shape_list; index := 0; size_then := 1 |};
      EvAccess {| container := shapes_vector; index := 0; size_then := 0 |};
      EvAccess {| container := shapes_vector; index := 0; size_then := 0 |}],
     Ok [parameter_of (Sample.float_arg "x") {| dim_sizes := [2; 2]%Z |}]) /\
  in_bounds {| container := shapes_vector; index := 0; size_then := 0 |} = false.
Proof. split; reflexivity. Qed.

(** ** The stage-support check *)

(** C4: a from-executable stage requested on a device that is not a CPU and
    whose accelerator info binds no stream is answered with Internal, and
    nothing at all was invoked before: no resolver, no Compilation Driver, no
    Executable Builder. *)
Theorem unsupported_stage_fails_fast (E : Collaborators)
    (stage : IrExportStage) (pflr : ProcessFunctionLibraryRuntime)
    (func_name : string) (dev : Device) (context : EagerContext)
    (inputs_handles : list TensorHandle) (info : AcceleratorDeviceInfo) :
  from_executable stage = true ->
  device_type dev <> DEVICE_CPU ->
  tensorflow_accelerator_device_info dev = Some info ->
  stream info = None ->
  GetCompilerIr E stage pflr func_name dev context inputs_handles =
    ([], Err (errors_Internal unsupported_stage_message)).
Proof.
  intros Hstage Hcpu Hinfo Hstream.
  unfold GetCompilerIr, GetCompilerIr_body, bindM, lift, stage_unsupported.
  rewrite Hinfo.
  destruct (device_type dev); [contradiction | |];
    simpl; rewrite Hstream; destruct stage; try discriminate Hstage;
    reflexivity.
Qed.

(** The graph stage on an accelerator without a stream. *)
Lemma unsupported_stage_fails_fast_witness :
  GetCompilerIr Sample.collaborators OPTIMIZED_HLO_DOT Sample.pflr "f"
                Sample.tpu_without_stream Sample.context [] =
    ([], Err (errors_Internal unsupported_stage_message)).
Proof.
  apply (unsupported_stage_fails_fast Sample.collaborators OPTIMIZED_HLO_DOT
           Sample.pflr "f" Sample.tpu_without_stream Sample.context []
           {| stream := None |}).
  - reflexivity.
  - discriminate.
  - reflexivity.
  - reflexivity.
Defined.

(** ** The IR exporter *)

Section ExporterFacts.

Variable create : HloModuleProto -> HloModuleConfig -> StatusOr HloModule.
Variable render :
  HloComputation -> string -> RenderedGraphFormat -> StatusOr string.

(** The options [BuildExecutable] hands to the compiler client. *)
Lemma BuildExecutable_events local_client result options embed :
  exists build_options,
    events (BuildExecutable local_client result options embed) =
      [EvCompile build_options] /\
    xla_embed_ir_in_executable build_options = Some embed /\
    forall built,
      Compile local_client (computation result) (argument_layouts_of result)
              build_options = OkValue [built] ->
      outcome (BuildExecutable local_client result options embed) = Ok built.
Proof.
  unfold BuildExecutable.
  set (build_options := set_xla_embed_ir_in_executable embed _).
  exists build_options. split; [| split].
  - simpl.
    destruct (Compile local_client _ _ build_options) as [[| e [| e' l]] | err];
      reflexivity.
  - reflexivity.
  - intros built Hc. rewrite Hc. reflexivity.
Qed.

Ltac exporter_cases local_client result options embed :=
  destruct (BuildExecutable_events local_client result options embed)
    as (sent & Hev & Hflag & Hbuilt);
  destruct (BuildExecutable local_client result options embed)
    as [t [built | err | flt]]; simpl in Hev; subst t; simpl.

(** C5: which producer runs is decided by the stage alone, and one producer
    runs. For HLO, HLO_NO_METADATA and HLO_SERIALIZED the from-program
    producer runs and nothing else: the run is the query for the program
    shape, followed by the construction of the module when the query
    answered, and the Executable Builder is not invoked. For each of the four
    OPTIMIZED stages the run starts with the one invocation of the
    Executable Builder of this call and has no event of the from-program
    producer. The exporter has no state in which an executable could outlive
    a call. *)
Theorem one_producer_per_stage (stage : IrExportStage)
    (result : CompilationResult) (local_client : LocalClient)
    (options : Options) :
  let run := BuildHLOString create render stage result local_client options in
  executable_builds (events run) = (if from_executable stage then 1 else 0) /\
  if from_executable stage
  then exists build_options later,
         events run = EvCompile build_options :: later /\
         forallb (fun e => negb (is_from_program e)) (events run) = true
  else (events run =
          EvGetProgramShape ::
          match GetProgramShape (computation result) with
          | OkValue _ => [EvCreateFromProto]
          | NotOk _ => []
          end /\
        forallb is_from_program (events run) = true).
Proof.
  destruct stage; simpl.
  1-3: destruct (GetProgramShape (computation result)) as [shape_ | err];
       simpl; [| repeat split; reflexivity];
       destruct (create _ _) as [m | err]; simpl; repeat split; reflexivity.
  - exporter_cases local_client result options
                   default_xla_embed_ir_in_executable;
      (split; [reflexivity | exists sent; eexists; split; reflexivity]).
  - exporter_cases local_client result options
                   default_xla_embed_ir_in_executable;
      (split; [reflexivity | exists sent; eexists; split; reflexivity]).
  - exporter_cases local_client result options true;
      (split; [reflexivity | exists sent; eexists; split; reflexivity]).
  - exporter_cases local_client result options
                   default_xla_embed_ir_in_executable;
      try (split; [reflexivity | exists sent; eexists; split; reflexivity]).
    destruct (render _ _ _) as [graph | err]; simpl;
      (split; [reflexivity | exists sent; eexists; split; reflexivity]).
Qed.

(** C6: the embed-IR flag of the Executable Builder is false by default, and
    an invocation of the builder by the exporter has it set exactly for the
    stage OPTIMIZED_HLO_PROTO_SERIALIZED; for that stage, once the client
    has built the one executable, the exporter returns the serialized HLO
    proto (modules and buffer assignment) held in it. *)
Theorem embed_ir_only_for_proto_stage (stage : IrExportStage)
    (result : CompilationResult) (local_client : LocalClient)
    (options : Options) (build_options : ExecutableBuildOptions) :
  In (EvCompile build_options)
     (events (BuildHLOString create render stage result local_client options)) ->
  default_xla_embed_ir_in_executable = false /\
  xla_embed_ir_in_executable build_options =
    Some (stage_eqb stage OPTIMIZED_HLO_PROTO_SERIALIZED) /\
  (stage = OPTIMIZED_HLO_PROTO_SERIALIZED ->
   forall built,
     Compile local_client (computation result) (argument_layouts_of result)
             build_options = OkValue [built] ->
     outcome (BuildHLOString create render stage result local_client options) =
       Ok (HloProto_SerializeAsString (hlo_proto (executable built)))).
Proof.
  intros Hin. split; [reflexivity |].
  destruct stage; simpl in Hin |- *.
  1-3: exfalso;
       destruct (GetProgramShape (computation result)) as [shape_ | err];
       simpl in Hin; [| intuition discriminate];
       destruct (create _ _) as [m | err]; simpl in Hin;
       intuition discriminate.
  - exporter_cases local_client result options
                   default_xla_embed_ir_in_executable;
      simpl in Hin; destruct Hin as [Hin | []]; inversion Hin; subst;
      (split; [exact Hflag | discriminate]).
  - exporter_cases local_client result options
                   default_xla_embed_ir_in_executable;
      simpl in Hin; destruct Hin as [Hin | []]; inversion Hin; subst;
      (split; [exact Hflag | discriminate]).
  - exporter_cases local_client result options true;
      simpl in Hin; destruct Hin as [Hin | []]; inversion Hin; subst;
      (split; [exact Hflag |]); intros _ b Hb;
      specialize (Hbuilt b Hb); simpl in Hbuilt; try discriminate Hbuilt.
    inversion Hbuilt; subst. reflexivity.
  - exporter_cases local_client result options
                   default_xla_embed_ir_in_executable;
      simpl in Hin.
    + destruct (render _ _ _) as [graph | err]; simpl in Hin;
        destruct Hin as [Hin | [Hin | []]]; try discriminate Hin;
        inversion Hin; subst; (split; [exact Hflag | discriminate]).
    + destruct Hin as [Hin | []]; inversion Hin; subst;
        (split; [exact Hflag | discriminate]).
    + destruct Hin as [Hin | []]; inversion Hin; subst;
        (split; [exact Hflag | discriminate]).
Qed.

End ExporterFacts.

(** The build options the exporter sends for the sample result at the stage
    OPTIMIZED_HLO_PROTO_SERIALIZED. *)
Lemma embed_ir_only_for_proto_stage_witness :
  let sent :=
    {| num_replicas := None; build_device_ordinal := Some 0%Z;
       result_layout := Some {| xla_dimensions := [2; 2]%Z |};
       build_device_allocator := Some None;
       build_alias_passthrough_params := Some false;
       xla_detailed_logging_and_dumping := Some false;
       xla_embed_ir_in_executable := Some true |} in
  default_xla_embed_ir_in_executable = false /\
  xla_embed_ir_in_executable sent = Some true /\
  (OPTIMIZED_HLO_PROTO_SERIALIZED = OPTIMIZED_HLO_PROTO_SERIALIZED ->
   forall built,
     Compile Sample.local_client (computation Sample.compilation_result)
             (argument_layouts_of Sample.compilation_result) sent =
       OkValue [built] ->
     outcome (BuildHLOString (CreateFromProto Sample.collaborators)
                (RenderGraph Sample.collaborators)
                OPTIMIZED_HLO_PROTO_SERIALIZED Sample.compilation_result
                Sample.local_client Sample.options) =
       Ok (HloProto_SerializeAsString (hlo_proto (executable built)))).
Proof.
  intros sent.
  apply (embed_ir_only_for_proto_stage
           (CreateFromProto Sample.collaborators)
           (RenderGraph Sample.collaborators)
           OPTIMIZED_HLO_PROTO_SERIALIZED Sample.compilation_result
           Sample.local_client Sample.options sent).
  left. reflexivity.
Defined.

(** ** The Compiler Options Generator *)

(** C7, as the code has it: the generator for the TFRT TPU runtime is chosen
    exactly when the platform's device type is TPU and no stream is bound to
    the device; in every other case the standard generator is chosen, with
    the stream as read and without reference variables. The choice is a
    function of the platform info and the stream and always yields
    options. *)
Theorem options_path_choice (E : Collaborators) (dev : Device)
    (xla_device_compiler : XlaDeviceCompiler) (flr : FunctionLibraryRuntime) :
  let platform_info := XlaPlatformInfoFromDevice E dev in
  let run := generate_options E platform_info (stream_of dev)
                              xla_device_compiler flr dev in
  (In EvGenerateTfrtTpuCompilerOptions (events run) <->
   platform_device_type platform_info = DEVICE_TPU /\ stream_of dev = None) /\
  (In (EvGenerateCompilerOptions (stream_of dev) false) (events run) <->
   ~ (platform_device_type platform_info = DEVICE_TPU /\
      stream_of dev = None)) /\
  (forall s has_ref_vars,
     In (EvGenerateCompilerOptions s has_ref_vars) (events run) ->
     s = stream_of dev /\ has_ref_vars = false) /\
  exists options, outcome run = Ok options.
Proof.
  simpl. unfold generate_options.
  destruct (platform_device_type (XlaPlatformInfoFromDevice E dev));
    destruct (stream_of dev) as [s0 |]; simpl;
    (split; [| split; [| split]]);
    try (eexists; reflexivity);
    try (intros s b [H | []]; inversion H; auto);
    try (intros s b [H | []]; discriminate H);
    split; intros H;
    try (destruct H as [H | []]; discriminate H);
    try (destruct H as [H1 H2]; discriminate);
    try (intros [H1 H2]; discriminate);
    try (left; reflexivity);
    try (split; reflexivity);
    try (exfalso; apply H; split; reflexivity).
Qed.

(** C7 does not hold as stated: no stream is bound to the host CPU device,
    and the options of a call on it come from the standard generator. *)
Lemma host_device_takes_standard_path :
  let run := GetCompilerIr Sample.collaborators HLO Sample.pflr "f"
                           Sample.cpu Sample.context [] in
  stream_of Sample.cpu = None /\
  In (EvGenerateCompilerOptions None false) (events run) /\
  ~ In EvGenerateTfrtTpuCompilerOptions (events run).
Proof.
  vm_compute. split; [reflexivity |]. split.
  - tauto.
  - intros H. repeat (destruct H as [H | H]; [discriminate H |]). exact H.
Qed.

(** ** The unguarded read of the accelerator device info *)

(** C10: on a device that is not a CPU the stage-support check dereferences
    the accelerator device info as it is: when the info is null the call ends
    there, in a null dereference, whatever the stage and before anything was
    invoked. The later read of the stream is guarded: on the same device it
    yields the null stream. *)
Theorem stage_check_dereferences_device_info (E : Collaborators)
    (stage : IrExportStage) (pflr : ProcessFunctionLibraryRuntime)
    (func_name : string) (dev : Device) (context : EagerContext)
    (inputs_handles : list TensorHandle) :
  device_type dev <> DEVICE_CPU ->
  tensorflow_accelerator_device_info dev = None ->
  GetCompilerIr E stage pflr func_name dev context inputs_handles =
    ([], Undefined NullDereference) /\
  stream_of dev = None.
Proof.
  intros Hcpu Hinfo. split.
  - unfold GetCompilerIr, GetCompilerIr_body, bindM, lift, stage_unsupported.
    rewrite Hinfo. destruct (device_type dev); [contradiction | |];
      reflexivity.
  - unfold stream_of. now rewrite Hinfo.
Qed.

(** A TPU device without accelerator device info. *)
Lemma stage_check_dereferences_device_info_witness :
  GetCompilerIr Sample.collaborators HLO Sample.pflr "f"
                Sample.tpu_without_info Sample.context [] =
    ([], Undefined NullDereference) /\
  stream_of Sample.tpu_without_info = None.
Proof.
  apply (stage_check_dereferences_device_info Sample.collaborators HLO
           Sample.pflr "f" Sample.tpu_without_info Sample.context []).
  - discriminate.
  - reflexivity.
Defined.

(** The check is defined on every CPU device and on every device that
    carries accelerator device info. *)
Lemma stage_check_defined (stage : IrExportStage) (dev : Device) :
  device_type dev = DEVICE_CPU \/
  tensorflow_accelerator_device_info dev <> None ->
  exists unsupported, stage_unsupported stage dev = ([], Ok unsupported).
Proof.
  unfold stage_unsupported. intros [Hcpu | Hinfo].
  - rewrite Hcpu. simpl. now eexists.
  - destruct (tensorflow_accelerator_device_info dev); [| contradiction].
    destruct (device_type dev); simpl; now eexists.
Qed.

(** ** Binary search *)

Lemma StronglySorted_lookup_le (l : list Z) : forall i j a b,
  StronglySorted Z.le l -> i <= j ->
  l !! i = Some a -> l !! j = Some b -> (a <= b)%Z.
Proof.
  induction l as [| x l IH]; intros i j a b Hs Hij Ha Hb; [discriminate |].
  apply StronglySorted_inv in Hs as [Hs Hall].
  destruct i as [| i], j as [| j]; simpl in *.
  - assert (a = b) by congruence. subst b. apply Z.le_refl.
  - injection Ha as <-. rewrite List.Forall_forall in Hall. apply Hall.
    apply list_elem_of_In. eapply list_elem_of_lookup_2; eauto.
  - lia.
  - apply (IH i j a b Hs); [lia | exact Ha | exact Hb].
Qed.

(** On a sorted vector [lower_bound] returns the first position of the range
    whose element is not below [val]. *)
Lemma lower_bound_partition (l : list Z) (val : Z) (first len : nat) :
  StronglySorted Z.le l ->
  first + len <= length l ->
  first <= lower_bound l val first len <= first + len /\
  (forall j x, first <= j < lower_bound l val first len ->
               l !! j = Some x -> (x < val)%Z) /\
  (forall j x, lower_bound l val first len <= j < first + len ->
               l !! j = Some x -> (val <= x)%Z).
Proof.
  intros Hs. revert first.
  induction len as [len IH] using lt_wf_ind. intros first Hlen.
  destruct len as [| n].
  - simp lower_bound. repeat split; intros; lia.
  - simp lower_bound.
    assert (Hhalf : S n / 2 < S n) by (apply Nat.div_lt; lia).
    destruct (l !! (first + S n / 2)) as [middle |] eqn:Hmid;
      simp lower_bound.
    2: { apply lookup_ge_None in Hmid. lia. }
    destruct (middle <? val)%Z eqn:Hcmp; simp lower_bound.
    + apply Z.ltb_lt in Hcmp.
      destruct (IH (S n - S n / 2 - 1) ltac:(lia) (first + S n / 2 + 1)
                   ltac:(lia)) as (Hrange & Hbelow & Habove).
      repeat split; try lia.
      * intros j x Hj Hx.
        destruct (Nat.le_gt_cases j (first + S n / 2)) as [Hle | Hgt].
        -- pose proof (StronglySorted_lookup_le l j (first + S n / 2) x middle
                         Hs Hle Hx Hmid). lia.
        -- apply (Hbelow j x); [lia | exact Hx].
      * intros j x Hj Hx. apply (Habove j x); [lia | exact Hx].
    + apply Z.ltb_ge in Hcmp.
      destruct (IH (S n / 2) Hhalf first ltac:(lia))
        as (Hrange & Hbelow & Habove).
      repeat split; try lia.
      * exact Hbelow.
      * intros j x Hj Hx.
        destruct (Nat.lt_ge_cases j (first + S n / 2)) as [Hlt | Hge].
        -- apply (Habove j x); [lia | exact Hx].
        -- pose proof (StronglySorted_lookup_le l (first + S n / 2) j middle x
                         Hs Hge Hmid Hx). lia.
Qed.

(** On a sorted vector the binary search decides membership. *)
Lemma c_binary_search_In (l : list Z) (val : Z) :
  StronglySorted Z.le l ->
  c_binary_search l val = true <-> In val l.
Proof.
  intros Hs. unfold c_binary_search.
  destruct (lower_bound_partition l val 0 (length l) Hs (Nat.le_refl _))
    as (Hrange & Hbelow & Habove).
  set (r := lower_bound l val 0 (length l)) in *.
  destruct (l !! r) as [x |] eqn:Hr.
  - pose proof (lookup_lt_Some _ _ _ Hr) as Hlt.
    pose proof (Habove r x ltac:(lia) Hr) as Hge.
    split.
    + intros H. apply negb_true_iff, Z.ltb_ge in H.
      assert (x = val) as -> by lia.
      apply list_elem_of_In. eapply list_elem_of_lookup_2; eauto.
    + intros Hin. apply negb_true_iff, Z.ltb_ge.
      apply list_elem_of_In, list_elem_of_lookup_1 in Hin as [j Hj].
      destruct (Nat.lt_ge_cases j r) as [Hjr | Hjr].
      * pose proof (Hbelow j val ltac:(lia) Hj). lia.
      * pose proof (StronglySorted_lookup_le l r j x val Hs Hjr Hr Hj). lia.
  - split; [discriminate |]. intros Hin. exfalso.
    apply lookup_ge_None in Hr.
    apply list_elem_of_In, list_elem_of_lookup_1 in Hin as [j Hj].
    pose proof (lookup_lt_Some _ _ _ Hj) as Hlt.
    pose proof (Hbelow j val ltac:(lia) Hj). lia.
Qed.

(** ** Value mode: the parts of a call *)

Lemma stage_unsupported_events stage dev :
  events (stage_unsupported stage dev) = [].
Proof.
  unfold stage_unsupported.
  destruct (device_type dev); simpl; try reflexivity;
    destruct (tensorflow_accelerator_device_info dev); reflexivity.
Qed.

Lemma gather_inputs_phase context cs handles : forall i inputs storage,
  Forall (fun e => phase e = InInputs)
         (events (gather_inputs context cs handles i inputs storage)).
Proof.
  induction handles as [| th rest IH]; intros i inputs storage; simpl.
  - constructor.
  - destruct (th_Tensor th) as [t | err]; simpl; [| repeat constructor].
    destruct (c_binary_search cs (Z.of_nat i)); simpl.
    + destruct (th_CopyToDevice th context None _) as [copy | err]; simpl;
        [| repeat constructor].
      specialize (IH (S i) (inputs ++ [copy]) (storage ++ [copy])).
      destruct (gather_inputs context cs rest (S i) _ _) as [t' r].
      simpl in *. repeat constructor. exact IH.
    + specialize (IH (S i) (inputs ++ [t]) storage).
      destruct (gather_inputs context cs rest (S i) _ _) as [t' r].
      simpl in *. repeat constructor. exact IH.
Qed.

(** What the loop over the handles leaves in [inputs]: for the handle at
    position [j], the copy made on the host when [i + j] is found among the
    constant indices, and the handle's own tensor otherwise. *)
Lemma gather_inputs_inputs context cs handles :
  forall i inputs0 storage0 tg inputs storage,
  gather_inputs context cs handles i inputs0 storage0 =
    (tg, Ok (inputs, storage)) ->
  exists added stored,
    inputs = inputs0 ++ added /\ storage = storage0 ++ stored /\
    length added = length handles /\
    (forall k, In (EvCopyToDevice k) tg ->
               i <= k /\ c_binary_search cs (Z.of_nat k) = true) /\
    forall j th, handles !! j = Some th ->
      exists t, th_Tensor th = OkValue t /\
        if c_binary_search cs (Z.of_nat (i + j)) then
          exists copy,
            th_CopyToDevice th context None
                            (new_Tensor (dtype t) (tensor_shape t)) =
              OkValue copy /\
            added !! j = Some copy /\ In copy stored /\
            In (EvCopyToDevice (i + j)) tg
        else added !! j = Some t.
Proof.
  induction handles as [| th rest IH];
    intros i inputs0 storage0 tg inputs storage Hrun; simpl in Hrun.
  - inversion Hrun; subst. exists [], []. rewrite !app_nil_r.
    split; [reflexivity |]. split; [reflexivity |]. split; [reflexivity |].
    split; [intros k [] |]. intros j th Hj. discriminate Hj.
  - destruct (th_Tensor th) as [t | err] eqn:Ht; simpl in Hrun;
      [| discriminate].
    destruct (c_binary_search cs (Z.of_nat i)) eqn:Hc; simpl in Hrun.
    + destruct (th_CopyToDevice th context None _) as [copy | err] eqn:Hcopy;
        simpl in Hrun; [| discriminate].
      destruct (gather_inputs context cs rest (S i) (inputs0 ++ [copy])
                              (storage0 ++ [copy])) as [t' r] eqn:Hrest.
      simpl in Hrun. inversion Hrun; subst. clear Hrun.
      destruct (IH _ _ _ _ _ _ Hrest)
        as (added & stored & Hin & Hst & Hlen & Hcopies & Hall).
      exists (copy :: added), (copy :: stored).
      rewrite <- app_assoc in Hin, Hst. simpl in Hin, Hst.
      split; [exact Hin |]. split; [exact Hst |]. split; [simpl; lia |].
      split.
      * intros k [Hk | [Hk | Hk]]; try discriminate Hk.
        -- inversion Hk; subst. split; [lia | exact Hc].
        -- destruct (Hcopies k Hk). split; [lia | assumption].
      * intros [| j] th' Hj; simpl in Hj.
        -- inversion Hj; subst th'. exists t. split; [exact Ht |].
           rewrite Nat.add_0_r, Hc. exists copy. simpl. repeat split; auto.
        -- destruct (Hall j th' Hj) as (t0 & Ht0 & Hcase). exists t0.
           split; [exact Ht0 |].
           replace (i + S j) with (S i + j) by lia.
           destruct (c_binary_search cs (Z.of_nat (S i + j)));
             [| exact Hcase].
           destruct Hcase as (c0 & Hc0 & Hadded & Hstored & Hev).
           exists c0. simpl. repeat split; auto.
    + destruct (gather_inputs context cs rest (S i) (inputs0 ++ [t]) storage0)
        as [t' r] eqn:Hrest.
      simpl in Hrun. inversion Hrun; subst. clear Hrun.
      destruct (IH _ _ _ _ _ _ Hrest)
        as (added & stored & Hin & Hst & Hlen & Hcopies & Hall).
      exists (t :: added), stored.
      rewrite <- app_assoc in Hin. simpl in Hin.
      split; [exact Hin |]. split; [exact Hst |]. split; [simpl; lia |].
      split.
      * intros k [Hk | Hk]; try discriminate Hk.
        destruct (Hcopies k Hk). split; [lia | assumption].
      * intros [| j] th' Hj; simpl in Hj.
        -- inversion Hj; subst th'. exists t. split; [exact Ht |].
           rewrite Nat.add_0_r, Hc. reflexivity.
        -- destruct (Hall j th' Hj) as (t0 & Ht0 & Hcase). exists t0.
           split; [exact Ht0 |].
           replace (i + S j) with (S i + j) by lia.
           destruct (c_binary_search cs (Z.of_nat (S i + j)));
             [| exact Hcase].
           destruct Hcase as (c0 & Hc0 & Hadded & Hstored & Hev).
           exists c0. simpl. repeat split; auto.
Qed.

Lemma resolve_variables_indices rmgr inputs rs :
  events (resolve_variables rmgr inputs rs) = [] /\
  forall infos,
    outcome (resolve_variables rmgr inputs rs) = Ok infos ->
    map vi_index infos = rs.
Proof.
  induction rs as [| idx rest [IHev IHout]]; simpl.
  - split; [reflexivity |]. intros infos H. now inversion H.
  - destruct (at_index inputs idx) as [handle |]; simpl;
      [| split; [reflexivity | discriminate]].
    destruct (resolve_variable rmgr handle) as [var | err]; simpl;
      [| split; [reflexivity | discriminate]].
    destruct (resolve_variables rmgr inputs rest) as [t [infos | err | f]];
      simpl in *; subst t; (split; [reflexivity |]); try discriminate.
    intros infos' H. inversion H; subst. simpl. f_equal. now apply IHout.
Qed.

Lemma insert_by_index_Permutation v sorted :
  Permutation (insert_by_index v sorted) (v :: sorted).
Proof.
  induction sorted as [| w rest IH]; simpl.
  - reflexivity.
  - destruct (vi_index v <=? vi_index w)%Z.
    + reflexivity.
    + rewrite IH. apply perm_swap.
Qed.

Lemma lock_order_Permutation infos : Permutation (lock_order infos) infos.
Proof.
  induction infos as [| v rest IH]; simpl.
  - reflexivity.
  - rewrite insert_by_index_Permutation. now rewrite IH.
Qed.

Lemma insert_by_index_sorted v sorted :
  StronglySorted Z.le (map vi_index sorted) ->
  StronglySorted Z.le (map vi_index (insert_by_index v sorted)).
Proof.
  induction sorted as [| w rest IH]; simpl; intros Hs.
  - repeat constructor.
  - apply StronglySorted_inv in Hs as [Hs Hall].
    destruct (vi_index v <=? vi_index w)%Z eqn:Hcmp; simpl.
    + apply Z.leb_le in Hcmp. constructor.
      * constructor; assumption.
      * constructor; [exact Hcmp |].
        eapply List.Forall_impl; [| exact Hall]. simpl. intros; lia.
    + apply Z.leb_gt in Hcmp. constructor; [now apply IH |].
      rewrite List.Forall_forall in *. intros k Hk.
      apply in_map_iff in Hk as [u [<- Hu]].
      apply (Permutation_in _ (insert_by_index_Permutation v rest)) in Hu.
      destruct Hu as [<- | Hu]; [lia |].
      apply Hall. now apply in_map.
Qed.

Lemma lock_order_sorted infos :
  StronglySorted Z.le (map vi_index (lock_order infos)).
Proof.
  induction infos as [| v rest IH]; simpl.
  - constructor.
  - now apply insert_by_index_sorted.
Qed.

Lemma release_all acquired s :
  fold_right (fun idx k => emit (EvUnlock idx);; k) (fail s) acquired =
    (map EvUnlock acquired, Err s : Outcome unit).
Proof.
  induction acquired as [| idx rest IH]; simpl in *.
  - reflexivity.
  - rewrite IH. reflexivity.
Qed.

(** The Variable Locker either takes every lock, in the given order, or takes
    the locks of a first part of the order and gives them all back. *)
Lemma acquire_all_events order : forall acquired,
  acquire_all order acquired = (map EvLock (map vi_index order), Ok tt) \/
  exists s taken rest,
    order = taken ++ rest /\
    acquire_all order acquired =
      (map EvLock (map vi_index taken) ++
       map EvUnlock (rev (map vi_index taken) ++ acquired), Err s).
Proof.
  induction order as [| v rest IH]; intros acquired; simpl.
  - now left.
  - destruct (mu_lock (vi_var v)) as [s |] eqn:Hlock.
    + right. exists s, [], (v :: rest). split; [reflexivity |].
      simpl. apply release_all.
    + destruct (IH (vi_index v :: acquired))
        as [Hok | (s & taken & rest' & Hsplit & Hfail)].
      * left. rewrite Hok. reflexivity.
      * right. exists s, (v :: taken), rest'. split; [now rewrite Hsplit |].
        rewrite Hfail. simpl. rewrite <- app_assoc. reflexivity.
Qed.

Lemma LookupOrCreate_phase rmgr creator :
  Forall (fun e => phase e = InCache) (events (LookupOrCreate rmgr creator)) /\
  forall f, outcome (LookupOrCreate rmgr creator) <> Undefined f.
Proof.
  unfold LookupOrCreate.
  destruct (cached_xla_device_compiler rmgr); simpl.
  - split; [repeat constructor | discriminate].
  - destruct (creator tt); simpl; (split; [repeat constructor | discriminate]).
Qed.

Lemma generate_options_phase E platform_info stream_ compiler flr dev :
  exists e options,
    generate_options E platform_info stream_ compiler flr dev =
      ([e], Ok options) /\
    phase e = InOptions.
Proof.
  unfold generate_options.
  destruct (DeviceType_eqb _ _ && is_null stream_); simpl;
    eexists _, _; split; reflexivity.
Qed.

Lemma BuildExecutable_defined local_client result options embed f :
  outcome (BuildExecutable local_client result options embed) <> Undefined f.
Proof.
  unfold BuildExecutable. simpl.
  destruct (Compile local_client _ _ _) as [[| e [| e' l]] | err]; simpl;
    discriminate.
Qed.

Lemma BuildHLOString_phase create render stage result local_client options :
  Forall (fun e => phase e = InExport)
         (events (BuildHLOString create render stage result local_client
                                 options)) /\
  forall f,
    outcome (BuildHLOString create render stage result local_client options)
      <> Undefined f.
Proof.
  assert (Hb : forall embed,
    exists sent r,
      BuildExecutable local_client result options embed =
        ([EvCompile sent], r) /\ forall f, r <> Undefined f).
  { intros embed.
    destruct (BuildExecutable_events local_client result options embed)
      as (sent & Hev & _).
    pose proof (BuildExecutable_defined local_client result options embed)
      as Hdef.
    destruct (BuildExecutable local_client result options embed) as [t r].
    simpl in *. subst t. now exists sent, r. }
  destruct stage; simpl.
  1-3: destruct (GetProgramShape (computation result)); simpl;
       [| split; [repeat constructor | discriminate]];
       destruct (create _ _); simpl;
       (split; [repeat constructor | discriminate]).
  1-4: match goal with
       | |- context [BuildExecutable _ _ _ ?embed] =>
           destruct (Hb embed) as (sent & r & -> & Hr)
       end;
       destruct r as [built | err | f]; simpl;
       try (split; [repeat constructor | discriminate]);
       try (exfalso; now apply (Hr f)).
  destruct (render _ _ _); simpl; (split; [repeat constructor | discriminate]).
Qed.

(** ** Value mode: the whole call *)

Lemma bindM_lift {A B} (m : T A) (k : A -> M B) st :
  bindM (lift m) k st =
    match m with
    | (t, Ok a) => after t (k a st)
    | (t, Err s) => (t, st, Err s)
    | (t, Undefined f) => (t, st, Undefined f)
    end.
Proof. unfold bindM, lift. destruct m as [t [a | s | f]]; reflexivity. Qed.

Lemma after_after {A} t1 t2 (x : Trace * Locals * Outcome A) :
  after t1 (after t2 x) = after (t1 ++ t2) x.
Proof. destruct x as [[t st] r]. simpl. now rewrite app_assoc. Qed.

Lemma after_nil {A} (x : Trace * Locals * Outcome A) : after [] x = x.
Proof. now destruct x as [[t st] r]. Qed.

Lemma bindM_assoc {A B C} (m : M A) (k1 : A -> M B) (k2 : B -> M C) st :
  bindM (bindM m k1) k2 st = bindM m (fun a => bindM (k1 a) k2) st.
Proof.
  unfold bindM. destruct (m st) as [[t st'] [a | s | f]]; try reflexivity.
  destruct (k1 a st') as [[t1 st1] [b | s | f]]; try reflexivity.
  simpl. now rewrite after_after.
Qed.

Lemma bindM_retM {A B} (a : A) (k : A -> M B) st :
  bindM (retM a) k st = k a st.
Proof. unfold bindM, retM. apply after_nil. Qed.

Lemma bindM_get {B} (k : list VariableInfo -> M B) st :
  bindM get_variable_infos k st = k (variable_infos st) st.
Proof. unfold bindM, get_variable_infos. apply after_nil. Qed.

Lemma bindM_put_infos {B} infos (k : unit -> M B) st :
  bindM (put_variable_infos infos) k st =
    k tt {| variable_infos := infos;
            xla_device_compiler_ref := xla_device_compiler_ref st |}.
Proof. unfold bindM, put_variable_infos. apply after_nil. Qed.

Lemma bindM_put_ref {B} c (k : unit -> M B) st :
  bindM (put_xla_device_compiler_ref c) k st =
    k tt {| variable_infos := variable_infos st;
            xla_device_compiler_ref := Some c |}.
Proof. unfold bindM, put_xla_device_compiler_ref. apply after_nil. Qed.

Lemma events_at_return_after {A} t (x : Trace * Locals * Outcome A) :
  events (at_return (after t x)) = t ++ events (at_return x).
Proof. destruct x as [[t' st] [a | s | f]]; simpl; now rewrite ?app_assoc. Qed.

Lemma lift_run {A} (m : T A) st : lift m st = (fst m, st, snd m).
Proof. reflexivity. Qed.

(** Normal form of the head of a run. *)
Ltac m_norm :=
  cbv beta iota zeta;
  repeat (first [ rewrite bindM_assoc | rewrite bindM_retM | rewrite bindM_get
                | rewrite bindM_put_infos | rewrite bindM_put_ref
                | rewrite events_at_return_after ];
          cbv beta iota zeta);
  cbn [variable_infos xla_device_compiler_ref].

Lemma destroy_held infos :
  flat_map destroy_VariableInfo (map hold infos) =
    map EvUnlock (map vi_index infos).
Proof. induction infos as [| v rest IH]; simpl; [| rewrite IH]; reflexivity. Qed.

Lemma unlock_indices_unlocks l : unlock_indices (map EvUnlock l) = l.
Proof. induction l as [| i l IH]; simpl; [| rewrite IH]; reflexivity. Qed.

Lemma release_unlocks l : Forall (fun e => is_release e = true) (map EvUnlock l).
Proof. induction l; simpl; constructor; auto. Qed.

Lemma Forall_phase (f : Phase -> bool) p t :
  f p = true ->
  Forall (fun e => phase e = p) t -> Forall (fun e => f (phase e) = true) t.
Proof.
  intros Hf. apply List.Forall_impl. intros e ->. exact Hf.
Qed.

Lemma resolve_variables_unheld rmgr inputs rs infos :
  outcome (resolve_variables rmgr inputs rs) = Ok infos ->
  flat_map destroy_VariableInfo infos = [].
Proof.
  revert infos. induction rs as [| idx rest IH]; simpl; intros infos H.
  - now inversion H.
  - destruct (at_index inputs idx) as [handle |]; simpl in H;
      [| discriminate].
    destruct (resolve_variable rmgr handle) as [var | err]; simpl in H;
      [| discriminate].
    destruct (resolve_variables rmgr inputs rest) as [t [infos' | err | f]];
      simpl in H; try discriminate.
    inversion H; subst. simpl. now apply IH.
Qed.

Lemma gather_inputs_phase_eq context cs handles tg r :
  gather_inputs context cs handles 0 [] [] = (tg, r) ->
  Forall (fun e => phase e = InInputs) tg.
Proof.
  intros H. pose proof (gather_inputs_phase context cs handles 0 [] []) as Hp.
  now rewrite H in Hp.
Qed.

(** Lines 216-239 either hold every lock, taken in ascending order, when
    they are through, or stop with an error or a fault and hold none. *)
Lemma read_and_lock_inputs_run context rmgr cs rs handles :
  (exists tg inputs storage infos,
     gather_inputs context cs handles 0 [] [] = (tg, Ok (inputs, storage)) /\
     resolve_variables rmgr inputs rs = ([], Ok infos) /\
     read_and_lock_inputs context rmgr cs rs handles no_locals =
       (tg ++ EvGetVariableInfosFromInputs ::
              map EvLock (map vi_index (lock_order infos)),
        {| variable_infos := map hold infos;
           xla_device_compiler_ref := None |},
        Ok inputs)) \/
  (exists t0 ks st r,
     read_and_lock_inputs context rmgr cs rs handles no_locals =
       (t0 ++ map EvLock ks ++ map EvUnlock (rev ks), st, r) /\
     (forall a, r <> Ok a) /\
     destroy_locals st = [] /\
     Forall (fun e => before_locks (phase e) = true) t0 /\
     StronglySorted Z.le ks).
Proof.
  unfold read_and_lock_inputs. rewrite bindM_lift.
  pose proof (gather_inputs_phase context cs handles 0 [] []) as Hgp.
  apply (Forall_phase before_locks) in Hgp; [| reflexivity].
  destruct (gather_inputs context cs handles 0 [] [])
    as [tg [[inputs storage] | s | f]] eqn:Hg; simpl in Hgp.
  2, 3: right; exists tg, [], no_locals; eexists;
        (split; [simpl; now rewrite app_nil_r |]);
        (split; [discriminate |]); (split; [reflexivity |]);
        (split; [exact Hgp | constructor]).
  unfold GetVariableInfosFromInputs. m_norm.
  rewrite bindM_lift. unfold emit at 1. m_norm. rewrite bindM_lift.
  destruct (resolve_variables_indices rmgr inputs rs) as [Hrev _].
  pose proof (resolve_variables_unheld rmgr inputs rs) as Hunheld.
  destruct (resolve_variables rmgr inputs rs) as [tr [infos | s | f]] eqn:Hr;
    simpl in Hrev; subst tr.
  2, 3: right; exists (tg ++ [EvGetVariableInfosFromInputs]), [], no_locals;
        eexists;
        (split; [simpl; now rewrite !app_nil_r |]);
        (split; [discriminate |]); (split; [reflexivity |]);
        (split; [apply Forall_app; split; [exact Hgp | repeat constructor]
                | constructor]).
  m_norm. unfold LockVariables. m_norm. rewrite bindM_lift.
  destruct (acquire_all_events (lock_order infos) [])
    as [Hlk | (s & taken & rest & Hsplit & Hlk)]; rewrite Hlk.
  - left. exists tg, inputs, storage, infos.
    split; [reflexivity |]. split; [exact Hr |].
    m_norm. unfold retM. simpl. rewrite app_nil_r. reflexivity.
  - right. exists (tg ++ [EvGetVariableInfosFromInputs]),
                  (map vi_index taken).
    eexists _, _. split; [| split; [| split; [| split]]].
    + simpl. rewrite app_nil_r, <- !app_assoc. reflexivity.
    + discriminate.
    + unfold destroy_locals. simpl. now apply Hunheld.
    + apply Forall_app. split; [exact Hgp | repeat constructor].
    + pose proof (lock_order_sorted infos) as Hs.
      rewrite Hsplit, map_app in Hs.
      now apply StronglySorted_app_1_l in Hs.
Qed.

Section ValueMode.

Variable E : Collaborators.

Lemma compile_and_export_value_mode stage function dev flr rmgr fbody cs
    inputs infos :
  exists t1 t2,
    events (at_return
              (compile_and_export E stage function dev flr rmgr false fbody cs
                 inputs {| variable_infos := map hold infos;
                           xla_device_compiler_ref := None |})) = t1 ++ t2 /\
    Forall (fun e => after_locks (phase e) = true) t1 /\
    Forall (fun e => is_release e = true) t2 /\
    unlock_indices t2 = map vi_index infos /\
    forall args,
      In (EvCompileFunction args) t1 ->
      BuildXlaCompilerArguments cs inputs (map hold infos) dev = OkValue args.
Proof.
  unfold compile_and_export. m_norm.
  rewrite bindM_lift.
  destruct (LookupOrCreate_phase rmgr
              (fun _ => BuildXlaDeviceCompiler E dev flr
                          (XlaPlatformInfoFromDevice E dev))) as [Hlp Hld].
  destruct (LookupOrCreate rmgr _) as [tl [compiler | s | f]];
    simpl in Hlp, Hld.
  3: { exfalso. now apply (Hld f). }
  2: { exists tl, (map EvUnlock (map vi_index infos)).
       unfold at_return, destroy_locals. cbn [variable_infos xla_device_compiler_ref destroy_ScopedUnref events fst].
       rewrite destroy_held. simpl app.
       split; [reflexivity |].
       split; [eapply Forall_phase; [| exact Hlp]; reflexivity |].
       split; [apply release_unlocks |].
       split; [apply unlock_indices_unlocks |].
       intros args Hin. rewrite List.Forall_forall in Hlp.
       apply Hlp in Hin. discriminate Hin. }
  m_norm. rewrite bindM_lift.
  destruct (generate_options_phase E (XlaPlatformInfoFromDevice E dev)
              (stream_of dev) compiler flr dev) as (eo & options & -> & Heo).
  m_norm. rewrite bindM_lift.
  unfold BuildXlaCompilerArguments at 1. unfold emit at 1, or_return at 1, ret at 1, bind at 1.
  m_norm. 
  set (args := imap _ inputs).
  rewrite bindM_lift. unfold emit at 1. unfold bind at 1.
  assert (Hargs : forall a, In (EvCompileFunction a)
                    (tl ++ [eo] ++ [EvBuildXlaCompilerArguments] ++
                     [EvCompileFunction args]) ->
                  BuildXlaCompilerArguments cs inputs (map hold infos) dev =
                    OkValue a).
  { intros a Hin. rewrite !in_app_iff in Hin. simpl in Hin.
    destruct Hin as [Hin | [[Hin | []] | [[Hin | []] | [Hin | []]]]].
    - rewrite List.Forall_forall in Hlp. apply Hlp in Hin. discriminate Hin.
    - subst eo. discriminate Heo.
    - discriminate Hin.
    - inversion Hin; subst a. reflexivity. }
  assert (Hph : Forall (fun e => after_locks (phase e) = true)
                  (tl ++ [eo] ++ [EvBuildXlaCompilerArguments] ++
                   [EvCompileFunction args])).
  { apply Forall_app. split; [eapply Forall_phase; [| exact Hlp]; reflexivity |].
    repeat constructor. now rewrite Heo. }
  destruct (CompileFunction E options _ function args) as [result | s];
    unfold or_return, ret, fail; cbv beta iota zeta.
  2: { exists (tl ++ [eo] ++ [EvBuildXlaCompilerArguments] ++
               [EvCompileFunction args]),
              (EvUnref :: map EvUnlock (map vi_index infos)).
       unfold at_return, destroy_locals.
       cbn [variable_infos xla_device_compiler_ref destroy_ScopedUnref events
            fst].
       rewrite destroy_held.
       split; [simpl; now rewrite <- !app_assoc |].
       split; [exact Hph |].
       split; [constructor; [reflexivity | apply release_unlocks] |].
       split; [simpl; apply unlock_indices_unlocks |].
       exact Hargs. }
  rewrite events_at_return_after. rewrite lift_run.
  destruct (BuildHLOString_phase (CreateFromProto E) (RenderGraph E) stage
              result (client compiler) options) as [Hbp Hbd].
  destruct (BuildHLOString _ _ stage result (client compiler) options)
    as [tb r]. simpl in Hbp, Hbd. cbn [fst snd].
  exists ((tl ++ [eo] ++ [EvBuildXlaCompilerArguments] ++
           [EvCompileFunction args]) ++ tb),
         (EvUnref :: map EvUnlock (map vi_index infos)).
  assert (Hret : events (at_return
                   (tb, {| variable_infos := map hold infos;
                           xla_device_compiler_ref := Some compiler |}, r)) =
                 tb ++ EvUnref :: map EvUnlock (map vi_index infos)).
  { unfold at_return, destroy_locals.
    cbn [variable_infos xla_device_compiler_ref destroy_ScopedUnref].
    rewrite destroy_held.
    destruct r as [a | s | f]; try reflexivity. exfalso. now apply (Hbd f). }
  rewrite Hret.
  split; [simpl; now rewrite <- !app_assoc |].
  split; [apply Forall_app; split;
          [exact Hph | eapply Forall_phase; [| exact Hbp]; reflexivity] |].
  split; [constructor; [reflexivity | apply release_unlocks] |].
  split; [simpl; apply unlock_indices_unlocks |].
  intros a Hin. apply in_app_iff in Hin as [Hin | Hin]; [now apply Hargs |].
  rewrite List.Forall_forall in Hbp. apply Hbp in Hin. discriminate Hin.
Qed.

(** The shape of a value-mode call: what comes before the locks, the locks in
    ascending order, what comes after them, and the destructors. *)
Lemma value_mode_call stage pflr func_name dev context handles fbody cs rs :
  handles <> [] ->
  GetBodyAndConstantsAndResources E (GetFLR pflr (device_name dev)) func_name =
    OkValue (fbody, cs, rs) ->
  exists t0 ks t1 t2,
    events (GetCompilerIr E stage pflr func_name dev context handles) =
      t0 ++ map EvLock ks ++ t1 ++ t2 /\
    Forall (fun e => before_locks (phase e) = true) t0 /\
    StronglySorted Z.le ks /\
    Forall (fun e => after_locks (phase e) = true) t1 /\
    Forall (fun e => is_release e = true) t2 /\
    Permutation (unlock_indices t2) ks /\
    (t1 = [] \/
     exists tg inputs storage infos,
       gather_inputs context cs handles 0 [] [] = (tg, Ok (inputs, storage)) /\
       t0 = EvGetBodyAndConstantsAndResources func_name ::
            tg ++ [EvGetVariableInfosFromInputs] /\
       resolve_variables (resource_manager dev) inputs rs = ([], Ok infos) /\
       ks = map vi_index (lock_order infos) /\
       forall args,
         In (EvCompileFunction args) t1 ->
         BuildXlaCompilerArguments cs inputs (map hold infos) dev = OkValue args).
Proof.
  intros Hne Hres.
  assert (Hstop : forall t0 : Trace,
            Forall (fun e => before_locks (phase e) = true) t0 ->
            forall ks, StronglySorted Z.le ks ->
            exists t0' ks' t1 t2,
              t0 ++ map EvLock ks ++ map EvUnlock (rev ks) =
                t0' ++ map EvLock ks' ++ t1 ++ t2 /\
              Forall (fun e => before_locks (phase e) = true) t0' /\
              StronglySorted Z.le ks' /\
              Forall (fun e => after_locks (phase e) = true) t1 /\
              Forall (fun e => is_release e = true) t2 /\
              Permutation (unlock_indices t2) ks' /\
              (t1 = [] \/
               exists tg inputs storage infos,
                 gather_inputs context cs handles 0 [] [] =
                   (tg, Ok (inputs, storage)) /\
                 t0' = EvGetBodyAndConstantsAndResources func_name ::
                       tg ++ [EvGetVariableInfosFromInputs] /\
                 resolve_variables (resource_manager dev) inputs rs =
                   ([], Ok infos) /\
                 ks' = map vi_index (lock_order infos) /\
                 forall args,
                   In (EvCompileFunction args) t1 ->
                   BuildXlaCompilerArguments cs inputs (map hold infos) dev =
                     OkValue args)).
  { intros t0 H0 ks Hks. exists t0, ks, [], (map EvUnlock (rev ks)).
    split; [reflexivity |]. split; [exact H0 |]. split; [exact Hks |].
    split; [constructor |]. split; [apply release_unlocks |].
    split; [| now left].
    rewrite unlock_indices_unlocks. symmetry. apply Permutation_rev. }
  unfold GetCompilerIr, GetCompilerIr_body.
  destruct handles as [| th handles']; [contradiction |].
  cbv beta iota zeta. remember (th :: handles') as all eqn:Hall.
  clear Hne.
  rewrite bindM_lift.
  pose proof (stage_unsupported_events stage dev) as H0.
  destruct (stage_unsupported stage dev) as [t [[|] | s | f]]; simpl in H0;
    subst t; cbv beta iota zeta.
  1, 3, 4: apply (Hstop [] ltac:(constructor) [] ltac:(constructor)).
  rewrite after_nil, bindM_lift.
  unfold emit at 1, bind at 1. rewrite Hres. unfold or_return at 1, ret at 1.
  cbv beta iota zeta. unfold negb. m_norm.
  unfold bindM at 1.
  destruct (read_and_lock_inputs_run context (resource_manager dev) cs rs all)
    as [(tg & inputs & storage & infos & Hg & Hr & ->)
       | (t0 & ks & st & r & -> & Hr & Hd & H0 & Hks)].
  - m_norm.
    destruct (compile_and_export_value_mode stage func_name dev
                (GetFLR pflr (device_name dev)) (resource_manager dev) fbody cs
                inputs infos) as (t1 & t2 & -> & H1 & H2 & Hu & Hargs).
    exists (EvGetBodyAndConstantsAndResources func_name ::
            tg ++ [EvGetVariableInfosFromInputs]),
           (map vi_index (lock_order infos)), t1, t2.
    split; [simpl; rewrite <- !app_assoc; reflexivity |].
    split.
    { constructor; [reflexivity |]. apply Forall_app. split.
      - eapply Forall_phase; [| apply gather_inputs_phase_eq with (1 := Hg)].
        reflexivity.
      - repeat constructor. }
    split; [apply lock_order_sorted |].
    split; [exact H1 |]. split; [exact H2 |].
    split; [rewrite Hu; apply Permutation_map; symmetry;
            apply lock_order_Permutation |].
    right. exists tg, inputs, storage, infos. auto.
  - assert (H0' : Forall (fun e => before_locks (phase e) = true)
                    (EvGetBodyAndConstantsAndResources func_name :: t0))
      by (constructor; [reflexivity | exact H0]).
    pose proof (Hstop _ H0' ks Hks) as Hshape.
    destruct r as [a | s | f]; [exfalso; now apply (Hr a) | |];
      unfold at_return, events; cbn [fst]; rewrite ?Hd, ?app_nil_r;
      exact Hshape.
Qed.

End ValueMode.

(** ** GetCompilerIr: the shape of a call *)

Section WholeCall.

Variable E : Collaborators.

(** Lines 241-287 written out: how far the call gets, and what it has
    emitted by then. *)
Lemma compile_and_export_run stage function dev flr rmgr
    (using_tensor_spec : bool) fbody cs inputs st :
  match LookupOrCreate rmgr
          (fun _ => BuildXlaDeviceCompiler E dev flr
                      (XlaPlatformInfoFromDevice E dev)) with
  | (tl, Undefined f) => False
  | (tl, Err s) =>
      compile_and_export E stage function dev flr rmgr using_tensor_spec
                         fbody cs inputs st = (tl, st, Err s)
  | (tl, Ok c) =>
      exists eo options,
        generate_options E (XlaPlatformInfoFromDevice E dev) (stream_of dev)
                         c flr dev = ([eo], Ok options) /\
        compile_and_export E stage function dev flr rmgr using_tensor_spec
                           fbody cs inputs st =
          let st' := {| variable_infos := variable_infos st;
                        xla_device_compiler_ref := Some c |} in
          match (if using_tensor_spec then
                   BuildXlaCompilerArgumentFromFuncBody (BuildTensorShape E)
                                                        fbody
                 else
                   emit EvBuildXlaCompilerArguments;;
                   or_return (BuildXlaCompilerArguments cs inputs
                                (variable_infos st) dev)) with
          | (ta, Undefined f) => (tl ++ eo :: ta, st', Undefined f)
          | (ta, Err s) => (tl ++ eo :: ta, st', Err s)
          | (ta, Ok args) =>
              match CompileFunction E options
                      {| always_return_tuple := false;
                         alias_resource_update := true |} function args with
              | NotOk s =>
                  (tl ++ eo :: ta ++ [EvCompileFunction args], st', Err s)
              | OkValue result =>
                  (tl ++ eo :: ta ++ EvCompileFunction args ::
                     events (BuildHLOString (CreateFromProto E)
                               (RenderGraph E) stage result (client c)
                               options),
                   st',
                   outcome (BuildHLOString (CreateFromProto E)
                              (RenderGraph E) stage result (client c)
                              options))
              end
          end
  end.
Proof.
  unfold compile_and_export. m_norm. rewrite bindM_lift.
  destruct (LookupOrCreate_phase rmgr
              (fun _ => BuildXlaDeviceCompiler E dev flr
                          (XlaPlatformInfoFromDevice E dev))) as [_ Hld].
  destruct (LookupOrCreate rmgr _) as [tl [c | s | f]]; simpl in Hld.
  3: { now apply (Hld f). }
  2: { reflexivity. }
  m_norm. rewrite bindM_lift.
  destruct (generate_options_phase E (XlaPlatformInfoFromDevice E dev)
              (stream_of dev) c flr dev) as (eo & options & Hgen & _).
  exists eo, options. split; [exact Hgen |]. rewrite Hgen.
  m_norm. rewrite bindM_lift.
  destruct (if using_tensor_spec then _ else _) as [ta [args | s | f]];
    cbv beta iota zeta.
  2, 3: reflexivity.
  rewrite bindM_lift. unfold emit at 1, bind at 1.
  destruct (CompileFunction E options _ function args) as [result | s];
    unfold or_return, ret, fail; cbv beta iota zeta.
  - rewrite lift_run. unfold after, events, outcome. simpl.
    now rewrite <- ?app_assoc.
  - unfold after. simpl. now rewrite <- ?app_assoc.
Qed.

(** The call written out down to lines 241-287. *)
Lemma GetCompilerIr_run stage pflr func_name dev context handles :
  GetCompilerIr E stage pflr func_name dev context handles =
    match stage_unsupported stage dev with
    | (t, Undefined f) => (t, Undefined f)
    | (t, Err s) => (t, Err s)
    | (t, Ok true) => (t, Err (errors_Internal unsupported_stage_message))
    | (t, Ok false) =>
        match GetBodyAndConstantsAndResources E
                (GetFLR pflr (device_name dev)) func_name with
        | NotOk s => (t ++ [EvGetBodyAndConstantsAndResources func_name], Err s)
        | OkValue (fbody, cs, rs) =>
            at_return
              (after (t ++ [EvGetBodyAndConstantsAndResources func_name])
                 (match handles with
                  | [] =>
                      compile_and_export E stage func_name dev
                        (GetFLR pflr (device_name dev)) (resource_manager dev)
                        true fbody cs [] no_locals
                  | _ =>
                      bindM (read_and_lock_inputs context
                               (resource_manager dev) cs rs handles)
                            (fun inputs =>
                               compile_and_export E stage func_name dev
                                 (GetFLR pflr (device_name dev))
                                 (resource_manager dev) false fbody cs inputs)
                            no_locals
                  end))
        end
    end.
Proof.
  unfold GetCompilerIr, GetCompilerIr_body. cbv beta iota zeta.
  rewrite bindM_lift.
  destruct (stage_unsupported stage dev) as [t [[|] | s | f]];
    cbv beta iota zeta.
  1, 3, 4: unfold failM, after, at_return, destroy_locals; simpl;
           now rewrite ?app_nil_r.
  rewrite bindM_lift. unfold emit at 1, bind at 1.
  destruct (GetBodyAndConstantsAndResources E _ func_name)
    as [[[fbody cs] rs] | s]; unfold or_return, ret, fail;
    cbv beta iota zeta.
  2: { unfold after, at_return, destroy_locals. simpl.
       now rewrite !app_nil_r. }
  rewrite after_after.
  destruct handles as [| th rest]; cbv beta iota zeta; unfold negb.
  - rewrite bindM_retM. now rewrite app_nil_r.
  - now rewrite app_nil_r.
Qed.

End WholeCall.

(** The cases in which the stage check lets a call through. *)
Lemma stage_check_passes (stage : IrExportStage) (dev : Device) :
  device_type dev = DEVICE_CPU \/
  (exists info,
     tensorflow_accelerator_device_info dev = Some info /\
     (stream info <> None \/ from_executable stage = false)) ->
  stage_unsupported stage dev = ([], Ok false).
Proof.
  unfold stage_unsupported. intros [Hcpu | (info & -> & Hok)].
  - now rewrite Hcpu.
  - destruct (negb _); [| reflexivity]. simpl.
    destruct Hok as [Hs | Hs].
    + destruct (stream info); [reflexivity | contradiction].
    + destruct stage; try discriminate Hs; simpl;
        now rewrite andb_false_r.
Qed.

(** ** The locks held along a run *)

Lemma lock_indices_app t1 t2 :
  lock_indices (t1 ++ t2) = lock_indices t1 ++ lock_indices t2.
Proof.
  induction t1 as [| e t1 IH]; simpl; [reflexivity |].
  destruct e; simpl; now rewrite ?IH.
Qed.

Lemma held_at_compilations_app held t1 t2 :
  held_at_compilations held (t1 ++ t2) =
    held_at_compilations held t1 ++
    held_at_compilations (fold_left step_held t1 held) t2.
Proof.
  revert held. induction t1 as [| e t1 IH]; intros held; simpl;
    [reflexivity |].
  now rewrite IH, app_assoc.
Qed.

Lemma before_locks_held t held :
  Forall (fun e => before_locks (phase e) = true) t ->
  lock_indices t = [] /\ fold_left step_held t held = held /\
  held_at_compilations held t = [].
Proof.
  induction 1 as [| e t He _ (IH1 & IH2 & IH3)]; simpl; [auto |].
  destruct e; simpl in *; try discriminate He; auto.
Qed.

Lemma after_locks_held t held :
  Forall (fun e => after_locks (phase e) = true) t ->
  lock_indices t = [] /\ fold_left step_held t held = held /\
  Forall (eq held) (held_at_compilations held t).
Proof.
  induction 1 as [| e t He _ (IH1 & IH2 & IH3)]; simpl; [auto |].
  destruct e; simpl in *; try discriminate He; auto.
Qed.

Lemma held_after_locks ks held :
  lock_indices (map EvLock ks) = ks /\
  fold_left step_held (map EvLock ks) held = held ++ ks /\
  held_at_compilations held (map EvLock ks) = [].
Proof.
  revert held. induction ks as [| k ks IH]; intros held; simpl.
  - now rewrite app_nil_r.
  - destruct (IH (held ++ [k])) as (IH1 & IH2 & IH3).
    rewrite IH1, IH2, IH3, <- app_assoc. auto.
Qed.

Lemma releases_held t held :
  Forall (fun e => is_release e = true) t ->
  lock_indices t = [] /\ held_at_compilations held t = [] /\
  fold_left step_held t held =
    fold_left (fun h idx => release idx h) (unlock_indices t) held.
Proof.
  intros H. revert held.
  induction H as [| e t He _ IH]; intros held; simpl; [auto |].
  destruct e; simpl in *; try discriminate He; apply IH.
Qed.

Lemma release_Permutation idx held : forall unlocked,
  Permutation (idx :: unlocked) held ->
  Permutation unlocked (release idx held).
Proof.
  induction held as [| k rest IH]; intros unlocked Hp; simpl.
  - apply Permutation_sym, Permutation_nil_cons in Hp. contradiction.
  - destruct (k =? idx)%Z eqn:Hk.
    + apply Z.eqb_eq in Hk. subst k. now apply Permutation_cons_inv in Hp.
    + apply Z.eqb_neq in Hk.
      assert (Hin : In k unlocked).
      { assert (Hin : In k (idx :: unlocked)).
        { apply (Permutation_in k (Permutation_sym Hp)). now left. }
        destruct Hin as [Heq | Hin]; [congruence | exact Hin]. }
      apply in_split in Hin as (l1 & l2 & ->).
      assert (Hrest : Permutation (idx :: l1 ++ l2) rest).
      { apply Permutation_cons_inv with (a := k).
        rewrite <- Hp. rewrite perm_swap. apply perm_skip.
        apply Permutation_middle. }
      rewrite <- (IH _ Hrest). symmetry. apply Permutation_middle.
Qed.

Lemma release_all_held unlocked : forall held,
  Permutation unlocked held ->
  fold_left (fun h idx => release idx h) unlocked held = [].
Proof.
  induction unlocked as [| idx rest IH]; intros held Hp; simpl.
  - now apply Permutation_nil in Hp.
  - apply IH. now apply release_Permutation.
Qed.

(** When every lock is granted, every lock is taken. *)
Lemma acquire_all_granted order : forall acquired,
  Forall (fun v => mu_lock (vi_var v) = None) order ->
  acquire_all order acquired = (map EvLock (map vi_index order), Ok tt).
Proof.
  induction order as [| v rest IH]; intros acquired Hall; simpl;
    [reflexivity |].
  inversion Hall as [| ? ? Hv Hrest]; subst. rewrite Hv.
  rewrite (IH (vi_index v :: acquired) Hrest). reflexivity.
Qed.

Lemma insert_by_index_granted (P : VariableInfo -> Prop) v sorted :
  P v -> Forall P sorted -> Forall P (insert_by_index v sorted).
Proof.
  intros Hv. induction 1 as [| w rest Hw Hrest IH]; simpl.
  - now constructor.
  - destruct (vi_index v <=? vi_index w)%Z; repeat constructor; auto.
Qed.

Lemma lock_order_granted (P : VariableInfo -> Prop) infos :
  Forall P infos -> Forall P (lock_order infos).
Proof.
  induction 1 as [| v rest Hv Hrest IH]; simpl; [constructor |].
  now apply insert_by_index_granted.
Qed.

(** Lines 216-239 when the inputs are read, the variables resolve and every
    lock is granted: the locks are taken, in ascending order, and held. *)
Lemma read_and_lock_inputs_granted context rmgr cs rs handles inputs storage
    infos :
  outcome (gather_inputs context cs handles 0 [] []) = Ok (inputs, storage) ->
  outcome (resolve_variables rmgr inputs rs) = Ok infos ->
  Forall (fun v => mu_lock (vi_var v) = None) infos ->
  read_and_lock_inputs context rmgr cs rs handles no_locals =
    (events (gather_inputs context cs handles 0 [] []) ++
     EvGetVariableInfosFromInputs ::
     map EvLock (map vi_index (lock_order infos)),
     {| variable_infos := map hold infos; xla_device_compiler_ref := None |},
     Ok inputs).
Proof.
  intros Hg Hr Hgranted.
  unfold read_and_lock_inputs. rewrite bindM_lift.
  destruct (gather_inputs context cs handles 0 [] []) as [tg rg].
  simpl in Hg. subst rg. cbv beta iota zeta.
  unfold GetVariableInfosFromInputs. m_norm.
  rewrite bindM_lift. unfold emit at 1. m_norm. rewrite bindM_lift.
  destruct (resolve_variables_indices rmgr inputs rs) as [Hrev _].
  destruct (resolve_variables rmgr inputs rs) as [tr rr].
  simpl in Hr, Hrev. subst tr rr.
  m_norm. unfold LockVariables. m_norm. rewrite bindM_lift.
  rewrite (acquire_all_granted (lock_order infos) [])
    by now apply lock_order_granted.
  m_norm. unfold retM, after, events. simpl. now rewrite app_nil_r.
Qed.

Lemma compilations_reached held t e :
  In e t -> is_compilation e = true -> held_at_compilations held t <> [].
Proof.
  revert held. induction t as [| e' t IH]; intros held Hin He; simpl;
    [contradiction |].
  destruct Hin as [-> | Hin].
  - rewrite He. discriminate.
  - destruct (is_compilation e'); [discriminate |]. simpl. now apply IH.
Qed.

Section ValueModeProgress.

Variable E : Collaborators.

(** Once the cache has handed out a compiler instance, a value-mode call
    invokes the Compilation Driver. *)
Lemma compile_and_export_reaches_driver stage function dev flr rmgr fbody cs
    inputs st c :
  outcome (LookupOrCreate rmgr
             (fun _ => BuildXlaDeviceCompiler E dev flr
                         (XlaPlatformInfoFromDevice E dev))) = Ok c ->
  exists args,
    In (EvCompileFunction args)
       (events (at_return
                  (compile_and_export E stage function dev flr rmgr false
                                      fbody cs inputs st))).
Proof.
  intros Hlookup.
  pose proof (compile_and_export_run E stage function dev flr rmgr false fbody
                cs inputs st) as Hrun.
  destruct (LookupOrCreate rmgr _) as [tl r]. simpl in Hlookup. subst r.
  destruct Hrun as (eo & options & _ & ->).
  unfold BuildXlaCompilerArguments, emit, or_return, ret, bind.
  cbv beta iota zeta.
  set (args := imap _ inputs). exists args.
  destruct (CompileFunction E options _ function args) as [result | s].
  - destruct (BuildHLOString_phase (CreateFromProto E) (RenderGraph E) stage
                result (client c) options) as [_ Hdef].
    unfold at_return.
    destruct (outcome (BuildHLOString _ _ stage result (client c) options))
      as [text | s | f]; [| | exfalso; now apply (Hdef f)];
      unfold events; cbn [fst]; rewrite !in_app_iff; simpl;
      rewrite ?in_app_iff; simpl; tauto.
  - unfold at_return, events. cbn [fst]. rewrite !in_app_iff. simpl.
    rewrite ?in_app_iff. simpl. tauto.
Qed.

(** A value-mode call that gets past the stage check, reads its inputs,
    resolves its variables and is granted every lock: the locks taken are
    those of the resolved variables in ascending order, and once the cache
    has handed out a compiler instance the Compilation Driver is invoked
    with all of them held. *)
Lemma value_mode_progress stage pflr func_name dev context handles fbody cs rs
    inputs storage infos :
  handles <> [] ->
  GetBodyAndConstantsAndResources E (GetFLR pflr (device_name dev)) func_name =
    OkValue (fbody, cs, rs) ->
  device_type dev = DEVICE_CPU \/
  (exists info,
     tensorflow_accelerator_device_info dev = Some info /\
     (stream info <> None \/ from_executable stage = false)) ->
  outcome (gather_inputs context cs handles 0 [] []) = Ok (inputs, storage) ->
  outcome (resolve_variables (resource_manager dev) inputs rs) = Ok infos ->
  Forall (fun v => mu_lock (vi_var v) = None) infos ->
  lock_indices (events (GetCompilerIr E stage pflr func_name dev context
                                      handles)) =
    map vi_index (lock_order infos) /\
  forall c,
    outcome (LookupOrCreate (resource_manager dev)
               (fun _ => BuildXlaDeviceCompiler E dev
                           (GetFLR pflr (device_name dev))
                           (XlaPlatformInfoFromDevice E dev))) = Ok c ->
    exists args later,
      In (EvCompileFunction args)
         (events (GetCompilerIr E stage pflr func_name dev context handles)) /\
      held_at_compilations []
        (events (GetCompilerIr E stage pflr func_name dev context handles)) =
        map vi_index (lock_order infos) :: later.
Proof.
  intros Hne Hres Hpass Hg Hr Hgranted.
  rewrite GetCompilerIr_run, (stage_check_passes stage dev Hpass), Hres.
  destruct handles as [| th rest]; [contradiction |].
  remember (th :: rest) as all eqn:Hall. clear Hne.
  rewrite events_at_return_after. unfold bindM.
  rewrite (read_and_lock_inputs_granted context (resource_manager dev) cs rs
             all inputs storage infos Hg Hr Hgranted).
  cbv beta iota zeta. rewrite events_at_return_after.
  pose proof (gather_inputs_phase context cs all 0 [] []) as Hgp.
  apply (Forall_phase before_locks) in Hgp; [| reflexivity].
  set (tg := events (gather_inputs context cs all 0 [] [])) in *.
  set (ks := map vi_index (lock_order infos)).
  destruct (compile_and_export_value_mode E stage func_name dev
              (GetFLR pflr (device_name dev)) (resource_manager dev) fbody cs
              inputs infos) as (t1 & t2 & Heq & H1 & H2 & _ & _).
  assert (Hshape :
    ([] ++ [EvGetBodyAndConstantsAndResources func_name]) ++
    (tg ++ EvGetVariableInfosFromInputs :: map EvLock ks) ++
    events (at_return
              (compile_and_export E stage func_name dev
                 (GetFLR pflr (device_name dev)) (resource_manager dev) false
                 fbody cs inputs
                 {| variable_infos := map hold infos;
                    xla_device_compiler_ref := None |})) =
    (EvGetBodyAndConstantsAndResources func_name ::
     tg ++ [EvGetVariableInfosFromInputs]) ++ map EvLock ks ++ t1 ++ t2).
  { rewrite Heq. simpl. rewrite <- !app_assoc. reflexivity. }
  assert (H0 : Forall (fun e => before_locks (phase e) = true)
                 (EvGetBodyAndConstantsAndResources func_name ::
                  tg ++ [EvGetVariableInfosFromInputs])).
  { constructor; [reflexivity |]. apply Forall_app. split; [exact Hgp |].
    repeat constructor. }
  destruct (before_locks_held _ [] H0) as (L0 & F0 & C0).
  destruct (held_after_locks ks []) as (Lk & Fk & Ck).
  destruct (after_locks_held t1 ks H1) as (L1 & F1 & C1).
  destruct (releases_held t2 ks H2) as (L2 & C2 & F2).
  split.
  - rewrite Hshape, !lock_indices_app, L0, Lk, L1, L2. simpl.
    now rewrite app_nil_r.
  - intros c Hlookup.
    destruct (compile_and_export_reaches_driver stage func_name dev
                (GetFLR pflr (device_name dev)) (resource_manager dev) fbody
                cs inputs
                {| variable_infos := map hold infos;
                   xla_device_compiler_ref := None |} c Hlookup)
      as [args Hin].
    assert (Hin1 : In (EvCompileFunction args) t1).
    { rewrite Heq in Hin. apply in_app_iff in Hin as [Hin | Hin]; [exact Hin |].
      rewrite List.Forall_forall in H2. apply H2 in Hin. discriminate Hin. }
    pose proof (compilations_reached ks t1 _ Hin1 eq_refl) as Hsome.
    destruct (held_at_compilations ks t1) as [| held later] eqn:Hc1;
      [contradiction |].
    inversion C1 as [| ? ? Hheld _]; subst.
    exists args, later. split.
    + rewrite Hshape. rewrite !in_app_iff. tauto.
    + rewrite Hshape, !held_at_compilations_app, ?fold_left_app.
      rewrite C0, F0, Ck, Fk. simpl. now rewrite F1, C2, Hc1, app_nil_r.
Qed.

End ValueModeProgress.

(** C9: in value mode the resource variables are locked in ascending index
    order; whenever the call does compilation work (the Compilation Driver,
    the Executable Builder) the locks of all resource-backed inputs are
    held, none having been released; and when the call returns, with a
    result or with an error, no lock is held any more. And the locks are
    taken: when the call gets past the stage check, reads its inputs,
    resolves its variables and is granted every lock, the locks taken are
    those of all resource-backed inputs, and once the cache has handed out
    a compiler instance the Compilation Driver is invoked, with all of them
    held. *)
Theorem locks_held_through_compilation (E : Collaborators)
    (stage : IrExportStage) (pflr : ProcessFunctionLibraryRuntime)
    (func_name : string) (dev : Device) (context : EagerContext)
    (inputs_handles : list TensorHandle) (fbody : option FunctionBody)
    (constant_arg_indices resource_arg_indices : list Z) :
  inputs_handles <> [] ->
  GetBodyAndConstantsAndResources E (GetFLR pflr (device_name dev)) func_name =
    OkValue (fbody, constant_arg_indices, resource_arg_indices) ->
  let t := events (GetCompilerIr E stage pflr func_name dev context
                                 inputs_handles) in
  StronglySorted Z.le (lock_indices t) /\
  Forall (fun held => held = lock_indices t /\
                      Permutation held resource_arg_indices)
         (held_at_compilations [] t) /\
  held_at_return t = [] /\
  (device_type dev = DEVICE_CPU \/
   (exists info,
      tensorflow_accelerator_device_info dev = Some info /\
      (stream info <> None \/ from_executable stage = false)) ->
   forall inputs storage infos,
     outcome (gather_inputs context constant_arg_indices inputs_handles
                            0 [] []) = Ok (inputs, storage) ->
     outcome (resolve_variables (resource_manager dev) inputs
                                resource_arg_indices) = Ok infos ->
     Forall (fun v => mu_lock (vi_var v) = None) infos ->
     Permutation (lock_indices t) resource_arg_indices /\
     forall c,
       outcome (LookupOrCreate (resource_manager dev)
                  (fun _ => BuildXlaDeviceCompiler E dev
                              (GetFLR pflr (device_name dev))
                              (XlaPlatformInfoFromDevice E dev))) = Ok c ->
       exists args later,
         In (EvCompileFunction args) t /\
         held_at_compilations [] t = lock_indices t :: later).
Proof.
  intros Hne Hres t.
  assert (Hprogress :
    device_type dev = DEVICE_CPU \/
    (exists info,
       tensorflow_accelerator_device_info dev = Some info /\
       (stream info <> None \/ from_executable stage = false)) ->
    forall inputs storage infos,
      outcome (gather_inputs context constant_arg_indices inputs_handles
                             0 [] []) = Ok (inputs, storage) ->
      outcome (resolve_variables (resource_manager dev) inputs
                                 resource_arg_indices) = Ok infos ->
      Forall (fun v => mu_lock (vi_var v) = None) infos ->
      Permutation (lock_indices t) resource_arg_indices /\
      forall c,
        outcome (LookupOrCreate (resource_manager dev)
                   (fun _ => BuildXlaDeviceCompiler E dev
                               (GetFLR pflr (device_name dev))
                               (XlaPlatformInfoFromDevice E dev))) = Ok c ->
        exists args later,
          In (EvCompileFunction args) t /\
          held_at_compilations [] t = lock_indices t :: later).
  { intros Hpass inputs storage infos Hg Hr Hgranted.
    destruct (value_mode_progress E stage pflr func_name dev context
                inputs_handles fbody constant_arg_indices resource_arg_indices
                inputs storage infos Hne Hres Hpass Hg Hr Hgranted)
      as [Hlocks Hdriver].
    subst t. rewrite Hlocks. split; [| exact Hdriver].
    destruct (resolve_variables_indices (resource_manager dev) inputs
                resource_arg_indices) as [_ Hidx].
    rewrite <- (Hidx infos Hr).
    apply Permutation_map, lock_order_Permutation. }
  destruct (value_mode_call E stage pflr func_name dev context inputs_handles
              fbody constant_arg_indices resource_arg_indices Hne Hres)
    as (t0 & ks & t1 & t2 & Ht & H0 & Hks & H1 & H2 & Hu & Hcase).
  revert Hprogress. subst t. rewrite Ht. clear Ht. intros Hprogress.
  destruct (before_locks_held t0 [] H0) as (L0 & F0 & C0).
  destruct (held_after_locks ks []) as (Lk & Fk & Ck).
  destruct (after_locks_held t1 ks H1) as (L1 & F1 & C1).
  destruct (releases_held t2 ks H2) as (L2 & C2 & F2).
  assert (Hlocks : lock_indices (t0 ++ map EvLock ks ++ t1 ++ t2) = ks).
  { rewrite !lock_indices_app, L0, Lk, L1, L2. simpl. now rewrite app_nil_r. }
  rewrite Hlocks in *. split; [exact Hks |]. split; [| split].
  - rewrite !held_at_compilations_app, ?fold_left_app.
    rewrite C0, F0, Ck, Fk. simpl. rewrite F1, C2, app_nil_r.
    destruct Hcase as [-> | (tg & inputs & storage & infos & _ & _ & Hr & -> & _)].
    + constructor.
    + eapply List.Forall_impl; [| exact C1]. simpl. intros held <-.
      split; [reflexivity |].
      destruct (resolve_variables_indices (resource_manager dev) inputs
                  resource_arg_indices) as [_ Hidx].
      rewrite <- (Hidx infos) by now rewrite Hr.
      apply Permutation_map, lock_order_Permutation.
  - unfold held_at_return. rewrite !fold_left_app, F0, Fk. simpl.
    rewrite F1, F2. now apply release_all_held.
  - exact Hprogress.
Qed.

(** ** Value mode: the classification of the inputs *)

Lemma is_constant_index_In cs i : is_constant_index cs i = true <-> In i cs.
Proof.
  unfold is_constant_index. rewrite existsb_exists. split.
  - intros (c & Hc & Heq). apply Z.eqb_eq in Heq. now subst.
  - intros Hin. exists i. split; [exact Hin | apply Z.eqb_refl].
Qed.

Lemma is_resource_index_In infos i :
  is_resource_index (map hold infos) i = true <->
  In i (map vi_index infos).
Proof.
  unfold is_resource_index. rewrite existsb_exists. split.
  - intros (v & Hv & Heq). apply Z.eqb_eq in Heq. subst i.
    apply in_map_iff in Hv as (w & <- & Hw). simpl. now apply in_map.
  - intros Hin. apply in_map_iff in Hin as (w & <- & Hw).
    exists (hold w). split; [now apply in_map | apply Z.eqb_refl].
Qed.

(** C8: in value mode, when the call comes to the Compilation Driver with the
    descriptors [args], there is one descriptor per input; the input at an
    index of the constant-foldable set was copied with [CopyToDevice] into a
    fresh host tensor of its type and shape and the descriptor is made from
    that copy; every other input is used as its handle holds it, without a
    copy; and the kind of the descriptor is Resource at the resource
    indices, Constant at the constant indices and Parameter elsewhere. *)
Theorem value_mode_classification (E : Collaborators) (stage : IrExportStage)
    (pflr : ProcessFunctionLibraryRuntime) (func_name : string) (dev : Device)
    (context : EagerContext) (inputs_handles : list TensorHandle)
    (fbody : option FunctionBody)
    (constant_arg_indices resource_arg_indices : list Z)
    (args : list Argument) :
  inputs_handles <> [] ->
  GetBodyAndConstantsAndResources E (GetFLR pflr (device_name dev)) func_name =
    OkValue (fbody, constant_arg_indices, resource_arg_indices) ->
  StronglySorted Z.le constant_arg_indices ->
  (forall i, In i constant_arg_indices -> ~ In i resource_arg_indices) ->
  In (EvCompileFunction args)
     (events (GetCompilerIr E stage pflr func_name dev context
                            inputs_handles)) ->
  length args = length inputs_handles /\
  forall i th, inputs_handles !! i = Some th ->
    exists t input arg,
      th_Tensor th = OkValue t /\
      args !! i = Some arg /\
      type arg = dtype input /\ shape arg = tensor_shape input /\
      (In (Z.of_nat i) constant_arg_indices ->
       th_CopyToDevice th context None
                       (new_Tensor (dtype t) (tensor_shape t)) =
         OkValue input /\
       In (EvCopyToDevice i)
          (events (GetCompilerIr E stage pflr func_name dev context
                                 inputs_handles))) /\
      (~ In (Z.of_nat i) constant_arg_indices ->
       input = t /\
       ~ In (EvCopyToDevice i)
            (events (GetCompilerIr E stage pflr func_name dev context
                                   inputs_handles))) /\
      (In (Z.of_nat i) resource_arg_indices -> kind arg = kResource) /\
      (In (Z.of_nat i) constant_arg_indices -> kind arg = kConstant) /\
      (~ In (Z.of_nat i) resource_arg_indices ->
       ~ In (Z.of_nat i) constant_arg_indices -> kind arg = kParameter).
Proof.
  intros Hne Hres Hsorted Hdisjoint Hin.
  destruct (value_mode_call E stage pflr func_name dev context inputs_handles
              fbody constant_arg_indices resource_arg_indices Hne Hres)
    as (t0 & ks & t1 & t2 & Ht & H0 & Hks & H1 & H2 & Hu & Hcase).
  rewrite Ht in *. clear Ht.
  assert (Hin1 : In (EvCompileFunction args) t1).
  { rewrite !in_app_iff in Hin. destruct Hin as [Hin | [Hin | [Hin | Hin]]].
    - rewrite List.Forall_forall in H0. apply H0 in Hin. discriminate Hin.
    - apply in_map_iff in Hin as (k & Hk & _). discriminate Hk.
    - exact Hin.
    - rewrite List.Forall_forall in H2. apply H2 in Hin. discriminate Hin. }
  destruct Hcase as [-> | (tg & inputs & storage & infos & Hg & -> & Hr & -> & Hargs)];
    [contradiction |].
  specialize (Hargs args Hin1). unfold BuildXlaCompilerArguments in Hargs.
  inversion Hargs as [Heq]. clear Hargs.
  destruct (gather_inputs_inputs context constant_arg_indices inputs_handles
              0 [] [] tg inputs storage Hg)
    as (added & stored & Hinputs & _ & Hlen & Hcopies & Hall).
  simpl in Hinputs. subst added.
  destruct (resolve_variables_indices (resource_manager dev) inputs
              resource_arg_indices) as [_ Hidx].
  specialize (Hidx infos ltac:(now rewrite Hr)).
  split; [now rewrite length_imap |].
  intros i th Hth. destruct (Hall i th Hth) as (t & Htensor & Hcase).
  simpl in Hcase.
  assert (Hsearch : c_binary_search constant_arg_indices (Z.of_nat i) = true
                    <-> In (Z.of_nat i) constant_arg_indices)
    by now apply c_binary_search_In.
  assert (Hnocopy : forall l, ~ In (EvCopyToDevice i) (map EvLock l)).
  { intros l Hl. apply in_map_iff in Hl as (k & Hk & _). discriminate Hk. }
  assert (Hkinds : forall input,
    inputs !! i = Some input ->
    exists arg,
      imap (fun input_num input =>
              {| kind :=
                   if is_resource_index (map hold infos) (Z.of_nat input_num)
                   then kResource
                   else if is_constant_index constant_arg_indices
                                             (Z.of_nat input_num)
                   then kConstant else kParameter;
                 type := dtype input; shape := tensor_shape input;
                 name := EmptyString |}) inputs !! i = Some arg /\
      type arg = dtype input /\ shape arg = tensor_shape input /\
      (In (Z.of_nat i) resource_arg_indices -> kind arg = kResource) /\
      (In (Z.of_nat i) constant_arg_indices -> kind arg = kConstant) /\
      (~ In (Z.of_nat i) resource_arg_indices ->
       ~ In (Z.of_nat i) constant_arg_indices -> kind arg = kParameter)).
  { intros input Hinput. eexists. rewrite list_lookup_imap, Hinput.
    split; [reflexivity |]. simpl. split; [reflexivity |].
    split; [reflexivity |].
    pose proof (is_resource_index_In infos (Z.of_nat i)) as Hres_iff.
    rewrite Hidx in Hres_iff.
    pose proof (is_constant_index_In constant_arg_indices (Z.of_nat i))
      as Hconst_iff.
    destruct (is_resource_index (map hold infos) (Z.of_nat i)) eqn:Hri;
      destruct (is_constant_index constant_arg_indices (Z.of_nat i)) eqn:Hci.
    - exfalso. apply (Hdisjoint (Z.of_nat i)); tauto.
    - repeat split; try tauto. intros Hc. apply Hconst_iff in Hc.
      discriminate Hc.
    - repeat split; try tauto. intros Hrs. apply Hres_iff in Hrs.
      discriminate Hrs.
    - repeat split.
      + intros Hrs. apply Hres_iff in Hrs. discriminate Hrs.
      + intros Hc. apply Hconst_iff in Hc. discriminate Hc. }
  destruct (c_binary_search constant_arg_indices (Z.of_nat i)) eqn:Hb.
  - destruct Hcase as (copy & Hcopy & Hadded & _ & Hev).
    destruct (Hkinds copy Hadded) as (arg & Harg & Hty & Hsh & Hk).
    exists t, copy, arg. split; [exact Htensor |]. split; [exact Harg |].
    split; [exact Hty |]. split; [exact Hsh |].
    split; [| split; [| exact Hk]].
    + intros _. split; [exact Hcopy |].
      simpl. right. rewrite !in_app_iff. left. left. exact Hev.
    + intros Hn. exfalso. apply Hn. now apply Hsearch.
  - destruct (Hkinds t Hcase) as (arg & Harg & Hty & Hsh & Hk).
    exists t, t, arg. split; [exact Htensor |]. split; [exact Harg |].
    split; [exact Hty |]. split; [exact Hsh |].
    split; [| split; [| exact Hk]].
    + intros Hc. apply Hsearch in Hc. discriminate Hc.
    + intros _. split; [reflexivity |].
      simpl. intros [Hx | Hx]; [discriminate Hx |].
      rewrite !in_app_iff in Hx.
      destruct Hx as [[Hx | Hx] | [Hx | [Hx | Hx]]].
      * destruct (Hcopies i Hx) as [_ Hc]. congruence.
      * destruct Hx as [Hx | []]. discriminate Hx.
      * now apply Hnocopy in Hx.
      * rewrite List.Forall_forall in H1. apply H1 in Hx. discriminate Hx.
      * rewrite List.Forall_forall in H2. apply H2 in Hx. discriminate Hx.
Qed.

(** The function "g" on four inputs: index 1 constant-foldable, indices 0
    and 3 resource-backed, index 2 an ordinary parameter. *)
Lemma value_mode_classification_witness :
  let run := GetCompilerIr Sample.collaborators HLO Sample.pflr "g"
                           Sample.cpu Sample.context Sample.four_inputs in
  length Sample.four_descriptors = length Sample.four_inputs /\
  forall i th, Sample.four_inputs !! i = Some th ->
    exists t input arg,
      th_Tensor th = OkValue t /\
      Sample.four_descriptors !! i = Some arg /\
      type arg = dtype input /\ shape arg = tensor_shape input /\
      (In (Z.of_nat i) [1%Z] ->
       th_CopyToDevice th Sample.context None
                       (new_Tensor (dtype t) (tensor_shape t)) =
         OkValue input /\
       In (EvCopyToDevice i) (events run)) /\
      (~ In (Z.of_nat i) [1%Z] ->
       input = t /\ ~ In (EvCopyToDevice i) (events run)) /\
      (In (Z.of_nat i) [0%Z; 3%Z] -> kind arg = kResource) /\
      (In (Z.of_nat i) [1%Z] -> kind arg = kConstant) /\
      (~ In (Z.of_nat i) [0%Z; 3%Z] ->
       ~ In (Z.of_nat i) [1%Z] -> kind arg = kParameter).
Proof.
  intros run.
  apply (value_mode_classification Sample.collaborators HLO Sample.pflr "g"
           Sample.cpu Sample.context Sample.four_inputs
           (Some Sample.two_floats) [1%Z] [0%Z; 3%Z] Sample.four_descriptors).
  - discriminate.
  - reflexivity.
  - repeat constructor.
  - intros i [<- | []] [H | [H | []]]; discriminate H.
  - vm_compute. do 12 right. left. reflexivity.
Defined.

(** The same call at a stage that builds an executable: the locks of the
    inputs 0 and 3 are taken, and both the Compilation Driver and the
    Executable Builder run with the two of them held. *)
Lemma locks_held_through_compilation_witness :
  let t := events (GetCompilerIr Sample.collaborators OPTIMIZED_HLO
                                 Sample.pflr "g" Sample.cpu Sample.context
                                 Sample.four_inputs) in
  StronglySorted Z.le (lock_indices t) /\
  Forall (fun held => held = lock_indices t /\
                      Permutation held [0%Z; 3%Z])
         (held_at_compilations [] t) /\
  held_at_return t = [] /\
  Permutation (lock_indices t) [0%Z; 3%Z] /\
  (exists args later,
     In (EvCompileFunction args) t /\
     held_at_compilations [] t = lock_indices t :: later) /\
  lock_indices t = [0%Z; 3%Z] /\
  held_at_compilations [] t = [[0%Z; 3%Z]; [0%Z; 3%Z]].
Proof.
  intros t.
  destruct (locks_held_through_compilation Sample.collaborators OPTIMIZED_HLO
              Sample.pflr "g" Sample.cpu Sample.context Sample.four_inputs
              (Some Sample.two_floats) [1%Z] [0%Z; 3%Z])
    as (Hsorted & Hheld & Hreturn & Hprogress);
    [discriminate | reflexivity |].
  edestruct (Hprogress (or_introl eq_refl)) as [Hall Hdriver];
    [vm_compute; reflexivity | vm_compute; reflexivity | repeat constructor |].
  split; [exact Hsorted |]. split; [exact Hheld |].
  split; [exact Hreturn |]. split; [exact Hall |].
  split; [exact (Hdriver {| client := Sample.local_client |} eq_refl) |].
  split; vm_compute; reflexivity.
Defined.

(** * Further properties of the code *)

(** ** BuildExecutable *)

Lemma layouts_filled (shapes : list XlaShape) rounds : forall layouts,
  length (fold_left (fun layouts i => <[i := shapes !! i]> layouts)
                    rounds layouts) = length layouts /\
  (forall j, ~ In j rounds ->
     fold_left (fun layouts i => <[i := shapes !! i]> layouts) rounds layouts
       !! j = layouts !! j) /\
  (forall j, In j rounds -> j < length layouts ->
     fold_left (fun layouts i => <[i := shapes !! i]> layouts) rounds layouts
       !! j = Some (shapes !! j)).
Proof.
  induction rounds as [| r later IH]; intros layouts; simpl.
  - repeat split; auto. intros j [].
  - destruct (IH (<[r := shapes !! r]> layouts)) as (Hlen & Hkeep & Hget).
    rewrite length_insert in Hlen, Hget.
    split; [exact Hlen |]. split.
    + intros j Hj. rewrite Hkeep by tauto.
      apply list_lookup_insert_ne. tauto.
    + intros j [-> | Hj] Hlt.
      * destruct (in_dec Nat.eq_dec j later) as [Hin | Hnin].
        -- now apply Hget.
        -- rewrite Hkeep by exact Hnin. now apply list_lookup_insert_eq.
      * now apply Hget.
Qed.

(** X1: the layouts handed to the compiler client are the input shapes of the
    compilation result, one per shape and in their order, and none of them is
    a null pointer. *)
Theorem argument_layouts_are_input_shapes (result : CompilationResult) :
  argument_layouts_of result = map Some (xla_input_shapes result).
Proof.
  unfold argument_layouts_of.
  set (shapes := xla_input_shapes result).
  destruct (layouts_filled shapes (seq 0 (length shapes))
              (replicate (length shapes) None)) as (Hlen & Hkeep & Hget).
  rewrite length_replicate in Hlen, Hget.
  apply list_eq. intros j. rewrite list_lookup_fmap.
  destruct (Nat.lt_ge_cases j (length shapes)) as [Hlt | Hge].
  - rewrite Hget; [| apply in_seq; lia | exact Hlt].
    destruct (lookup_lt_is_Some_2 shapes j Hlt) as [x ->]. reflexivity.
  - rewrite (lookup_ge_None_2 shapes) by exact Hge.
    apply lookup_ge_None_2. lia.
Qed.

(** X2: what [BuildExecutable] answers. The client is asked once, with the
    device ordinal of the options unless that is -1, in which case the
    client's default ordinal is sent, and with a replica count only when the
    result carries collective info. An error of the client is returned as it
    is, exactly one executable is returned as the result, and any other
    number of executables is an Internal error. *)
Theorem build_executable_outcome (local_client : LocalClient)
    (result : CompilationResult) (options : Options) (embed : bool) :
  exists sent,
    events (BuildExecutable local_client result options embed) =
      [EvCompile sent] /\
    build_device_ordinal sent =
      Some (if (device_ordinal options =? -1)%Z
            then default_device_ordinal local_client
            else device_ordinal options) /\
    num_replicas sent = option_map group_size (collective_info result) /\
    outcome (BuildExecutable local_client result options embed) =
      match Compile local_client (computation result)
                    (argument_layouts_of result) sent with
      | NotOk s => Err s
      | OkValue [built] => Ok built
      | OkValue _ => Err (errors_Internal "executables.size() == 1")
      end.
Proof.
  unfold BuildExecutable.
  set (sent := set_xla_embed_ir_in_executable embed _).
  exists sent. split; [| split; [| split]].
  - simpl.
    destruct (Compile local_client _ _ sent) as [[| e [| e' l]] | err];
      reflexivity.
  - subst sent. simpl. destruct (device_ordinal options =? -1)%Z;
      destruct (collective_info result); reflexivity.
  - subst sent. simpl. destruct (collective_info result); reflexivity.
  - simpl.
    destruct (Compile local_client _ _ sent) as [[| e [| e' l]] | err];
      reflexivity.
Qed.

(** ** BuildHLOString *)

Section ExporterOutputs.

Variable create : HloModuleProto -> HloModuleConfig -> StatusOr HloModule.
Variable render :
  HloComputation -> string -> RenderedGraphFormat -> StatusOr string.

(** X3: the exporter does not reinterpret errors. An error it returns is the
    error of the program-shape query, of the module construction, of the
    client's compilation or of the graph rendering, or it is the Internal
    error of the executable-count check. *)
Theorem exporter_error_provenance (stage : IrExportStage)
    (result : CompilationResult) (local_client : LocalClient)
    (options : Options) (s : Status) :
  outcome (BuildHLOString create render stage result local_client options) =
    Err s ->
  GetProgramShape (computation result) = NotOk s \/
  (exists config, create (proto (computation result)) config = NotOk s) \/
  (exists sent,
     Compile local_client (computation result) (argument_layouts_of result)
             sent = NotOk s) \/
  (exists executables,
     length executables <> 1 /\
     (exists sent,
        Compile local_client (computation result)
                (argument_layouts_of result) sent = OkValue executables) /\
     s = errors_Internal "executables.size() == 1") \/
  (exists entry, render entry "Visualization" kDot = NotOk s).
Proof.
  assert (Hb : forall embed,
    outcome (BuildExecutable local_client result options embed) = Err s ->
    (exists sent,
       Compile local_client (computation result) (argument_layouts_of result)
               sent = NotOk s) \/
    (exists executables,
       length executables <> 1 /\
       (exists sent,
          Compile local_client (computation result)
                  (argument_layouts_of result) sent = OkValue executables) /\
       s = errors_Internal "executables.size() == 1")).
  { intros embed. unfold BuildExecutable.
    set (sent := set_xla_embed_ir_in_executable embed _). simpl.
    destruct (Compile local_client _ _ sent) as [[| e [| e' l]] | err] eqn:Hc;
      simpl; intros H; inversion H; subst.
    - right. exists []. split; [simpl; lia |]. split; [now exists sent | reflexivity].
    - right. exists (e :: e' :: l). split; [simpl; lia |].
      split; [now exists sent | reflexivity].
    - left. now exists sent. }
  destruct stage; simpl.
  1-3: destruct (GetProgramShape (computation result)) as [shape_ | err] eqn:Hp;
       simpl; [| intros H; inversion H; subst; now left];
       destruct (create _ _) as [m | err] eqn:Hm; simpl; intros H;
       inversion H; subst; right; left; eexists; exact Hm.
  1-3: match goal with
       | |- context [BuildExecutable _ _ _ ?embed] =>
           specialize (Hb embed);
           destruct (BuildExecutable local_client result options embed)
             as [t [built | err | f]]
       end; simpl in *; intros H; inversion H; subst;
       destruct (Hb eq_refl) as [Hc | Hc]; auto.
  specialize (Hb default_xla_embed_ir_in_executable).
  destruct (BuildExecutable local_client result options
              default_xla_embed_ir_in_executable) as [t [built | err | f]];
    simpl in *.
  - destruct (render _ _ _) as [graph | err] eqn:Hr; simpl; intros H;
      inversion H; subst. do 4 right. eexists. exact Hr.
  - intros H. inversion H; subst. destruct (Hb eq_refl) as [Hc | Hc]; auto.
  - discriminate.
Qed.

(** X4: the three stages that export the program as compiled. Once the
    program shape and the module are there, HLO_SERIALIZED returns the
    module's proto serialized, and the two text stages return the module's
    text, printed without metadata exactly for HLO_NO_METADATA; the compiler
    client is not asked. *)
Theorem from_program_output (stage : IrExportStage)
    (result : CompilationResult) (local_client : LocalClient)
    (options : Options) (shape_ : ProgramShape) (m : HloModule) :
  from_executable stage = false ->
  GetProgramShape (computation result) = OkValue shape_ ->
  create (proto (computation result))
         {| entry_computation_layout := shape_ |} = OkValue m ->
  BuildHLOString create render stage result local_client options =
    ([EvGetProgramShape; EvCreateFromProto],
     Ok (if stage_eqb stage HLO_SERIALIZED
         then HloModuleProto_SerializeAsString (HloModule_ToProto m)
         else HloModule_ToString m
                {| print_metadata :=
                     negb (stage_eqb stage HLO_NO_METADATA) |})).
Proof.
  intros Hstage Hshape Hm.
  destruct stage; try discriminate Hstage; simpl; rewrite Hshape; simpl;
    rewrite Hm; reflexivity.
Qed.

(** X5: the four stages that export from the executable. Once the executable
    is built, OPTIMIZED_HLO returns the text of its module with the default
    print options, OPTIMIZED_HLO_SERIALIZED the module's proto serialized,
    OPTIMIZED_HLO_PROTO_SERIALIZED the embedded HLO proto serialized, and
    OPTIMIZED_HLO_DOT what the rendering of the module's entry computation
    under the label "Visualization" in the dot format answers, be it a graph
    or an error. *)
Theorem from_executable_output (stage : IrExportStage)
    (result : CompilationResult) (local_client : LocalClient)
    (options : Options) (built : LocalExecutable) :
  from_executable stage = true ->
  outcome (BuildExecutable local_client result options
             (stage_eqb stage OPTIMIZED_HLO_PROTO_SERIALIZED)) = Ok built ->
  outcome (BuildHLOString create render stage result local_client options) =
    match stage with
    | OPTIMIZED_HLO_SERIALIZED =>
        Ok (HloModuleProto_SerializeAsString
              (HloModule_ToProto (executable_module (executable built))))
    | OPTIMIZED_HLO_PROTO_SERIALIZED =>
        Ok (HloProto_SerializeAsString (hlo_proto (executable built)))
    | OPTIMIZED_HLO_DOT =>
        match render (entry_computation
                        (executable_module (executable built)))
                     "Visualization" kDot with
        | OkValue graph => Ok graph
        | NotOk s => Err s
        end
    | _ =>
        Ok (HloModule_ToString (executable_module (executable built))
                               default_HloPrintOptions)
    end.
Proof.
  intros Hstage Hbuilt.
  destruct stage; try discriminate Hstage; simpl in Hbuilt |- *;
    change default_xla_embed_ir_in_executable with false;
    destruct (BuildExecutable local_client result options _)
      as [t [b | err | f]]; simpl in Hbuilt; inversion Hbuilt; subst;
    simpl; try reflexivity.
  destruct (render _ _ _); reflexivity.
Qed.

End ExporterOutputs.

(** ** BuildXlaCompilerArgumentFromFuncBody *)

Lemma outcome_bind_Ok {A B} (m : T A) (k : A -> T B) (b : B) :
  outcome (bind m k) = Ok b ->
  exists a, outcome m = Ok a /\ outcome (k a) = Ok b.
Proof.
  destruct m as [t [a | s | f]]; simpl; try discriminate.
  destruct (k a) as [t' r] eqn:Hk. simpl. intros ->.
  exists a. rewrite Hk. auto.
Qed.

Lemma outcome_bind_Err {A B} (m : T A) (k : A -> T B) (s : Status) :
  outcome (bind m k) = Err s ->
  outcome m = Err s \/ exists a, outcome m = Ok a /\ outcome (k a) = Err s.
Proof.
  destruct m as [t [a | s' | f]]; simpl; try discriminate.
  - destruct (k a) as [t' r] eqn:Hk. simpl. intros ->.
    right. exists a. rewrite Hk. auto.
  - intros H. left. now inversion H.
Qed.

Lemma outcome_bind_Undefined {A B} (m : T A) (k : A -> T B) (f : Fault) :
  outcome m = Undefined f -> outcome (bind m k) = Undefined f.
Proof.
  destruct m as [t [a | s' | f']]; simpl; try discriminate.
  intros H. now inversion H.
Qed.

Section SpecModeSoundness.

Variable parse : TensorShapeProto -> StatusOr TensorShape.

Lemma repeated_element_Ok {A} c (field : list A) idx x :
  outcome (repeated_element c field idx) = Ok x -> field !! idx = Some x.
Proof.
  unfold repeated_element. simpl.
  destruct (field !! idx); simpl; intros H; inversion H; auto.
Qed.

Lemma element_address_Ok {A} c (v : vector A) idx u :
  outcome (element_address c v idx) = Ok u -> idx < capacity v.
Proof.
  unfold element_address. simpl.
  destruct (idx <? capacity v) eqn:Hlt; simpl; [| discriminate].
  intros _. now apply Nat.ltb_lt.
Qed.

Lemma or_return_Ok {A} (r : StatusOr A) x :
  outcome (or_return r) = Ok x -> r = OkValue x.
Proof. destruct r; simpl; intros H; inversion H; auto. Qed.

Lemma or_return_Err {A} (r : StatusOr A) s :
  outcome (or_return r) = Err s -> r = NotOk s.
Proof. destruct r; simpl; intros H; inversion H; auto. Qed.

(** A slot that holds a shape after the inner loop held it before, or is the
    slot of the entry and holds a shape converted from an annotation. *)
Lemma scan_attr_values_writes idx attr_values : forall shapes has shapes' has',
  outcome (scan_attr_values parse idx attr_values shapes has) =
    Ok (shapes', has') ->
  capacity shapes' = capacity shapes /\
  (has' = false ->
   has = false /\ forall v, ~ In ("_output_shapes", v) attr_values) /\
  forall j s, v_slots shapes' !! j = Some (Some s) ->
    v_slots shapes !! j = Some (Some s) \/
    (j = idx /\
     exists v p, In ("_output_shapes", v) attr_values /\
                 list_shape v !! 0 = Some p /\ parse p = OkValue s).
Proof.
  induction attr_values as [| [first second] rest IH];
    intros shapes has shapes' has' H; simpl in H.
  - inversion H; subst. repeat split; auto.
  - destruct (String.eqb first "_output_shapes") eqn:Heq.
    + apply String.eqb_eq in Heq. subst first.
      apply outcome_bind_Ok in H as (proto & Hp & H).
      apply outcome_bind_Ok in H as (u & Ha & H).
      apply outcome_bind_Ok in H as (s0 & Hs & H).
      apply repeated_element_Ok in Hp.
      apply element_address_Ok in Ha.
      apply or_return_Ok in Hs.
      apply IH in H as (Hcap & Hhas & Hslots).
      rewrite store_capacity in Hcap.
      split; [exact Hcap |]. split.
      * intros Hf. destruct (Hhas Hf) as [Hno _]. discriminate Hno.
      * intros j s Hj. destruct (Hslots j s Hj) as [Hold | (-> & v & p & Hv & Hpv & Hsv)].
        -- simpl in Hold. destruct (Nat.eq_dec j idx) as [-> | Hne].
           ++ rewrite list_lookup_insert_eq in Hold by exact Ha.
              inversion Hold; subst. right. split; [reflexivity |].
              exists second, proto. simpl. auto.
           ++ rewrite list_lookup_insert_ne in Hold by auto. now left.
        -- right. split; [reflexivity |]. exists v, p. simpl. auto.
    + apply IH in H as (Hcap & Hhas & Hslots).
      split; [exact Hcap |]. split.
      * intros Hf. destruct (Hhas Hf) as [Hno Hrest]. split; [exact Hno |].
        intros v [Hv | Hv]; [| now apply (Hrest v)].
        inversion Hv; subst. now rewrite String.eqb_refl in Heq.
      * intros j s Hj. destruct (Hslots j s Hj) as [Hold | (-> & v & p & Hv & Hpv & Hsv)];
          [now left |].
        right. split; [reflexivity |]. exists v, p. simpl. auto.
Qed.

Lemma scan_arg_attrs_writes entries : forall shapes shapes',
  outcome (scan_arg_attrs parse entries shapes) = Ok shapes' ->
  capacity shapes' = capacity shapes /\
  forall j s, v_slots shapes' !! j = Some (Some s) ->
    v_slots shapes !! j = Some (Some s) \/
    exists a v p, In (j, a) entries /\ In ("_output_shapes", v) (attr a) /\
                  list_shape v !! 0 = Some p /\ parse p = OkValue s.
Proof.
  induction entries as [| [idx a] rest IH]; intros shapes shapes' H;
    simpl in H.
  - inversion H; subst. auto.
  - apply outcome_bind_Ok in H as ([mid has] & Hin & H).
    apply outcome_bind_Ok in H as (u & _ & H).
    apply scan_attr_values_writes in Hin as (Hcap1 & _ & Hs1).
    apply IH in H as (Hcap2 & Hs2).
    split; [congruence |].
    intros j s Hj.
    destruct (Hs2 j s Hj) as [Hmid | (a' & v & p & Ha & Hv & Hp & Hs)].
    + destruct (Hs1 j s Hmid) as [Hold | (-> & v & p & Hv & Hp & Hs)];
        [now left |].
      right. exists a, v, p. simpl. auto.
    + right. exists a', v, p. simpl. auto.
Qed.

(** The loop that fills [args] ends with a result only if every round found
    its signature argument and a stored shape. *)
Lemma fill_args_reads input_args shapes rounds : forall args args',
  outcome (fill_args input_args shapes rounds args) = Ok args' ->
  length args' = length args /\
  (forall j, ~ In j rounds -> args' !! j = args !! j) /\
  forall r, In r rounds -> r < length args ->
    exists input s,
      input_args !! r = Some input /\
      v_slots shapes !! r = Some (Some s) /\
      args' !! r = Some (parameter_of input s).
Proof.
  induction rounds as [| r0 later IH]; intros args args' H; simpl in H.
  - inversion H; subst. repeat split; auto. intros r [].
  - apply outcome_bind_Ok in H as (mid & Hround & H).
    unfold fill_arg in Hround.
    destruct (input_args !! r0) as [input0 |] eqn:Hi0; [| discriminate].
    apply outcome_bind_Ok in Hround as (s0 & Hs0 & Hmid).
    unfold element in Hs0.
    apply outcome_bind_Ok in Hs0 as (u & _ & Hs0).
    destruct (v_slots shapes !! r0) as [[s0' |] |] eqn:Hslot;
      simpl in Hs0; inversion Hs0; subst s0'.
    simpl in Hmid. inversion Hmid; subst mid. clear Hmid Hs0.
    apply IH in H as (Hlen & Hkeep & Hget).
    rewrite length_insert in Hlen, Hget.
    split; [exact Hlen |]. split.
    + intros j Hj. simpl in Hj. rewrite Hkeep by tauto.
      apply list_lookup_insert_ne. tauto.
    + intros r [<- | Hr] Hlt.
      * destruct (in_dec Nat.eq_dec r0 later) as [Hin | Hnin].
        -- now apply Hget.
        -- exists input0, s0. repeat split; auto.
           rewrite Hkeep by exact Hnin.
           now apply list_lookup_insert_eq.
      * now apply Hget.
Qed.

Lemma scan_attr_values_errors idx attr_values : forall shapes has s,
  outcome (scan_attr_values parse idx attr_values shapes has) = Err s ->
  exists v p, In ("_output_shapes", v) attr_values /\
              list_shape v !! 0 = Some p /\ parse p = NotOk s.
Proof.
  induction attr_values as [| [first second] rest IH]; intros shapes has s H;
    simpl in H; [discriminate |].
  destruct (String.eqb first "_output_shapes") eqn:Heq.
  - apply String.eqb_eq in Heq. subst first.
    apply outcome_bind_Err in H as [H | (proto & Hp & H)].
    { unfold repeated_element in H. simpl in H.
      destruct (list_shape second !! 0); discriminate. }
    apply repeated_element_Ok in Hp.
    apply outcome_bind_Err in H as [H | (u & _ & H)].
    { unfold element_address in H. simpl in H.
      destruct (idx <? capacity shapes); discriminate. }
    apply outcome_bind_Err in H as [H | (s0 & _ & H)].
    + apply or_return_Err in H. exists second, proto. simpl. auto.
    + apply IH in H as (v & p & Hv & Hp' & Hs). exists v, p. simpl. auto.
  - apply IH in H as (v & p & Hv & Hp' & Hs). exists v, p. simpl. auto.
Qed.

Lemma scan_arg_attrs_errors entries : forall shapes s,
  outcome (scan_arg_attrs parse entries shapes) = Err s ->
  (s = errors_Internal "has_function_input_shape" /\
   exists idx a, In (idx, a) entries /\ lacks_annotation a) \/
  (exists idx a v p,
     In (idx, a) entries /\ In ("_output_shapes", v) (attr a) /\
     list_shape v !! 0 = Some p /\ parse p = NotOk s).
Proof.
  induction entries as [| [idx a] rest IH]; intros shapes s H; simpl in H;
    [discriminate |].
  apply outcome_bind_Err in H as [H | ([mid has] & Hin & H)].
  { apply scan_attr_values_errors in H as (v & p & Hv & Hp & Hs).
    right. exists idx, a, v, p. simpl. auto. }
  apply outcome_bind_Err in H as [H | (u & _ & H)].
  - destruct has; simpl in H; [discriminate |]. inversion H; subst.
    apply scan_attr_values_writes in Hin as (_ & Hhas & _).
    left. split; [reflexivity |]. exists idx, a. simpl.
    split; [now left |]. now destruct (Hhas eq_refl).
  - apply IH in H as [(-> & idx' & a' & Ha & Hlack)
                     | (idx' & a' & v & p & Ha & Hv & Hp & Hs)].
    + left. split; [reflexivity |]. exists idx', a'. simpl. auto.
    + right. exists idx', a', v, p. simpl. auto.
Qed.

Lemma fill_args_no_error input_args shapes rounds : forall args s,
  outcome (fill_args input_args shapes rounds args) <> Err s.
Proof.
  induction rounds as [| r0 later IH]; intros args s H; simpl in H;
    [discriminate |].
  apply outcome_bind_Err in H as [H | (mid & _ & H)].
  - unfold fill_arg in H.
    destruct (input_args !! r0); [| discriminate].
    apply outcome_bind_Err in H as [H | (s0 & _ & H)]; [| discriminate].
    unfold element in H.
    apply outcome_bind_Err in H as [H | (u & _ & H)].
    + unfold element_address in H. simpl in H.
      destruct (r0 <? capacity shapes); discriminate.
    + destruct (v_slots shapes !! r0) as [[x |] |]; discriminate.
  - now apply IH in H.
Qed.

(** What a returned list of descriptors consists of. *)
Lemma spec_mode_result (f : FunctionDef) (args : list Argument) :
  outcome (BuildXlaCompilerArgumentFromFuncBody parse
             (Some {| fdef := f |})) = Ok args ->
  length args = length (input_arg f) /\
  forall i input,
    input_arg f !! i = Some input ->
    exists p s,
      annotated_with f i p /\ parse p = OkValue s /\
      args !! i = Some (parameter_of input s).
Proof.
  unfold BuildXlaCompilerArgumentFromFuncBody. simpl.
  destruct (length (arg_attr f) =? length (input_arg f)) eqn:Hlen; simpl;
    [| discriminate].
  intros H.
  apply outcome_bind_Ok in H as (shapes & Hscan & Hfill).
  apply scan_arg_attrs_writes in Hscan as (_ & Hslots).
  apply fill_args_reads in Hfill as (Hargs & _ & Hget).
  rewrite length_replicate in Hargs, Hget.
  split; [exact Hargs |].
  intros i input Hinput.
  assert (Hi : i < length (input_arg f)).
  { apply lookup_lt_Some in Hinput. exact Hinput. }
  destruct (Hget i) as (input' & s & Hinput' & Hslot & Harg);
    [apply in_seq; lia | exact Hi |].
  assert (input' = input) as -> by congruence.
  destruct (Hslots i s Hslot) as [Hold | (a & v & p & Ha & Hv & Hp & Hs)].
  - unfold reserve in Hold. simpl in Hold.
    apply lookup_replicate in Hold as [Hold _]. discriminate Hold.
  - exists p, s. split; [| auto]. exists a, v. auto.
Qed.

End SpecModeSoundness.

(** X7: a list of descriptors that the spec-mode builder returns is sound,
    for every function body and every shape converter: the body is not null,
    it has as many annotation entries as arguments, the list has one
    descriptor per argument, and the descriptor at index [i] is a Parameter
    with the type and the name of argument [i] and with a shape that the
    converter made of a shape annotation of [i]. No descriptor is left at its
    default and no shape is invented. *)
Theorem spec_mode_result_sound
    (parse : TensorShapeProto -> StatusOr TensorShape)
    (fbody : option FunctionBody) (args : list Argument) :
  outcome (BuildXlaCompilerArgumentFromFuncBody parse fbody) = Ok args ->
  exists body,
    fbody = Some body /\
    length (arg_attr (fdef body)) = length (input_arg (fdef body)) /\
    length args = length (input_arg (fdef body)) /\
    forall i input,
      input_arg (fdef body) !! i = Some input ->
      exists p s,
        annotated_with (fdef body) i p /\ parse p = OkValue s /\
        args !! i = Some (parameter_of input s).
Proof.
  destruct fbody as [[f] |]; [| discriminate].
  intros H. exists {| fdef := f |}. cbn [fdef].
  split; [reflexivity |]. split.
  - unfold BuildXlaCompilerArgumentFromFuncBody in H. simpl in H.
    destruct (length (arg_attr f) =? length (input_arg f)) eqn:Hlen;
      [| discriminate].
    now apply Nat.eqb_eq.
  - now apply spec_mode_result.
Qed.

(** [Sample.two_floats], whose map is visited in the order 1, 0. *)
Lemma spec_mode_result_sound_witness :
  exists body,
    Some Sample.two_floats = Some body /\
    length (arg_attr (fdef body)) = length (input_arg (fdef body)) /\
    length [parameter_of (Sample.float_arg "x") {| dim_sizes := [2; 2]%Z |};
            parameter_of (Sample.float_arg "y") {| dim_sizes := [2; 2]%Z |}] =
      length (input_arg (fdef body)) /\
    forall i input,
      input_arg (fdef body) !! i = Some input ->
      exists p s,
        annotated_with (fdef body) i p /\ Sample.parse_shape p = OkValue s /\
        [parameter_of (Sample.float_arg "x") {| dim_sizes := [2; 2]%Z |};
         parameter_of (Sample.float_arg "y") {| dim_sizes := [2; 2]%Z |}]
          !! i = Some (parameter_of input s).
Proof.
  apply (spec_mode_result_sound Sample.parse_shape (Some Sample.two_floats)).
  reflexivity.
Defined.

(** X8: every error status of the spec-mode builder names what was wrong with
    its input. It is the Internal error of the null check on a null body, the
    InvalidArgument error on a body whose annotation count differs from its
    arity, the Internal error of the annotation check on a body that has an
    entry without a shape annotation, or the error that the shape converter
    returned on a shape that some entry is annotated with. *)
Theorem spec_mode_error_provenance
    (parse : TensorShapeProto -> StatusOr TensorShape)
    (fbody : option FunctionBody) (s : Status) :
  outcome (BuildXlaCompilerArgumentFromFuncBody parse fbody) = Err s ->
  match fbody with
  | None => s = errors_Internal "fbody != nullptr"
  | Some body =>
      (length (arg_attr (fdef body)) <> length (input_arg (fdef body)) /\
       s = errors_InvalidArgument using_variable_message) \/
      (length (arg_attr (fdef body)) = length (input_arg (fdef body)) /\
       s = errors_Internal "has_function_input_shape" /\
       exists idx a, In (idx, a) (arg_attr (fdef body)) /\
                     lacks_annotation a) \/
      (length (arg_attr (fdef body)) = length (input_arg (fdef body)) /\
       exists i p, annotated_with (fdef body) i p /\ parse p = NotOk s)
  end.
Proof.
  destruct fbody as [[f] |]; simpl.
  2: { intros H. now inversion H. }
  unfold BuildXlaCompilerArgumentFromFuncBody. simpl.
  destruct (length (arg_attr f) =? length (input_arg f)) eqn:Hlen; simpl.
  - apply Nat.eqb_eq in Hlen. intros H.
    apply outcome_bind_Err in H as [H | (shapes & _ & H)].
    + apply scan_arg_attrs_errors in H
        as [(-> & idx & a & Ha & Hlack) | (idx & a & v & p & Ha & Hv & Hp & Hs)].
      * right. left. repeat split; auto. now exists idx, a.
      * right. right. split; [exact Hlen |]. exists idx, p.
        split; [| exact Hs]. now exists a, v.
    + now apply fill_args_no_error in H.
  - apply Nat.eqb_neq in Hlen. intros H. inversion H. now left.
Qed.

(** [Edge.unknown_rank_shape]: the converter refuses the annotated shape. *)
Lemma spec_mode_error_provenance_witness :
  (length (arg_attr (fdef Edge.unknown_rank_shape)) <>
     length (input_arg (fdef Edge.unknown_rank_shape)) /\
   errors_InvalidArgument "Shape has unknown rank" =
     errors_InvalidArgument using_variable_message) \/
  (length (arg_attr (fdef Edge.unknown_rank_shape)) =
     length (input_arg (fdef Edge.unknown_rank_shape)) /\
   errors_InvalidArgument "Shape has unknown rank" =
     errors_Internal "has_function_input_shape" /\
   exists idx a, In (idx, a) (arg_attr (fdef Edge.unknown_rank_shape)) /\
                 lacks_annotation a) \/
  (length (arg_attr (fdef Edge.unknown_rank_shape)) =
     length (input_arg (fdef Edge.unknown_rank_shape)) /\
   exists i p, annotated_with (fdef Edge.unknown_rank_shape) i p /\
               Sample.parse_shape p =
                 NotOk (errors_InvalidArgument "Shape has unknown rank")).
Proof.
  apply (spec_mode_error_provenance Sample.parse_shape
           (Some Edge.unknown_rank_shape)).
  reflexivity.
Defined.

Section SpecModeEdges.

Variable parse : TensorShapeProto -> StatusOr TensorShape.

(** The entries the loop gets past leave the storage as large as it was and
    hand the rest of the map to the same loop. *)
Lemma scan_arg_attrs_prefix before : forall shapes,
  Forall (passes parse (capacity shapes)) before ->
  exists shapes',
    capacity shapes' = capacity shapes /\
    forall rest,
      outcome (scan_arg_attrs parse (before ++ rest) shapes) =
      outcome (scan_arg_attrs parse rest shapes').
Proof.
  induction before as [| [idx0 a0] more IH]; intros shapes Hall.
  - exists shapes. auto.
  - inversion Hall as [| ? ? [Hlt [Hu (v0 & p0 & s0 & Hin0 & Hp0 & Hs0)]] Hmore];
      subst. simpl in *.
    destruct (IH (store shapes idx0 s0)) as (shapes' & Hcap & Hrun).
    { now rewrite store_capacity. }
    exists shapes'. rewrite store_capacity in Hcap. split; [exact Hcap |].
    intros rest.
    rewrite (scan_attr_values_hit parse idx0 (attr a0) shapes false v0 p0 s0)
      by auto.
    rewrite <- Hrun. simpl.
    now destruct (scan_arg_attrs parse (more ++ rest) (store shapes idx0 s0)).
Qed.

(** The two unchecked index expressions of line 158: the first shape of the
    annotation, and the slot of [shapes] at the map key. *)
Lemma scan_attr_values_faults idx attr_values shapes has v :
  unique_keys attr_values ->
  In ("_output_shapes", v) attr_values ->
  outcome (scan_attr_values parse idx attr_values shapes has) =
    match list_shape v !! 0 with
    | None => Undefined EmptyRepeatedField
    | Some p =>
        if idx <? capacity shapes
        then outcome (scan_attr_values parse idx attr_values shapes has)
        else Undefined OutsideAllocation
    end.
Proof.
  intros Hu Hin.
  destruct (list_shape v !! 0) as [p |] eqn:Hp.
  - destruct (idx <? capacity shapes) eqn:Hlt; [reflexivity |].
    induction attr_values as [| [first second] rest IH]; simpl in *;
      [contradiction |].
    destruct (String.eqb first "_output_shapes") eqn:Heq.
    + apply String.eqb_eq in Heq. subst first.
      assert (second = v) as ->.
      { eapply unique_keys_In; eauto; simpl; auto. }
      unfold repeated_element, element_address. rewrite Hp, Hlt. reflexivity.
    + destruct Hin as [Hin | Hin].
      * inversion Hin; subst. now rewrite String.eqb_refl in Heq.
      * apply IH; auto. eapply unique_keys_tail; eauto.
  - induction attr_values as [| [first second] rest IH]; simpl in *;
      [contradiction |].
    destruct (String.eqb first "_output_shapes") eqn:Heq.
    + apply String.eqb_eq in Heq. subst first.
      assert (second = v) as ->.
      { eapply unique_keys_In; eauto; simpl; auto. }
      unfold repeated_element. rewrite Hp. reflexivity.
    + destruct Hin as [Hin | Hin].
      * inversion Hin; subst. now rewrite String.eqb_refl in Heq.
      * apply IH; auto. eapply unique_keys_tail; eauto.
Qed.

(** X9: the arity check compares counts, it does not bound the keys. When the
    loop over the annotation entries comes to an entry that lists a shape
    under a key that is not below the arity, the element address
    [&shapes[idx]] lies outside the storage that was reserved for [shapes],
    and the call leaves defined behaviour there, whatever the shape
    converter would answer. *)
Theorem annotation_key_beyond_arity (body : FunctionBody)
    before idx a after v :
  length (arg_attr (fdef body)) = length (input_arg (fdef body)) ->
  arg_attr (fdef body) = before ++ (idx, a) :: after ->
  Forall (passes parse (length (input_arg (fdef body)))) before ->
  unique_keys (attr a) ->
  In ("_output_shapes", v) (attr a) ->
  list_shape v <> [] ->
  length (input_arg (fdef body)) <= idx ->
  outcome (BuildXlaCompilerArgumentFromFuncBody parse (Some body)) =
    Undefined OutsideAllocation.
Proof.
  destruct body as [f]. simpl. intros Hlen Hsplit Hpass Hu Hv Hne Hidx.
  unfold BuildXlaCompilerArgumentFromFuncBody. simpl.
  rewrite Hlen, Nat.eqb_refl, Hsplit. simpl.
  set (shapes0 := reserve (length (input_arg f)) empty_vector).
  assert (Hcap0 : capacity shapes0 = length (input_arg f)).
  { unfold shapes0, reserve, capacity. simpl. rewrite length_replicate. lia. }
  destruct (scan_arg_attrs_prefix before shapes0) as (shapes & Hcap & Hrun).
  { now rewrite Hcap0. }
  apply outcome_bind_Undefined. rewrite Hrun. simpl.
  apply outcome_bind_Undefined.
  rewrite (scan_attr_values_faults idx (attr a) shapes false v Hu Hv).
  destruct (list_shape v) as [| p l]; [contradiction |]. simpl.
  assert ((idx <? capacity shapes) = false) as ->; [| reflexivity].
  apply Nat.ltb_ge. lia.
Qed.

(** X10: [shape()[0]] is read without a look at the length of the list. When
    the loop over the annotation entries comes to an entry whose
    "_output_shapes" attribute lists no shape, the call leaves defined
    behaviour at that read, whatever the key of the entry. *)
Theorem annotation_without_shape (body : FunctionBody)
    before idx a after v :
  length (arg_attr (fdef body)) = length (input_arg (fdef body)) ->
  arg_attr (fdef body) = before ++ (idx, a) :: after ->
  Forall (passes parse (length (input_arg (fdef body)))) before ->
  unique_keys (attr a) ->
  In ("_output_shapes", v) (attr a) ->
  list_shape v = [] ->
  outcome (BuildXlaCompilerArgumentFromFuncBody parse (Some body)) =
    Undefined EmptyRepeatedField.
Proof.
  destruct body as [f]. simpl. intros Hlen Hsplit Hpass Hu Hv Hnil.
  unfold BuildXlaCompilerArgumentFromFuncBody. simpl.
  rewrite Hlen, Nat.eqb_refl, Hsplit. simpl.
  set (shapes0 := reserve (length (input_arg f)) empty_vector).
  assert (Hcap0 : capacity shapes0 = length (input_arg f)).
  { unfold shapes0, reserve, capacity. simpl. rewrite length_replicate. lia. }
  destruct (scan_arg_attrs_prefix before shapes0) as (shapes & Hcap & Hrun).
  { now rewrite Hcap0. }
  apply outcome_bind_Undefined. rewrite Hrun. simpl.
  apply outcome_bind_Undefined.
  rewrite (scan_attr_values_faults idx (attr a) shapes false v Hu Hv).
  now rewrite Hnil.
Qed.

(** With every argument annotated by a shape that converts, the builder
    returns a list of descriptors. *)
Lemma spec_mode_succeeds (f : FunctionDef) :
  well_formed_fdef f ->
  length (arg_attr f) = length (input_arg f) ->
  (forall i, i < length (input_arg f) ->
     exists p s, annotated_with f i p /\ parse p = OkValue s) ->
  exists args,
    outcome (BuildXlaCompilerArgumentFromFuncBody parse
               (Some {| fdef := f |})) = Ok args.
Proof.
  intros [Hu Hinner] Hlen Hann.
  set (n := length (input_arg f)) in *.
  assert (Hbelow : forall idx a, In (idx, a) (arg_attr f) -> idx < n).
  { apply keys_below_arity; auto.
    intros i Hi. destruct (Hann i Hi) as (p & s & (a & v & Ha & _) & _).
    now exists a. }
  assert (Hpass : Forall (passes parse n) (arg_attr f)).
  { apply List.Forall_forall. intros [idx a] Hin.
    pose proof (Hbelow idx a Hin) as Hlt.
    destruct (Hann idx Hlt) as (p & s & (a' & v & Ha' & Hv & Hp) & Hs).
    assert (a' = a) as -> by (eapply unique_keys_In; eauto).
    split; [exact Hlt |]. split; [eapply Hinner; eauto |].
    exists v, p, s. auto. }
  unfold BuildXlaCompilerArgumentFromFuncBody. simpl. fold n.
  rewrite Hlen, Nat.eqb_refl. simpl.
  set (shapes0 := reserve n empty_vector).
  assert (Hcap0 : capacity shapes0 = n).
  { unfold shapes0, reserve, capacity. simpl. rewrite length_replicate. lia. }
  destruct (scan_arg_attrs_passes parse (arg_attr f) shapes0)
    as (t1 & shapes & Hscan & _ & Hcap & _ & Hslot).
  { now rewrite Hcap0. }
  rewrite Hscan. simpl.
  destruct (fill_args_stored (input_arg f) shapes (seq 0 n)
                             (replicate n default_Argument))
    as (t2 & args & Hfill & _).
  { intros r Hr. apply in_seq in Hr. rewrite length_replicate.
    split; [lia |].
    destruct (lookup_lt_is_Some_2 (input_arg f) r) as [input Hinput]; [lia |].
    destruct (Hann r) as (p & s & (a & v & Ha & Hv & Hp) & Hs); [lia |].
    exists input, s. split; [exact Hinput |]. eapply Hslot; eauto. }
  rewrite Hfill. simpl. now exists args.
Qed.

Lemma annotated_with_Permutation (f g : FunctionDef) i p :
  arg_attr f ≡ₚ arg_attr g -> annotated_with f i p -> annotated_with g i p.
Proof.
  intros Hperm (a & v & Ha & Hv & Hp). exists a, v. repeat split; auto.
  eapply Permutation_in; eauto.
Qed.

(** X11: the order in which the annotation map is visited does not show in
    the result. Two bodies with the same signature whose annotation maps
    hold the same entries, in any order, get the same descriptors, when
    every argument is annotated with a shape that converts. (The events
    differ: the slots of [shapes] are written in the order of the visit.) *)
Theorem annotation_order_irrelevant (body body' : FunctionBody) :
  input_arg (fdef body') = input_arg (fdef body) ->
  arg_attr (fdef body) ≡ₚ arg_attr (fdef body') ->
  well_formed_fdef (fdef body) ->
  length (arg_attr (fdef body)) = length (input_arg (fdef body)) ->
  (forall i, i < length (input_arg (fdef body)) ->
     exists p s, annotated_with (fdef body) i p /\ parse p = OkValue s) ->
  outcome (BuildXlaCompilerArgumentFromFuncBody parse (Some body')) =
  outcome (BuildXlaCompilerArgumentFromFuncBody parse (Some body)).
Proof.
  destruct body as [f], body' as [g]. cbn [fdef].
  intros Hsig Hperm [Hu Hinner] Hlen Hann.
  assert (Hwf' : well_formed_fdef g).
  { split.
    - unfold unique_keys in *. now rewrite <- Hperm.
    - intros idx a Ha. apply (Hinner idx a).
      eapply Permutation_in; [symmetry; exact Hperm | exact Ha]. }
  destruct (spec_mode_succeeds f) as [args Hf]; [now split | auto | auto |].
  destruct (spec_mode_succeeds g) as [args' Hg]; auto.
  { rewrite Hsig, <- Hlen. symmetry. now apply Permutation_length. }
  { rewrite Hsig. intros i Hi. destruct (Hann i Hi) as (p & s & Hp & Hs).
    exists p, s. split; [| exact Hs].
    now apply (annotated_with_Permutation f g). }
  rewrite Hf, Hg. f_equal.
  apply spec_mode_result in Hf as (Hn & Hget).
  apply spec_mode_result in Hg as (Hn' & Hget').
  rewrite Hsig in Hn', Hget'.
  apply list_eq. intros i.
  destruct (input_arg f !! i) as [input |] eqn:Hinput.
  - destruct (Hget i input Hinput) as (p & s & Hp & Hs & ->).
    destruct (Hget' i input Hinput) as (p' & s' & Hp' & Hs' & ->).
    apply (annotated_with_Permutation g f) in Hp'; [| now symmetry].
    destruct Hp as (a & v & Ha & Hv & Hpv).
    destruct Hp' as (a' & v' & Ha' & Hv' & Hpv').
    assert (a' = a) as -> by (eapply unique_keys_In; eauto).
    assert (v' = v) as -> by (eapply unique_keys_In; eauto).
    congruence.
  - apply lookup_ge_None in Hinput.
    rewrite (lookup_ge_None_2 args') by lia.
    rewrite (lookup_ge_None_2 args) by lia. reflexivity.
Qed.

End SpecModeEdges.

(** [Edge.key_beyond_arity]: one argument, one entry, keyed by 5. *)
Lemma annotation_key_beyond_arity_witness :
  outcome (BuildXlaCompilerArgumentFromFuncBody
             Sample.parse_shape (Some Edge.key_beyond_arity)) =
    Undefined OutsideAllocation.
Proof.
  apply (annotation_key_beyond_arity Sample.parse_shape
           Edge.key_beyond_arity
           [] 5 (Sample.annotated Sample.shape_2x2) []
           (AttrList [Sample.shape_2x2])).
  - reflexivity.
  - reflexivity.
  - constructor.
  - solve_unique_keys.
  - simpl. tauto.
  - discriminate.
  - simpl. lia.
Defined.

(** [Edge.no_shape_listed]: the one entry has an empty shape list. *)
Lemma annotation_without_shape_witness :
  outcome (BuildXlaCompilerArgumentFromFuncBody
             Sample.parse_shape (Some Edge.no_shape_listed)) =
    Undefined EmptyRepeatedField.
Proof.
  apply (annotation_without_shape Sample.parse_shape
           Edge.no_shape_listed
           [] 0 {| attr := [("_output_shapes", AttrList [])] |} []
           (AttrList [])).
  - reflexivity.
  - reflexivity.
  - constructor.
  - solve_unique_keys.
  - simpl. tauto.
  - reflexivity.
Defined.

(** [Sample.two_floats] visits its map in the order 1, 0;
    [Edge.two_floats_reordered] in the order 0, 1. *)
Lemma annotation_order_irrelevant_witness :
  outcome (BuildXlaCompilerArgumentFromFuncBody Sample.parse_shape
             (Some Edge.two_floats_reordered)) =
  outcome (BuildXlaCompilerArgumentFromFuncBody Sample.parse_shape
             (Some Sample.two_floats)).
Proof.
  apply (annotation_order_irrelevant Sample.parse_shape Sample.two_floats
           Edge.two_floats_reordered).
  - reflexivity.
  - apply perm_swap.
  - solve_well_formed.
  - reflexivity.
  - intros i Hi. exists Sample.shape_2x2, {| dim_sizes := [2; 2]%Z |}.
    split; [| reflexivity].
    exists (Sample.annotated Sample.shape_2x2), (AttrList [Sample.shape_2x2]).
    simpl in Hi. destruct i as [| [| i]]; simpl; [tauto | tauto | lia].
Defined.

(** ** The events of a call, part by part *)

Lemma Forall_events_bind {A B} (P : Event -> Prop) (m : T A) (k : A -> T B) :
  Forall P (events m) ->
  (forall a, outcome m = Ok a -> Forall P (events (k a))) ->
  Forall P (events (bind m k)).
Proof.
  destruct m as [t [a | s | f]]; simpl; auto.
  intros Ht Hk. specialize (Hk a eq_refl).
  destruct (k a) as [t' r]. simpl in *. apply Forall_app. auto.
Qed.

Section BuilderEvents.

Variable parse : TensorShapeProto -> StatusOr TensorShape.
Variable P : Event -> Prop.
Hypothesis P_access : forall a, P (EvAccess a).

Lemma repeated_element_accesses {A} c (field : list A) idx :
  Forall P (events (repeated_element c field idx)).
Proof.
  unfold repeated_element. simpl.
  destruct (field !! idx); simpl; repeat constructor; apply P_access.
Qed.

Lemma element_address_accesses {A} c (v : vector A) idx :
  Forall P (events (element_address c v idx)).
Proof.
  unfold element_address. simpl.
  destruct (idx <? capacity v); simpl; repeat constructor; apply P_access.
Qed.

Lemma or_return_silent {A} (r : StatusOr A) : Forall P (events (or_return r)).
Proof. destruct r; constructor. Qed.

Lemma scan_attr_values_accesses idx attr_values : forall shapes has,
  Forall P (events (scan_attr_values parse idx attr_values shapes has)).
Proof.
  induction attr_values as [| [first second] rest IH]; intros shapes has;
    simpl; [constructor |].
  destruct (String.eqb first "_output_shapes"); [| apply IH].
  apply Forall_events_bind; [apply repeated_element_accesses |]. intros p _.
  apply Forall_events_bind; [apply element_address_accesses |]. intros u _.
  apply Forall_events_bind; [apply or_return_silent |]. intros s _.
  apply IH.
Qed.

Lemma scan_arg_attrs_accesses entries : forall shapes,
  Forall P (events (scan_arg_attrs parse entries shapes)).
Proof.
  induction entries as [| [idx a] rest IH]; intros shapes; simpl;
    [constructor |].
  apply Forall_events_bind; [apply scan_attr_values_accesses |].
  intros [mid has] _.
  apply Forall_events_bind; [destruct has; constructor |]. intros u _.
  apply IH.
Qed.

Lemma fill_args_accesses input_args shapes rounds : forall args,
  Forall P (events (fill_args input_args shapes rounds args)).
Proof.
  induction rounds as [| r later IH]; intros args; simpl; [constructor |].
  apply Forall_events_bind; [| intros mid _; apply IH].
  unfold fill_arg. destruct (input_args !! r); [| constructor].
  apply Forall_events_bind; [| intros s _; constructor].
  unfold element.
  apply Forall_events_bind; [apply element_address_accesses |]. intros u _.
  destruct (v_slots shapes !! r) as [[s |] |]; constructor.
Qed.

(** The spec-mode builder touches nothing but its own containers. *)
Lemma builder_accesses fbody :
  Forall P (events (BuildXlaCompilerArgumentFromFuncBody parse fbody)).
Proof.
  destruct fbody as [[f] |]; simpl; [| constructor].
  destruct (length (arg_attr f) =? length (input_arg f)); simpl;
    [| constructor].
  apply Forall_events_bind; [apply scan_arg_attrs_accesses |].
  intros shapes _. apply fill_args_accesses.
Qed.

End BuilderEvents.

(** The events of the exporter belong to either mode. *)
Lemma exporter_events_in_mode create render stage result local_client options
    (spec : bool) :
  Forall (fun e => of_other_mode spec e = false)
         (events (BuildHLOString create render stage result local_client
                                 options)).
Proof.
  destruct (BuildHLOString_phase create render stage result local_client
              options) as [Hp _].
  revert Hp. apply List.Forall_impl. intros e He.
  unfold of_other_mode. rewrite He. now destruct spec.
Qed.

(** The compilation work of the exporter: one client compilation for the
    stages that export from the executable, none for the others. *)
Lemma exporter_compilations create render stage result local_client options :
  if from_executable stage then
    exists sent,
      List.filter is_compilation
        (events (BuildHLOString create render stage result local_client
                                options)) = [EvCompile sent]
  else
    List.filter is_compilation
      (events (BuildHLOString create render stage result local_client
                              options)) = [].
Proof.
  assert (Hb : forall embed,
    exists sent r,
      BuildExecutable local_client result options embed =
        ([EvCompile sent], r)).
  { intros embed.
    destruct (BuildExecutable_events local_client result options embed)
      as (sent & Hev & _).
    destruct (BuildExecutable local_client result options embed) as [t r].
    simpl in *. subst t. now exists sent, r. }
  destruct stage; simpl.
  1-3: destruct (GetProgramShape (computation result)); simpl;
       [| reflexivity]; destruct (create _ _); reflexivity.
  1-4: match goal with
       | |- context [BuildExecutable _ _ _ ?embed] =>
           destruct (Hb embed) as (sent & r & ->)
       end;
       exists sent; destruct r as [built | err | f]; simpl; try reflexivity.
  destruct (render _ _ _); reflexivity.
Qed.

Lemma filter_none {A} (f : A -> bool) (l : list A) :
  Forall (fun x => f x = false) l -> List.filter f l = [].
Proof.
  induction 1 as [| x l Hx _ IH]; simpl; [reflexivity |]. now rewrite Hx.
Qed.

(** The events that went before do not change how a call ends. *)
Lemma outcome_at_return_after {A} t (x : Trace * Locals * Outcome A) :
  outcome (at_return (after t x)) = outcome (at_return x).
Proof. now destruct x as [[t' st] [a | s | f]]. Qed.

Section CallShape.

Variable E : Collaborators.

(** Lines 241-287 and the return: the events before the Compilation Driver
    is invoked, the compilation work with the export, and the destructors. *)
Lemma compile_and_export_shape stage function dev flr rmgr (spec : bool)
    fbody cs inputs st :
  (spec = true -> variable_infos st = []) ->
  exists pre mid post,
    events (at_return
              (compile_and_export E stage function dev flr rmgr spec fbody cs
                                  inputs st)) = pre ++ mid ++ post /\
    Forall (fun e => is_compilation e = false /\ of_other_mode spec e = false)
           pre /\
    Forall (fun e => is_compilation e = false /\ of_other_mode spec e = false)
           post /\
    (mid = [] \/
     exists args,
       (spec = true ->
        outcome (BuildXlaCompilerArgumentFromFuncBody (BuildTensorShape E)
                                                      fbody) = Ok args) /\
       (mid = [EvCompileFunction args] \/
        exists result local_client options,
          mid = EvCompileFunction args ::
                events (BuildHLOString (CreateFromProto E) (RenderGraph E)
                          stage result local_client options))).
Proof.
  intros Hst.
  pose proof (compile_and_export_run E stage function dev flr rmgr spec fbody
                cs inputs st) as Hrun.
  destruct (LookupOrCreate_phase rmgr
              (fun _ => BuildXlaDeviceCompiler E dev flr
                          (XlaPlatformInfoFromDevice E dev))) as [Hlp _].
  assert (Hquiet_l : forall tl,
            Forall (fun e => phase e = InCache) tl ->
            Forall (fun e => is_compilation e = false /\
                             of_other_mode spec e = false) tl).
  { intros tl. apply List.Forall_impl. intros e He.
    unfold of_other_mode. rewrite He.
    split; [now destruct e | now destruct spec]. }
  assert (Hpost : forall r0,
            Forall (fun e => is_compilation e = false /\
                             of_other_mode spec e = false)
                   (destroy_locals {| variable_infos := variable_infos st;
                                      xla_device_compiler_ref := r0 |})).
  { intros r0. unfold destroy_locals. simpl. apply Forall_app. split.
    - destruct r0; simpl; repeat constructor. now destruct spec.
    - destruct spec.
      + rewrite Hst by reflexivity. constructor.
      + apply List.Forall_forall. intros e He.
        apply in_flat_map in He as (v & _ & He).
        unfold destroy_VariableInfo in He.
        destruct (lock_held v); [| contradiction].
        destruct He as [<- | []]. auto. }
  destruct (LookupOrCreate rmgr _) as [tl [c | s | f]]; simpl in Hlp;
    [| | contradiction].
  2: { rewrite Hrun. exists tl, [], (destroy_locals st).
       split; [reflexivity |]. split; [now apply Hquiet_l |].
       split; [destruct st; apply Hpost | now left]. }
  destruct Hrun as (eo & options & Hgen & Hrun). rewrite Hrun. clear Hrun.
  destruct (generate_options_phase E (XlaPlatformInfoFromDevice E dev)
              (stream_of dev) c flr dev) as (eo' & options' & Hgen' & Heo).
  rewrite Hgen in Hgen'. inversion Hgen'; subst eo' options'. clear Hgen'.
  assert (Hta : Forall (fun e => is_compilation e = false /\
                                 of_other_mode spec e = false)
                  (events (if spec then
                     BuildXlaCompilerArgumentFromFuncBody (BuildTensorShape E)
                                                          fbody
                   else
                     emit EvBuildXlaCompilerArguments;;
                     or_return (BuildXlaCompilerArguments cs inputs
                                  (variable_infos st) dev)))).
  { destruct spec.
    - apply builder_accesses. intros a. auto.
    - simpl. repeat constructor. }
  assert (Hpre : forall ta,
            Forall (fun e => is_compilation e = false /\
                             of_other_mode spec e = false) ta ->
            Forall (fun e => is_compilation e = false /\
                             of_other_mode spec e = false)
                   (tl ++ eo :: ta)).
  { intros ta Ha. apply Forall_app. split; [now apply Hquiet_l |].
    constructor; [| exact Ha]. unfold of_other_mode. rewrite Heo.
    split; [now destruct eo | now destruct spec]. }
  destruct (if spec then _ else _) as [ta [args | s | f]] eqn:Hargs;
    cbv beta iota zeta; simpl in Hta.
  3: { exists (tl ++ eo :: ta), [], []. simpl. rewrite app_nil_r.
       split; [reflexivity |]. split; [now apply Hpre |].
       split; [constructor | now left]. }
  2: { exists (tl ++ eo :: ta), [], (destroy_locals
                 {| variable_infos := variable_infos st;
                    xla_device_compiler_ref := Some c |}).
       split; [reflexivity |]. split; [now apply Hpre |].
       split; [apply Hpost | now left]. }
  assert (Hbuilder : spec = true ->
            outcome (BuildXlaCompilerArgumentFromFuncBody (BuildTensorShape E)
                                                          fbody) = Ok args).
  { intros ->. now rewrite Hargs. }
  destruct (CompileFunction E options _ function args) as [result | s].
  - pose proof (BuildHLOString_phase (CreateFromProto E) (RenderGraph E) stage
                  result (client c) options) as [_ Hdef].
    exists (tl ++ eo :: ta),
           (EvCompileFunction args ::
            events (BuildHLOString (CreateFromProto E) (RenderGraph E) stage
                      result (client c) options)),
           (destroy_locals {| variable_infos := variable_infos st;
                              xla_device_compiler_ref := Some c |}).
    split.
    { unfold at_return.
      destruct (outcome (BuildHLOString _ _ stage result (client c) options))
        as [text | s | f] eqn:Hout; simpl;
        try (rewrite <- !app_assoc; simpl; now rewrite <- ?app_assoc).
      exfalso. now apply (Hdef f). }
    split; [now apply Hpre |]. split; [apply Hpost |].
    right. exists args. split; [exact Hbuilder |].
    right. now exists result, (client c), options.
  - exists (tl ++ eo :: ta), [EvCompileFunction args],
           (destroy_locals {| variable_infos := variable_infos st;
                              xla_device_compiler_ref := Some c |}).
    split; [simpl; rewrite <- !app_assoc; simpl; now rewrite <- ?app_assoc |].
    split; [now apply Hpre |]. split; [apply Hpost |].
    right. exists args. split; [exact Hbuilder |]. now left.
Qed.

End CallShape.

(** ** GetCompilerIr: the stage check and the resolver *)

Section StageCheck.

Variable E : Collaborators.

(** X12: on the host CPU, on a device with a stream, and for the three
    stages that export the program as compiled on a device that has
    accelerator device info, a call gets past the stage check. What it does
    first is to ask the resolver for the function, and an error of the
    resolver is the result of the call, with nothing else done. *)
Theorem supported_call_asks_resolver_first stage pflr func_name dev context
    handles :
  device_type dev = DEVICE_CPU \/
  (exists info,
     tensorflow_accelerator_device_info dev = Some info /\
     (stream info <> None \/ from_executable stage = false)) ->
  match GetBodyAndConstantsAndResources E (GetFLR pflr (device_name dev))
                                        func_name with
  | NotOk s =>
      GetCompilerIr E stage pflr func_name dev context handles =
        ([EvGetBodyAndConstantsAndResources func_name], Err s)
  | OkValue _ =>
      exists rest,
        events (GetCompilerIr E stage pflr func_name dev context handles) =
          EvGetBodyAndConstantsAndResources func_name :: rest
  end.
Proof.
  intros Hpass. rewrite GetCompilerIr_run.
  rewrite (stage_check_passes stage dev Hpass).
  destruct (GetBodyAndConstantsAndResources E _ func_name)
    as [[[fbody cs] rs] | s]; [| reflexivity].
  rewrite events_at_return_after. simpl. now eexists.
Qed.

(** X13: a call that ends before any collaborator was invoked ended at the
    stage check. The device is not the host CPU, and either it has no
    accelerator device info and the call dereferenced the null pointer, or
    it has no stream, the stage exports from the executable and the call
    failed with the Internal error of the stage check. *)
Theorem silent_call_ended_at_stage_check stage pflr func_name dev context
    handles :
  events (GetCompilerIr E stage pflr func_name dev context handles) = [] ->
  device_type dev <> DEVICE_CPU /\
  match tensorflow_accelerator_device_info dev with
  | None =>
      outcome (GetCompilerIr E stage pflr func_name dev context handles) =
        Undefined NullDereference
  | Some info =>
      stream info = None /\ from_executable stage = true /\
      outcome (GetCompilerIr E stage pflr func_name dev context handles) =
        Err (errors_Internal unsupported_stage_message)
  end.
Proof.
  rewrite GetCompilerIr_run. unfold stage_unsupported.
  assert (Hresolver :
    events (match GetBodyAndConstantsAndResources E
                    (GetFLR pflr (device_name dev)) func_name with
            | NotOk s =>
                ([] ++ [EvGetBodyAndConstantsAndResources func_name], Err s)
            | OkValue (fbody, cs, rs) =>
                at_return
                  (after ([] ++ [EvGetBodyAndConstantsAndResources func_name])
                     (match handles with
                      | [] =>
                          compile_and_export E stage func_name dev
                            (GetFLR pflr (device_name dev))
                            (resource_manager dev) true fbody cs [] no_locals
                      | _ =>
                          bindM (read_and_lock_inputs context
                                   (resource_manager dev) cs rs handles)
                                (fun inputs =>
                                   compile_and_export E stage func_name dev
                                     (GetFLR pflr (device_name dev))
                                     (resource_manager dev) false fbody cs
                                     inputs)
                                no_locals
                      end))
            end) <> []).
  { destruct (GetBodyAndConstantsAndResources E _ func_name)
      as [[[fbody cs] rs] | s]; [| discriminate].
    rewrite events_at_return_after. discriminate. }
  destruct (DeviceType_eqb (device_type dev) DEVICE_CPU) eqn:Hcpu; simpl.
  { intros H. now apply Hresolver in H. }
  assert (Hne : device_type dev <> DEVICE_CPU).
  { intros Heq. rewrite Heq in Hcpu. discriminate Hcpu. }
  destruct (tensorflow_accelerator_device_info dev) as [info |]; simpl;
    [| now split].
  destruct (stream info) as [st |]; simpl.
  { intros H. now apply Hresolver in H. }
  destruct stage; simpl; intros H;
    try (now apply Hresolver in H); repeat split; auto.
Qed.

(** X14: an error of the spec-mode builder is the error of the call. When a
    call without handles gets past the stage check, the resolver answers
    with a body, the cache hands out a compiler instance and the builder
    fails, the call returns the builder's status; no compilation work was
    done, and the reference to the compiler instance was released on the
    way out. *)
Theorem spec_mode_builder_error_returned stage pflr func_name dev context
    fbody cs rs c s :
  device_type dev = DEVICE_CPU \/
  (exists info,
     tensorflow_accelerator_device_info dev = Some info /\
     (stream info <> None \/ from_executable stage = false)) ->
  GetBodyAndConstantsAndResources E (GetFLR pflr (device_name dev)) func_name =
    OkValue (fbody, cs, rs) ->
  outcome (LookupOrCreate (resource_manager dev)
             (fun _ => BuildXlaDeviceCompiler E dev
                         (GetFLR pflr (device_name dev))
                         (XlaPlatformInfoFromDevice E dev))) = Ok c ->
  outcome (BuildXlaCompilerArgumentFromFuncBody (BuildTensorShape E) fbody) =
    Err s ->
  outcome (GetCompilerIr E stage pflr func_name dev context []) = Err s /\
  List.filter is_compilation
    (events (GetCompilerIr E stage pflr func_name dev context [])) = [] /\
  exists t,
    events (GetCompilerIr E stage pflr func_name dev context []) =
      t ++ [EvUnref].
Proof.
  intros Hpass Hres Hlookup Hbuilder. rewrite GetCompilerIr_run.
  rewrite (stage_check_passes stage dev Hpass), Hres.
  pose proof (compile_and_export_run E stage func_name dev
                (GetFLR pflr (device_name dev)) (resource_manager dev) true
                fbody cs [] no_locals) as Hrun.
  destruct (LookupOrCreate_phase (resource_manager dev)
              (fun _ => BuildXlaDeviceCompiler E dev
                          (GetFLR pflr (device_name dev))
                          (XlaPlatformInfoFromDevice E dev))) as [Hlp _].
  destruct (LookupOrCreate (resource_manager dev) _) as [tl r].
  simpl in Hlookup, Hlp. subst r.
  destruct Hrun as (eo & options & Hgen & ->).
  destruct (generate_options_phase E (XlaPlatformInfoFromDevice E dev)
              (stream_of dev) c (GetFLR pflr (device_name dev)) dev)
    as (eo' & options' & Hgen' & Heo).
  rewrite Hgen in Hgen'. inversion Hgen'; subst eo' options'. clear Hgen'.
  pose proof (builder_accesses (BuildTensorShape E)
                (fun e => is_compilation e = false)
                ltac:(intros a; reflexivity) fbody) as Hta.
  destruct (BuildXlaCompilerArgumentFromFuncBody (BuildTensorShape E) fbody)
    as [ta rb]. simpl in Hbuilder, Hta. subst rb. cbv beta iota zeta.
  unfold after, at_return, destroy_locals. simpl.
  split; [reflexivity |]. split.
  - apply filter_none. rewrite ?app_nil_r. apply Forall_app. split.
    + apply Forall_app. split.
      * revert Hlp. apply List.Forall_impl. intros e He. now destruct e.
      * constructor; [now destruct eo | exact Hta].
    + repeat constructor.
  - exists (EvGetBodyAndConstantsAndResources func_name :: tl ++ eo :: ta).
    simpl. now rewrite ?app_nil_r.
Qed.

End StageCheck.

(** A call on the host CPU, for the function "nowhere" that the sample
    library does not know. *)
Lemma supported_call_asks_resolver_first_witness :
  GetCompilerIr Sample.collaborators OPTIMIZED_HLO Sample.pflr "nowhere"
                Sample.cpu Sample.context [] =
    ([EvGetBodyAndConstantsAndResources "nowhere"],
     Err {| code := NOT_FOUND; error_message := "nowhere" |}).
Proof.
  apply (supported_call_asks_resolver_first Sample.collaborators OPTIMIZED_HLO
           Sample.pflr "nowhere" Sample.cpu Sample.context []).
  now left.
Defined.

(** The accelerator without a stream, asked for the optimized HLO. *)
Lemma silent_call_ended_at_stage_check_witness :
  device_type Sample.tpu_without_stream <> DEVICE_CPU /\
  stream {| stream := None |} = None /\
  from_executable OPTIMIZED_HLO = true /\
  outcome (GetCompilerIr Sample.collaborators OPTIMIZED_HLO Sample.pflr "f"
             Sample.tpu_without_stream Sample.context []) =
    Err (errors_Internal unsupported_stage_message).
Proof.
  apply (silent_call_ended_at_stage_check Sample.collaborators OPTIMIZED_HLO
           Sample.pflr "f" Sample.tpu_without_stream Sample.context []).
  reflexivity.
Defined.

(** A library whose one function is annotated with a shape of unknown rank,
    called on the host CPU. *)
Lemma spec_mode_builder_error_returned_witness :
  outcome (GetCompilerIr (library_of Edge.unknown_rank_shape) HLO Sample.pflr
             "f" Sample.cpu Sample.context []) =
    Err (errors_InvalidArgument "Shape has unknown rank") /\
  List.filter is_compilation
    (events (GetCompilerIr (library_of Edge.unknown_rank_shape) HLO
               Sample.pflr "f" Sample.cpu Sample.context [])) = [] /\
  exists t,
    events (GetCompilerIr (library_of Edge.unknown_rank_shape) HLO
              Sample.pflr "f" Sample.cpu Sample.context []) = t ++ [EvUnref].
Proof.
  apply (spec_mode_builder_error_returned (library_of Edge.unknown_rank_shape)
           HLO Sample.pflr "f" Sample.cpu Sample.context
           (Some Edge.unknown_rank_shape) [] []
           {| client := Sample.local_client |}).
  - now left.
  - reflexivity.
  - reflexivity.
  - reflexivity.
Defined.

(** ** GetCompilerIr: the two modes and the compilation work *)

Section Calls.

Variable E : Collaborators.

Lemma locks_in_value_mode (f : Z -> Event) ks :
  (forall k, f k = EvLock k) \/ (forall k, f k = EvUnlock k) ->
  Forall (fun e => is_compilation e = false /\ of_other_mode false e = false)
         (map f ks).
Proof.
  intros Hf. apply List.Forall_forall. intros e He.
  apply in_map_iff in He as (k & <- & _).
  destruct Hf as [Hf | Hf]; rewrite Hf; auto.
Qed.

Lemma before_locks_in_value_mode t :
  Forall (fun e => before_locks (phase e) = true) t ->
  Forall (fun e => is_compilation e = false /\ of_other_mode false e = false)
         t.
Proof.
  apply List.Forall_impl. intros e He. now destruct e.
Qed.

(** A call, in either mode: the events before the Compilation Driver is
    invoked, the compilation work with the export, and the destructors. *)
Lemma call_shape stage pflr func_name dev context handles :
  exists pre mid post,
    events (GetCompilerIr E stage pflr func_name dev context handles) =
      pre ++ mid ++ post /\
    Forall (fun e => is_compilation e = false /\
                     of_other_mode (handles_empty handles) e = false) pre /\
    Forall (fun e => is_compilation e = false /\
                     of_other_mode (handles_empty handles) e = false) post /\
    (mid = [] \/
     exists args,
       (handles = [] ->
        exists fbody cs rs,
          GetBodyAndConstantsAndResources E (GetFLR pflr (device_name dev))
                                          func_name = OkValue (fbody, cs, rs) /\
          outcome (BuildXlaCompilerArgumentFromFuncBody (BuildTensorShape E)
                                                        fbody) = Ok args) /\
       (mid = [EvCompileFunction args] \/
        exists result local_client options,
          mid = EvCompileFunction args ::
                events (BuildHLOString (CreateFromProto E) (RenderGraph E)
                          stage result local_client options))).
Proof.
  assert (Hnone : forall t : Trace,
            Forall (fun e => is_compilation e = false /\
                             of_other_mode (handles_empty handles) e = false)
                   t ->
            exists pre mid post,
              t = pre ++ mid ++ post /\
              Forall (fun e => is_compilation e = false /\
                               of_other_mode (handles_empty handles) e = false)
                     pre /\
              Forall (fun e => is_compilation e = false /\
                               of_other_mode (handles_empty handles) e = false)
                     post /\
              (mid = [] \/
               exists args,
                 (handles = [] ->
                  exists fbody cs rs,
                    GetBodyAndConstantsAndResources E
                      (GetFLR pflr (device_name dev)) func_name =
                      OkValue (fbody, cs, rs) /\
                    outcome (BuildXlaCompilerArgumentFromFuncBody
                               (BuildTensorShape E) fbody) = Ok args) /\
                 (mid = [EvCompileFunction args] \/
                  exists result local_client options,
                    mid = EvCompileFunction args ::
                          events (BuildHLOString (CreateFromProto E)
                                    (RenderGraph E) stage result local_client
                                    options)))).
  { intros t Ht. exists t, [], []. rewrite app_nil_r.
    split; [reflexivity |]. split; [exact Ht |].
    split; [constructor | now left]. }
  rewrite GetCompilerIr_run.
  pose proof (stage_unsupported_events stage dev) as H0.
  destruct (stage_unsupported stage dev) as [t [[|] | s | f]]; simpl in H0;
    subst t; try (apply Hnone; constructor).
  destruct (GetBodyAndConstantsAndResources E _ func_name)
    as [[[fbody cs] rs] | s] eqn:Hres.
  2: { apply Hnone. repeat constructor. now destruct handles. }
  rewrite events_at_return_after.
  assert (Hget : is_compilation
                   (EvGetBodyAndConstantsAndResources func_name) = false /\
                 of_other_mode (handles_empty handles)
                   (EvGetBodyAndConstantsAndResources func_name) = false).
  { now destruct handles. }
  destruct handles as [| th rest].
  - destruct (compile_and_export_shape E stage func_name dev
                (GetFLR pflr (device_name dev)) (resource_manager dev) true
                fbody cs [] no_locals) as (pre & mid & post & -> & Hpre & Hpost & Hmid);
      [reflexivity |].
    exists (EvGetBodyAndConstantsAndResources func_name :: pre), mid, post.
    split; [reflexivity |]. split; [now constructor |].
    split; [exact Hpost |].
    destruct Hmid as [-> | (args & Hb & Hmid)]; [now left |].
    right. exists args. split; [| exact Hmid].
    intros _. exists fbody, cs, rs. split; [reflexivity | now apply Hb].
  - remember (th :: rest) as all eqn:Hall.
    assert (Hmode : handles_empty all = false) by now subst all.
    rewrite Hmode in *.
    unfold bindM.
    destruct (read_and_lock_inputs_run context (resource_manager dev) cs rs
                all)
      as [(tg & inputs & storage & infos & Hg & Hr & ->)
         | (t0 & ks & st & r & -> & Hr & Hd & H0 & Hks)].
    + rewrite events_at_return_after.
      destruct (compile_and_export_shape E stage func_name dev
                  (GetFLR pflr (device_name dev)) (resource_manager dev) false
                  fbody cs inputs
                  {| variable_infos := map hold infos;
                     xla_device_compiler_ref := None |})
        as (pre & mid & post & -> & Hpre & Hpost & Hmid); [discriminate |].
      exists (EvGetBodyAndConstantsAndResources func_name ::
              (tg ++ EvGetVariableInfosFromInputs ::
                     map EvLock (map vi_index (lock_order infos))) ++ pre),
             mid, post.
      split; [simpl; now rewrite <- !app_assoc |].
      split; [| split; [exact Hpost |]].
      * constructor; [exact Hget |]. apply Forall_app. split; [| exact Hpre].
        apply Forall_app. split.
        -- apply before_locks_in_value_mode.
           eapply Forall_phase; [| apply gather_inputs_phase_eq with (1 := Hg)].
           reflexivity.
        -- constructor; [auto |]. apply locks_in_value_mode. now left.
      * destruct Hmid as [-> | (args & _ & Hmid)]; [now left |].
        right. exists args. split; [| exact Hmid].
        intros Hnil. rewrite Hnil in Hall. discriminate Hall.
    + destruct r as [a | s | f]; [exfalso; now apply (Hr a) | |];
        cbv beta iota zeta; unfold at_return, events; cbn [fst];
        rewrite ?Hd, ?app_nil_r; apply Hnone;
        (constructor; [exact Hget |]);
        (apply Forall_app; split; [now apply before_locks_in_value_mode |]);
        (apply Forall_app; split; apply locks_in_value_mode; auto).
Qed.

(** X15: the mode of a call is decided by the emptiness of the handle list
    alone, and the work of the other mode is not done. A call without
    handles reads no tensor, resolves no variable, takes or releases no lock
    and does not classify inputs; a call with handles never runs the
    spec-mode builder. *)
Theorem mode_dispatch stage pflr func_name dev context handles :
  Forall (fun e => of_other_mode (handles_empty handles) e = false)
         (events (GetCompilerIr E stage pflr func_name dev context handles)).
Proof.
  destruct (call_shape stage pflr func_name dev context handles)
    as (pre & mid & post & -> & Hpre & Hpost & Hmid).
  assert (Hweak : forall t,
            Forall (fun e => is_compilation e = false /\
                             of_other_mode (handles_empty handles) e = false)
                   t ->
            Forall (fun e => of_other_mode (handles_empty handles) e = false)
                   t).
  { intros t. apply List.Forall_impl. tauto. }
  apply Forall_app. split; [now apply Hweak |].
  apply Forall_app. split; [| now apply Hweak].
  assert (Hdriver : forall args,
            of_other_mode (handles_empty handles) (EvCompileFunction args) =
              false).
  { intros args. now destruct (handles_empty handles). }
  destruct Hmid as [-> | (args & _ & [-> | (result & lc & options & ->)])].
  - constructor.
  - constructor; [apply Hdriver | constructor].
  - constructor; [apply Hdriver |]. apply exporter_events_in_mode.
Qed.

(** X16: the compilation work of one call. The Compilation Driver is invoked
    at most once, the compiler client is asked at most once, and only after
    the driver and only for a stage that exports from the executable. *)
Theorem compilation_work_per_call stage pflr func_name dev context handles :
  List.filter is_compilation
    (events (GetCompilerIr E stage pflr func_name dev context handles)) = [] \/
  exists args,
    List.filter is_compilation
      (events (GetCompilerIr E stage pflr func_name dev context handles)) =
      [EvCompileFunction args] \/
    (from_executable stage = true /\
     exists sent,
       List.filter is_compilation
         (events (GetCompilerIr E stage pflr func_name dev context handles)) =
         [EvCompileFunction args; EvCompile sent]).
Proof.
  destruct (call_shape stage pflr func_name dev context handles)
    as (pre & mid & post & -> & Hpre & Hpost & Hmid).
  assert (Hquiet : forall t,
            Forall (fun e => is_compilation e = false /\
                             of_other_mode (handles_empty handles) e = false)
                   t ->
            List.filter is_compilation t = []).
  { intros t Ht. apply filter_none. revert Ht. apply List.Forall_impl. tauto. }
  rewrite !List.filter_app, (Hquiet pre Hpre), (Hquiet post Hpost).
  rewrite app_nil_r. simpl.
  destruct Hmid as [-> | (args & _ & [-> | (result & lc & options & ->)])].
  - now left.
  - right. exists args. now left.
  - right. exists args. simpl.
    pose proof (exporter_compilations (CreateFromProto E) (RenderGraph E)
                  stage result lc options) as Hx.
    destruct (from_executable stage).
    + destruct Hx as [sent ->]. right. split; [reflexivity |]. now exists sent.
    + rewrite Hx. now left.
Qed.

(** X17: what a call without handles hands to the Compilation Driver is the
    list of descriptors that the spec-mode builder returned for the function
    body the resolver answered with. *)
Theorem spec_mode_compiles_builder_result stage pflr func_name dev context
    args :
  In (EvCompileFunction args)
     (events (GetCompilerIr E stage pflr func_name dev context [])) ->
  exists fbody cs rs,
    GetBodyAndConstantsAndResources E (GetFLR pflr (device_name dev))
                                    func_name = OkValue (fbody, cs, rs) /\
    outcome (BuildXlaCompilerArgumentFromFuncBody (BuildTensorShape E) fbody) =
      Ok args.
Proof.
  destruct (call_shape stage pflr func_name dev context [])
    as (pre & mid & post & -> & Hpre & Hpost & Hmid).
  assert (Hquiet : forall t,
            Forall (fun e => is_compilation e = false /\
                             of_other_mode (handles_empty (@nil TensorHandle))
                                           e = false) t ->
            ~ In (EvCompileFunction args) t).
  { intros t Ht Hin. rewrite List.Forall_forall in Ht.
    apply Ht in Hin as [Hc _]. discriminate Hc. }
  intros Hin. rewrite !in_app_iff in Hin.
  destruct Hin as [Hin | [Hin | Hin]];
    [now apply Hquiet in Hin | | now apply Hquiet in Hin].
  destruct Hmid as [-> | (args' & Hb & Hmid)]; [contradiction |].
  assert (args' = args) as ->.
  { destruct Hmid as [-> | (result & lc & options & ->)];
      destruct Hin as [Hin | Hin]; try (now inversion Hin); try contradiction.
    destruct (BuildHLOString_phase (CreateFromProto E) (RenderGraph E) stage
                result lc options) as [Hp _].
    rewrite List.Forall_forall in Hp. apply Hp in Hin. discriminate Hin. }
  now apply Hb.
Qed.

End Calls.

(** A call on the host CPU for the function "f" of the sample library. *)
Lemma spec_mode_compiles_builder_result_witness :
  exists fbody cs rs,
    GetBodyAndConstantsAndResources Sample.collaborators
      (GetFLR Sample.pflr (device_name Sample.cpu)) "f" =
      OkValue (fbody, cs, rs) /\
    outcome (BuildXlaCompilerArgumentFromFuncBody
               (BuildTensorShape Sample.collaborators) fbody) =
      Ok [parameter_of (Sample.float_arg "x") {| dim_sizes := [2; 2]%Z |};
          parameter_of (Sample.float_arg "y") {| dim_sizes := [2; 2]%Z |}].
Proof.
  apply (spec_mode_compiles_builder_result Sample.collaborators HLO
           Sample.pflr "f" Sample.cpu Sample.context).
  vm_compute. do 9 right. left. reflexivity.
Defined.

(** ** The loop over the input handles (lines 220-234) *)

Section InputLoop.

Variable context : EagerContext.
Variable cs : list Z.

(** The events of one round that goes through. *)
Lemma gather_inputs_round th rest i inputs0 storage0 inputs storage :
  outcome (gather_inputs context cs (th :: rest) i inputs0 storage0) =
    Ok (inputs, storage) ->
  exists t x,
    th_Tensor th = OkValue t /\
    (if c_binary_search cs (Z.of_nat i)
     then th_CopyToDevice th context None
            (new_Tensor (dtype t) (tensor_shape t)) = OkValue x
     else x = t) /\
    outcome (gather_inputs context cs rest (S i) (inputs0 ++ [x])
               (if c_binary_search cs (Z.of_nat i)
                then storage0 ++ [x] else storage0)) = Ok (inputs, storage) /\
    events (gather_inputs context cs (th :: rest) i inputs0 storage0) =
      EvTensor i ::
      (if c_binary_search cs (Z.of_nat i) then [EvCopyToDevice i] else []) ++
      events (gather_inputs context cs rest (S i) (inputs0 ++ [x])
                (if c_binary_search cs (Z.of_nat i)
                 then storage0 ++ [x] else storage0)).
Proof.
  simpl. destruct (th_Tensor th) as [t | err]; simpl; [| discriminate].
  destruct (c_binary_search cs (Z.of_nat i)); simpl.
  - destruct (th_CopyToDevice th context None _) as [copy | err] eqn:Hcopy;
      simpl; [| discriminate].
    destruct (gather_inputs context cs rest (S i) _ _) as [t' r] eqn:Hrest.
    simpl. intros ->. exists t, copy. rewrite Hrest. repeat split; auto.
  - destruct (gather_inputs context cs rest (S i) _ _) as [t' r] eqn:Hrest.
    simpl. intros ->. exists t, t. rewrite Hrest. repeat split; auto.
Qed.

(** X18: a loop over the handles that goes through reads the tensor of every
    handle once, in the order of the handles, and copies to the host right
    after the read exactly when the search finds the position among the
    constant indices. [inputs] gains one pointer per handle, and
    [inputs_storage] one tensor per copy. *)
Theorem input_loop_trace handles : forall i inputs0 storage0 inputs storage,
  outcome (gather_inputs context cs handles i inputs0 storage0) =
    Ok (inputs, storage) ->
  events (gather_inputs context cs handles i inputs0 storage0) =
    flat_map (fun k => EvTensor k ::
                       if c_binary_search cs (Z.of_nat k)
                       then [EvCopyToDevice k] else [])
             (seq i (length handles)) /\
  length inputs = length inputs0 + length handles /\
  length storage =
    length storage0 +
    length (List.filter (fun k => c_binary_search cs (Z.of_nat k))
                        (seq i (length handles))).
Proof.
  induction handles as [| th rest IH]; intros i inputs0 storage0 inputs storage H.
  - simpl in *. inversion H; subst. repeat split; lia.
  - apply gather_inputs_round in H as (t & x & _ & _ & Hrest & ->).
    apply IH in Hrest as (-> & Hin & Hst). cbn [length seq flat_map List.filter].
    rewrite length_app in Hin. simpl in Hin.
    split; [| split; [lia |]].
    + now rewrite <- app_comm_cons.
    + destruct (c_binary_search cs (Z.of_nat i)); simpl.
      * rewrite length_app in Hst. simpl in Hst. lia.
      * exact Hst.
Qed.



(** The copies of a loop that goes through. *)
Lemma gather_inputs_copies handles : forall i inputs0 storage0 inputs storage k,
  outcome (gather_inputs context cs handles i inputs0 storage0) =
    Ok (inputs, storage) ->
  In (EvCopyToDevice k)
     (events (gather_inputs context cs handles i inputs0 storage0)) <->
  i <= k < i + length handles /\ c_binary_search cs (Z.of_nat k) = true.
Proof.
  induction handles as [| th rest IH];
    intros i inputs0 storage0 inputs storage k H.
  - simpl. split; [contradiction | lia].
  - apply gather_inputs_round in H as (t & x & _ & _ & Hrest & ->).
    specialize (IH _ _ _ _ _ k Hrest). cbn [length].
    split.
    + intros [Hin | Hin]; [discriminate Hin |].
      apply in_app_iff in Hin as [Hin | Hin].
      * destruct (c_binary_search cs (Z.of_nat i)) eqn:Hc; [| contradiction].
        destruct Hin as [Hin | []]. inversion Hin; subst k. split; [lia | auto].
      * apply IH in Hin as [Hk Hc]. split; [lia | exact Hc].
    + intros [Hk Hc]. right. apply in_app_iff.
      destruct (Nat.eq_dec k i) as [-> | Hne].
      * left. rewrite Hc. now left.
      * right. apply IH. split; [lia | exact Hc].
Qed.

(** X20: with the constant indices in ascending order, as the resolver
    hands them out, the halving search of line 225 decides membership: a
    loop that goes through copies to the host the inputs at the constant
    indices, and no other. *)
Theorem host_copies_are_the_constant_inputs handles i inputs0 storage0 inputs
    storage k :
  StronglySorted Z.le cs ->
  outcome (gather_inputs context cs handles i inputs0 storage0) =
    Ok (inputs, storage) ->
  In (EvCopyToDevice k)
     (events (gather_inputs context cs handles i inputs0 storage0)) <->
  i <= k < i + length handles /\ In (Z.of_nat k) cs.
Proof.
  intros Hs H.
  rewrite (gather_inputs_copies handles i inputs0 storage0 inputs storage k H).
  now rewrite (c_binary_search_In cs (Z.of_nat k) Hs).
Qed.

End InputLoop.


(** The four inputs of the sample function "g", whose input 1 is constant. *)
Lemma input_loop_trace_witness :
  exists inputs storage,
    outcome (gather_inputs Sample.context [1%Z] Sample.four_inputs 0 [] []) =
      Ok (inputs, storage) /\
    events (gather_inputs Sample.context [1%Z] Sample.four_inputs 0 [] []) =
      [EvTensor 0; EvTensor 1; EvCopyToDevice 1; EvTensor 2; EvTensor 3] /\
    length inputs = 4 /\ length storage = 1.
Proof.
  eexists _, _. split; [vm_compute; reflexivity |].
  apply (input_loop_trace Sample.context [1%Z] Sample.four_inputs 0 [] []).
  vm_compute. reflexivity.
Defined.

(** The four inputs of the sample function "g" and its constant index 1. *)
Lemma host_copies_are_the_constant_inputs_witness :
  exists inputs storage,
    outcome (gather_inputs Sample.context [1%Z] Sample.four_inputs 0 [] []) =
      Ok (inputs, storage) /\
    (In (EvCopyToDevice 1)
        (events (gather_inputs Sample.context [1%Z] Sample.four_inputs 0 []
                               [])) <->
     0 <= 1 < 0 + length Sample.four_inputs /\ In (Z.of_nat 1) [1%Z]).
Proof.
  eexists _, _. split; [vm_compute; reflexivity |].
  eapply (host_copies_are_the_constant_inputs Sample.context [1%Z]
            Sample.four_inputs 0 [] []).
  - repeat constructor.
  - vm_compute. reflexivity.
Defined.

(** ** Concrete runs of the exporter *)

(** The client is not available. *)
Lemma exporter_error_provenance_witness :
  GetProgramShape (computation Sample.compilation_result) =
    NotOk {| code := UNAVAILABLE; error_message := "no client" |} \/
  (exists config,
     CreateFromProto Sample.collaborators
       (proto (computation Sample.compilation_result)) config =
       NotOk {| code := UNAVAILABLE; error_message := "no client" |}) \/
  (exists sent,
     Compile unavailable_client (computation Sample.compilation_result)
             (argument_layouts_of Sample.compilation_result) sent =
       NotOk {| code := UNAVAILABLE; error_message := "no client" |}) \/
  (exists executables,
     length executables <> 1 /\
     (exists sent,
        Compile unavailable_client (computation Sample.compilation_result)
                (argument_layouts_of Sample.compilation_result) sent =
          OkValue executables) /\
     {| code := UNAVAILABLE; error_message := "no client" |} =
       errors_Internal "executables.size() == 1") \/
  (exists entry,
     RenderGraph Sample.collaborators entry "Visualization" kDot =
       NotOk {| code := UNAVAILABLE; error_message := "no client" |}).
Proof.
  apply (exporter_error_provenance
           (CreateFromProto Sample.collaborators)
           (RenderGraph Sample.collaborators)
           OPTIMIZED_HLO Sample.compilation_result unavailable_client
           Sample.options).
  reflexivity.
Defined.

(** The sample program, exported without metadata. *)
Lemma from_program_output_witness :
  BuildHLOString (CreateFromProto Sample.collaborators)
                 (RenderGraph Sample.collaborators) HLO_NO_METADATA
                 Sample.compilation_result Sample.local_client
                 Sample.options =
    ([EvGetProgramShape; EvCreateFromProto], Ok "unoptimized").
Proof.
  apply (from_program_output
           (CreateFromProto Sample.collaborators)
           (RenderGraph Sample.collaborators) HLO_NO_METADATA
           Sample.compilation_result Sample.local_client Sample.options
           {| parameters := [{| xla_dimensions := [2; 2]%Z |}];
              program_result := {| xla_dimensions := [2; 2]%Z |} |}
           (Sample.text_module "unoptimized")).
  - reflexivity.
  - reflexivity.
  - reflexivity.
Defined.

(** The sample executable, rendered as a graph. *)
Lemma from_executable_output_witness :
  outcome (BuildHLOString (CreateFromProto Sample.collaborators)
             (RenderGraph Sample.collaborators) OPTIMIZED_HLO_DOT
             Sample.compilation_result Sample.local_client Sample.options) =
    Ok "digraph main".
Proof.
  apply (from_executable_output
           (CreateFromProto Sample.collaborators)
           (RenderGraph Sample.collaborators) OPTIMIZED_HLO_DOT
           Sample.compilation_result Sample.local_client Sample.options
           (Sample.built false)).
  - reflexivity.
  - reflexivity.
Defined.

(** ** A spec-mode call from end to end *)

Section SpecModeCall.

Variable E : Collaborators.

(** X21: a call without handles that gets through is the composition of its
    parts. The descriptors of the builder are what the Compilation Driver
    compiles, under the options the generator made for the cached compiler
    instance, and the result of the call is what the exporter makes of the
    driver's result with the client of that instance and the same options. *)
Theorem spec_mode_call_result stage pflr func_name dev context fbody cs rs c
    options args result :
  device_type dev = DEVICE_CPU \/
  (exists info,
     tensorflow_accelerator_device_info dev = Some info /\
     (stream info <> None \/ from_executable stage = false)) ->
  GetBodyAndConstantsAndResources E (GetFLR pflr (device_name dev)) func_name =
    OkValue (fbody, cs, rs) ->
  outcome (LookupOrCreate (resource_manager dev)
             (fun _ => BuildXlaDeviceCompiler E dev
                         (GetFLR pflr (device_name dev))
                         (XlaPlatformInfoFromDevice E dev))) = Ok c ->
  outcome (generate_options E (XlaPlatformInfoFromDevice E dev)
             (stream_of dev) c (GetFLR pflr (device_name dev)) dev) =
    Ok options ->
  outcome (BuildXlaCompilerArgumentFromFuncBody (BuildTensorShape E) fbody) =
    Ok args ->
  CompileFunction E options
    {| always_return_tuple := false; alias_resource_update := true |}
    func_name args = OkValue result ->
  outcome (GetCompilerIr E stage pflr func_name dev context []) =
    outcome (BuildHLOString (CreateFromProto E) (RenderGraph E) stage result
                            (client c) options).
Proof.
  intros Hpass Hres Hlookup Hoptions Hbuilder Hcompile.
  rewrite GetCompilerIr_run.
  rewrite (stage_check_passes stage dev Hpass), Hres.
  rewrite outcome_at_return_after.
  pose proof (compile_and_export_run E stage func_name dev
                (GetFLR pflr (device_name dev)) (resource_manager dev) true
                fbody cs [] no_locals) as Hrun.
  destruct (LookupOrCreate (resource_manager dev) _) as [tl r].
  simpl in Hlookup. subst r.
  destruct Hrun as (eo & options' & Hgen & ->).
  rewrite Hgen in Hoptions. simpl in Hoptions.
  inversion Hoptions; subst options'.
  destruct (BuildXlaCompilerArgumentFromFuncBody (BuildTensorShape E) fbody)
    as [ta rb]. simpl in Hbuilder. subst rb. cbv beta iota zeta.
  rewrite Hcompile.
  destruct (BuildHLOString_phase (CreateFromProto E) (RenderGraph E) stage
              result (client c) options) as [_ Hdef].
  unfold at_return.
  destruct (outcome (BuildHLOString _ _ stage result (client c) options))
    as [text | s | f] eqn:Hout; try reflexivity.
Qed.

End SpecModeCall.

(** The function "f" of the sample library, on the host CPU. *)
Lemma spec_mode_call_result_witness :
  outcome (GetCompilerIr Sample.collaborators HLO Sample.pflr "f" Sample.cpu
                         Sample.context []) =
    outcome (BuildHLOString (CreateFromProto Sample.collaborators)
               (RenderGraph Sample.collaborators) HLO
               Sample.compilation_result Sample.local_client Sample.options).
Proof.
  apply (spec_mode_call_result Sample.collaborators HLO Sample.pflr "f"
           Sample.cpu Sample.context (Some Sample.two_floats) [] []
           {| client := Sample.local_client |} Sample.options
           [parameter_of (Sample.float_arg "x") {| dim_sizes := [2; 2]%Z |};
            parameter_of (Sample.float_arg "y") {| dim_sizes := [2; 2]%Z |}]
           Sample.compilation_result).
  - now left.
  - reflexivity.
  - reflexivity.
  - reflexivity.
  - reflexivity.
  - reflexivity.
Defined.
